(** * c_gen_adv.py: the weighted generative engine, embedded in Rocq

    A shallow embedding of [src/c_gen_adv.py] (v0.2.1): the helper functions,
    the fifteen registered generators, the generation state, the assembly
    loop [build_c], the decorator [register] and the reader of the
    command-line weights [_parse_weights], followed by the properties of the
    engine.

    Conventions of the embedding.
    - Python [str] is [string]; [s.count("\n")] is [nl s].
    - Python [int] is [Z]; a finite [float] is the rational [Q] it stands for,
      with [0.07] read as [7 # 100]: the rounding of binary floating point to
      53 bits is not modelled.  Its overflow is: a sum of weights whose
      magnitude reaches [FLOAT_OVERFLOW] is an infinity, which [rng.choices]
      rejects, and a weight of that magnitude stands for an infinite one.
      Statements about the weighted draw are therefore made for weights on
      which rounding cannot change the outcome ([safe_weights]).
    - [random.Random] is a tape of raw draws with a cursor.  Every primitive
      ([choice], [randint], [random], [uniform], [sample], [choices]) consumes
      raw draws in the order the source calls it and reduces them into its
      range the way CPython does ([seq[randbelow(len(seq))]],
      [a + randbelow(b - a + 1)], [k / 2^53]).  A statement over all tapes
      therefore covers every seed.
    - Python [set] is [gset]; the order in which [list(a_set)] enumerates a set
      of strings is fixed by the interpreter's string hashing, not by the
      program: it is a parameter ([HashOrder]) of every run.
    - The [while] loop of [build_c] takes fuel; running out of fuel is the
      outcome [OutOfFuel].
    - [cfg.style] is one of the four documented selectors; a [KeyError] of
      [STYLE_TABLE] for another string is outside the embedding.
    - [rng.choices] is that of CPython 3.9 and later, which raises
      [ValueError] for a total weight that is not positive or not finite;
      [f"{x:.2f}"] rounds the exact rational to hundredths, ties to even.
    - [_REGISTRY] is an association list in insertion order, threaded through
      [register]; the exit of [_parse_weights] is [None]; [float] and
      [str.strip] are parameters of [_parse_weights].
    - [_compile_check] and [_cli] (a subprocess, the argument parser, the file
      system) are not embedded. *)

From Stdlib Require Import ZArith QArith Qround Qabs String Ascii List Lia Lqa DecimalString.
From Stdlib Require DecimalZ DecimalPos.
From stdpp Require Import base tactics option list gmap sets strings.
Import ListNotations.

#[local] Open Scope string_scope.
#[local] Open Scope nat_scope.
#[local] Set Warnings "-clear-no-such-hyp".

(** ** Strings *)

Definition LF : ascii := "010"%char.
Definition DQ : ascii := "034"%char.
Definition EOL : string := String LF "".

(** [s.count("\n")] *)
Fixpoint nl (s : string) : nat :=
  match s with
  | "" => 0
  | String c t => (if Ascii.eqb c LF then 1 else 0) + nl t
  end.

(** [all(p(c) for c in s)] *)
Fixpoint str_forall (p : ascii -> bool) (s : string) : bool :=
  match s with
  | "" => true
  | String c t => p c && str_forall p t
  end.

(** [s.startswith(prefix)] *)
Fixpoint startswith (s prefix : string) : bool :=
  match prefix with
  | "" => true
  | String p ps =>
      match s with
      | "" => false
      | String c cs => Ascii.eqb c p && startswith cs ps
      end
  end.

(** [s.endswith(c)] for a one-character suffix *)
Fixpoint endswith (s : string) (c : ascii) : bool :=
  match s with
  | "" => false
  | String a "" => Ascii.eqb a c
  | String _ t => endswith t c
  end.

Definition is_lower (c : ascii) : bool :=
  (97 <=? nat_of_ascii c) && (nat_of_ascii c <=? 122).
Definition is_upper (c : ascii) : bool :=
  (65 <=? nat_of_ascii c) && (nat_of_ascii c <=? 90).
Definition is_alpha (c : ascii) : bool := is_lower c || is_upper c.
Definition is_digit (c : ascii) : bool :=
  (48 <=? nat_of_ascii c) && (nat_of_ascii c <=? 57).

Definition upper_char (c : ascii) : ascii :=
  if is_lower c then ascii_of_nat (nat_of_ascii c - 32) else c.
Definition lower_char (c : ascii) : ascii :=
  if is_upper c then ascii_of_nat (nat_of_ascii c + 32) else c.

Fixpoint str_map (f : ascii -> ascii) (s : string) : string :=
  match s with
  | "" => ""
  | String c t => String (f c) (str_map f t)
  end.

(** [s.upper()] and [s.capitalize()] *)
Definition upper (s : string) : string := str_map upper_char s.
Definition capitalize (s : string) : string :=
  match s with
  | "" => ""
  | String c t => String (upper_char c) (str_map lower_char t)
  end.

(** [str(n)] / [f"{n}"] for an integer *)
Definition str_of_Z (z : Z) : string := NilZero.string_of_int (Z.to_int z).

(** [s.split(c)] for a one-character separator *)
Fixpoint split (c : ascii) (s : string) : list string :=
  match s with
  | "" => [""]
  | String a t =>
      if Ascii.eqb a c then "" :: split c t
      else match split c t with
           | [] => [String a ""]
           | w :: ws => String a w :: ws
           end
  end.

(** [sep.join(l)] *)
Definition join (sep : string) (l : list string) : string := String.concat sep l.

(** [s * n] *)
Fixpoint str_repeat (s : string) (n : nat) : string :=
  match n with
  | 0 => ""
  | S k => s +:+ str_repeat s k
  end.

(** [f"{x:.2f}"] for a non-negative rational: hundredths, rounded to the
    nearest, a tie to the even one. *)
Definition format_2f (x : Q) : string :=
  let y := (x * (100 # 1))%Q in
  let f := Qfloor y in
  let h := match (y - inject_Z f ?= 1 # 2)%Q with
           | Lt => f
           | Gt => (f + 1)%Z
           | Eq => if Z.even f then f else (f + 1)%Z
           end in
  let frac := (h mod 100)%Z in
  str_of_Z (h / 100)%Z +:+ "." +:+
  (if (frac <? 10)%Z then "0" else "") +:+ str_of_Z frac.

(** ** The random source *)

Record Rng := mkRng { tape : nat -> Z; cursor : nat }.

(** A computation that draws from the random source. *)
Definition Gen (A : Type) : Type := Rng -> A * Rng.

Definition gret {A} (a : A) : Gen A := fun r => (a, r).
Definition gbind {A B} (m : Gen A) (k : A -> Gen B) : Gen B :=
  fun r => let (a, r') := m r in k a r'.

Declare Scope gen_scope.
Delimit Scope gen_scope with gen.
Notation "'let*' x ':=' m 'in' k" := (gbind m (fun x => k))
  (at level 10, x name, m at level 100, k at level 200) : gen_scope.
Notation "'let*' ' p ':=' m 'in' k" := (gbind m (fun p => k))
  (at level 10, p pattern, m at level 100, k at level 200) : gen_scope.

(** One raw draw. *)
Definition raw : Gen Z :=
  fun r => (tape r (cursor r), mkRng (tape r) (S (cursor r))).

(** [rng._randbelow(n)]: a value in [0, n). *)
Definition randbelow (n : Z) : Gen Z :=
  fun r => let (d, r') := raw r in ((d mod n)%Z, r').

(** [rng.randint(a, b)] *)
Definition randint (a b : Z) : Gen Z :=
  (let* k := randbelow (b - a + 1) in gret (a + k)%Z)%gen.

(** [rng.random()]: [k / 2^53] with [0 <= k < 2^53]. *)
Definition two53 : positive := 9007199254740992.
Definition random : Gen Q :=
  (let* k := randbelow (Zpos two53) in gret (k # two53))%gen.

(** [rng.uniform(a, b)] is [a + (b - a) * random()]. *)
Definition uniform (a b : Q) : Gen Q :=
  (let* u := random in gret (a + (b - a) * u)%Q)%gen.

(** [rng.choice(seq)] is [seq[randbelow(len(seq))]]; [dflt] stands for the
    [IndexError] of an empty sequence, which no call site can trigger. *)
Definition choice {A} (seq : list A) (dflt : A) : Gen A :=
  (let* i := randbelow (Z.of_nat (length seq)) in
   gret (nth (Z.to_nat i) seq dflt))%gen.

(** [[f(rng) for _ in range(n)]] *)
Fixpoint replicateG {A} (n : nat) (m : Gen A) : Gen (list A) :=
  match n with
  | 0 => gret []
  | S k => (let* x := m in let* xs := replicateG k m in gret (x :: xs))%gen
  end.

(** [[f(rng, i) for i in range(n)]], counting up from [i]. *)
Fixpoint forG {A} (n : nat) (i : Z) (m : Z -> Gen A) : Gen (list A) :=
  match n with
  | 0 => gret []
  | S k => (let* x := m i in let* xs := forG k (i + 1)%Z m in gret (x :: xs))%gen
  end.

(** [rng.sample(population, 2)] for a population of at most 21 elements:
    CPython draws from a pool and moves the pool's last element into the
    slot it took from. *)
Definition sample2 {A} (population : list A) (dflt : A) : Gen (list A) :=
  (let n := length population in
   let* j := randbelow (Z.of_nat n) in
   let x := nth (Z.to_nat j) population dflt in
   let pool := <[Z.to_nat j := nth (n - 1) population dflt]> population in
   let* j' := randbelow (Z.of_nat (n - 1)) in
   gret [x; nth (Z.to_nat j') pool dflt])%gen.

(** [bisect.bisect_right(a, x, lo, hi)], the binary search of CPython. *)
Fixpoint bisect (fuel : nat) (a : list Q) (x : Q) (lo hi : nat) : nat :=
  match fuel with
  | 0 => lo
  | S f =>
      if lo <? hi then
        let mid := (lo + hi) / 2 in
        if Qle_bool (nth mid a 0%Q) x
        then bisect f a x (mid + 1) hi
        else bisect f a x lo mid
      else lo
  end.

(** [itertools.accumulate(weights)] *)
Fixpoint accumulate (acc : Q) (ws : list Q) : list Q :=
  match ws with
  | [] => []
  | w :: t => (acc + w)%Q :: accumulate (acc + w)%Q t
  end.

(** The least magnitude that binary64 rounds to an infinity:
    [2^1024 - 2^970]. *)
Definition FLOAT_OVERFLOW : Q :=
  Eval vm_compute in inject_Z (2 ^ 1024 - 2 ^ 970).

(** [math.isfinite(x)] *)
Definition isfinite (x : Q) : bool := negb (Qle_bool FLOAT_OVERFLOW (Qabs x)).

(** [math.isfinite(cum_weights[-1])] for the sums [cum] that [accumulate]
    made: once a sum is an infinity, every later sum is an infinity or not a
    number, so the last one is finite exactly when all of them are. *)
Definition finite_sums (cum : list Q) : bool := forallb isfinite cum.

(** [rng.choices(population, weights=weights)[0]] (CPython 3.9 and later):
    [None] is the [ValueError] raised when the total weight is not positive
    or not finite. *)
Definition choices {A} (population : list A) (weights : list Q) (dflt : A)
  : Gen (option A) :=
  let cum := accumulate 0%Q weights in
  let total := List.last cum 0%Q in
  if Qle_bool total 0%Q then gret None
  else if negb (finite_sums cum) then gret None
  else
    (let* u := random in
     let i := bisect (length population) cum (u * total)%Q 0 (length population - 1) in
     gret (Some (nth i population dflt)))%gen.

(** ** Helpers *)

Definition LETTERS : list string :=
  ["a"; "b"; "c"; "d"; "e"; "f"; "g"; "h"; "i"; "j"; "k"; "l"; "m";
   "n"; "o"; "p"; "q"; "r"; "s"; "t"; "u"; "v"; "w"; "x"; "y"; "z"].
Definition BASE_CTYPES : list string := ["int"; "long"; "float"; "double"; "char"].
Definition POINTER_CHANCE : Q := 1 # 4.

Definition Qltb (a b : Q) : bool := negb (Qle_bool b a).

Definition fresh_name (length : Z) : Gen string :=
  (let* cs := replicateG (Z.to_nat length) (choice LETTERS "") in
   gret (join "" cs))%gen.

Definition choose_ctype (extra : list string) : Gen string :=
  (let* base := choice (BASE_CTYPES ++ extra)%list "" in
   let* u := random in
   if Qltb u POINTER_CHANCE && negb (endswith base "*")
   then gret (base +:+ "*")
   else gret base)%gen.

Definition random_value (ctype : string) : Gen string :=
  (if endswith ctype "*" then gret "NULL"
   else if String.eqb ctype "char" then
     let* c := choice LETTERS "" in gret ("'" +:+ c +:+ "'")
   else if String.eqb ctype "int" || String.eqb ctype "long" then
     let* v := randint 0 100 in
     gret (str_of_Z v +:+ (if String.eqb ctype "long" then "L" else ""))
   else
     let* x := uniform 0 (100 # 1) in gret (format_2f x))%gen.

(** ** Configuration, style table and generation state *)

Inductive Style := kr | allman | gnu.

(** [cfg.style]: ["auto"] or one of the keys of [STYLE_TABLE]. *)
Inductive StyleSel := auto | fixed (s : Style).

Definition STYLE_KEYS : list Style := [kr; allman; gnu].

Definition indent_of (s : Style) : string :=
  match s with
  | kr => "    "
  | allman => "    "
  | gnu => "  "
  end.

Definition brace_same (s : Style) : bool :=
  match s with
  | kr => true
  | allman => false
  | gnu => true
  end.

(** [CConfig]; the seed is not a field here: [random.Random(cfg.seed)] is the
    [Rng] handed to [build_c]. [weights] keeps the dictionary's insertion
    order, which is the order in which [build_c] unzips it into kinds and weights. *)
Record CConfig := mkConfig {
  loc : Z;
  style : StyleSel;
  check : bool;
  weights : list (string * Q)
}.

Definition default_weights : list (string * Q) :=
  [("comment", 7 # 100); ("include", 7 # 100); ("define_macro", 4 # 100);
   ("define_macro_f", 4 # 100); ("typedef", 8 # 100); ("enum", 6 # 100);
   ("union", 5 # 100); ("struct", 7 # 100); ("var_decl", 12 # 100);
   ("func_decl", 8 # 100); ("func_def", 8 # 100); ("switch", 5 # 100);
   ("main", 7 # 100); ("conditional", 6 # 100); ("loop", 6 # 100)]%Q.

(** A function signature as stored in [state["funcs"]]:
    [(ret, name, params_str)]. *)
Definition Sig : Type := string * string * string.

(** How [list(s)] enumerates a set: some arrangement of its elements, fixed
    for one interpreter process by its string-hash seed.  The sets of a run
    only grow, so within a run every value of a set is reached by one
    history of insertions and has one arrangement. *)
Record HashOrder := mkHashOrder {
  list_of_strs : gset string -> list string;
  list_of_sigs : gset Sig -> list Sig;
  list_of_strs_perm : forall s, list_of_strs s ≡ₚ elements s;
  list_of_sigs_perm : forall s, list_of_sigs s ≡ₚ elements s
}.

Record State := mkState {
  rng : Rng;
  st_style : Style;
  typedefs : gset string;
  structs : gset string;
  funcs : gset Sig;
  headers : gset string;
  main_written : bool
}.

(** A computation over the shared generation state. *)
Definition St (A : Type) : Type := State -> A * State.

Definition sret {A} (a : A) : St A := fun s => (a, s).
Definition sbind {A B} (m : St A) (k : A -> St B) : St B :=
  fun s => let (a, s') := m s in k a s'.

Declare Scope st_scope.
Delimit Scope st_scope with st.
Notation "'let*' x ':=' m 'in' k" := (sbind m (fun x => k))
  (at level 10, x name, m at level 100, k at level 200) : st_scope.
Notation "'let*' ' p ':=' m 'in' k" := (sbind m (fun p => k))
  (at level 10, p pattern, m at level 100, k at level 200) : st_scope.
Notation "m ';;;' k" := (sbind m (fun _ => k))
  (at level 100, k at level 200, right associativity) : st_scope.

Definition set_rng (r : Rng) (s : State) : State :=
  mkState r (st_style s) (typedefs s) (structs s) (funcs s) (headers s) (main_written s).

(** [state["rng"]] used by a helper or a primitive. *)
Definition draw {A} (g : Gen A) : St A :=
  fun s => let (a, r) := g (rng s) in (a, set_rng r s).

(** Reading a field of the state. *)
Definition get {A} (f : State -> A) : St A := fun s => (f s, s).

(** An update of the state in place. *)
Definition modify (f : State -> State) : St unit := fun s => (tt, f s).

Definition with_typedef (a : string) (s : State) : State :=
  mkState (rng s) (st_style s) (typedefs s ∪ {[a]}) (structs s) (funcs s)
    (headers s) (main_written s).
Definition with_struct (a : string) (s : State) : State :=
  mkState (rng s) (st_style s) (typedefs s) (structs s ∪ {[a]}) (funcs s)
    (headers s) (main_written s).
Definition with_func (f : Sig) (s : State) : State :=
  mkState (rng s) (st_style s) (typedefs s) (structs s) (funcs s ∪ {[f]})
    (headers s) (main_written s).
Definition with_header (h : string) (s : State) : State :=
  mkState (rng s) (st_style s) (typedefs s) (structs s) (funcs s)
    (headers s ∪ {[h]}) (main_written s).
Definition without_headers (s : State) : State :=
  mkState (rng s) (st_style s) (typedefs s) (structs s) (funcs s) ∅ (main_written s).
Definition with_main_written (s : State) : State :=
  mkState (rng s) (st_style s) (typedefs s) (structs s) (funcs s) (headers s) true.

(** [state["typedefs"].add(a)] and its siblings. *)
Definition add_typedef (a : string) : St unit := modify (with_typedef a).
Definition add_struct (a : string) : St unit := modify (with_struct a).
Definition add_func (f : Sig) : St unit := modify (with_func f).
Definition add_header (h : string) : St unit := modify (with_header h).
(** [state["headers"].clear()] *)
Definition clear_headers : St unit := modify without_headers.
(** [state["main_written"] = True] *)
Definition set_main_written : St unit := modify with_main_written.

Definition brace_line (sty : Style) (header : string) : string :=
  if brace_same sty then header +:+ " {" +:+ EOL
  else header +:+ EOL +:+ "{" +:+ EOL.

(** [[f(rng, x) for x in xs]] *)
Fixpoint mapG {A B} (f : A -> Gen B) (xs : list A) : Gen (list B) :=
  match xs with
  | [] => gret []
  | x :: t => (let* y := f x in let* ys := mapG f t in gret (y :: ys))%gen
  end.

(** [range(n)] *)
Definition range (n : Z) : list Z := map Z.of_nat (seq 0 (Z.to_nat n)).

(** ** Generators *)

Definition GeneratorFn : Type := St string.

Definition TAGS : list string := ["// TODO"; "// FIXME"; "// NOTE"; "// HACK"].

Definition gen_comment : GeneratorFn :=
  (let* tag := draw (choice TAGS "") in
   let* n := draw (randint 3 8) in
   let* name := draw (fresh_name n) in
   sret (tag +:+ ": " +:+ name +:+ EOL))%st.

Definition HDRS : list string :=
  ["<stdio.h>"; "<stdlib.h>"; "<string.h>"; "<math.h>"; "<stddef.h>"].

Definition gen_include : GeneratorFn :=
  (let* seen := get headers in
   let available := filter (fun h => h ∉ seen) HDRS in
   let* available :=
     (if bool_decide (available = [])
      then (clear_headers ;;; sret HDRS)
      else sret available) in
   let* hdr := draw (choice available "") in
   add_header hdr ;;;
   sret ("#include " +:+ hdr +:+ EOL))%st.

Definition gen_define_macro : GeneratorFn :=
  (let* name := draw (fresh_name 6) in
   let name := upper name in
   let* v := draw (randint 1 100) in
   sret ("#define " +:+ name +:+ " " +:+ str_of_Z v +:+ EOL))%st.

Definition gen_define_macro_func : GeneratorFn :=
  (let* name := draw (fresh_name 6) in
   let name := upper name in
   let* param := draw (fresh_name 1) in
   sret ("#define " +:+ name +:+ "(" +:+ param +:+ ") ((" +:+ param +:+ ") * ("
         +:+ param +:+ "))" +:+ EOL))%st.

Definition gen_typedef : GeneratorFn :=
  (let* n := draw (randint 3 6) in
   let* alias := draw (fresh_name n) in
   add_typedef alias ;;;
   let* base := draw (choice BASE_CTYPES "") in
   sret ("typedef " +:+ base +:+ " " +:+ alias +:+ ";" +:+ EOL))%st.

Definition gen_enum : GeneratorFn :=
  (let* n := draw (randint 3 6) in
   let* name := draw (fresh_name n) in
   let name := capitalize name in
   let* k := draw (randint 2 4) in
   let items := join ", " (map (fun i => upper name +:+ "_" +:+ str_of_Z i) (range k)) in
   add_typedef name ;;;
   sret ("typedef enum { " +:+ items +:+ " } " +:+ name +:+ ";" +:+ EOL))%st.

Definition union_field (t : string) : Gen string :=
  (let* f := fresh_name 6 in gret ("    " +:+ t +:+ " " +:+ f +:+ ";"))%gen.

Definition gen_union : GeneratorFn :=
  (let* n := draw (randint 3 6) in
   let* name := draw (fresh_name n) in
   let name := capitalize name in
   let* ts := draw (sample2 BASE_CTYPES "") in
   let* fields := draw (mapG union_field ts) in
   add_struct name ;;;
   sret ("typedef union " +:+ name +:+ " {" +:+ EOL +:+ join EOL fields +:+ EOL
         +:+ "} " +:+ name +:+ ";" +:+ EOL))%st.

Definition struct_line : Gen string :=
  (let* t := choice BASE_CTYPES "" in
   let* n := randint 3 6 in
   let* f := fresh_name n in
   gret ("    " +:+ t +:+ " " +:+ f +:+ ";"))%gen.

Definition gen_struct : GeneratorFn :=
  (let* n := draw (randint 3 6) in
   let* name := draw (fresh_name n) in
   let name := capitalize name in
   let* k := draw (randint 1 3) in
   let* lines := draw (replicateG (Z.to_nat k) struct_line) in
   add_struct name ;;;
   sret ("typedef struct " +:+ name +:+ " {" +:+ EOL +:+ join EOL lines +:+ EOL
         +:+ "} " +:+ name +:+ ";" +:+ EOL))%st.

(** The outcome of a run: a value, one of the two exceptions the builder can
    raise, or a loop that has not ended within the fuel. *)
Inductive Result (A : Type) :=
| Ok (a : A)
| KeyError (kind : string)
| ValueError
| OutOfFuel.
Arguments Ok {A} a.
Arguments KeyError {A} kind.
Arguments ValueError {A}.
Arguments OutOfFuel {A}.

Section WithHashOrder.

Variable hash : HashOrder.

Definition gen_var_decl : GeneratorFn :=
  (let* tds := get typedefs in
   let* ctype := draw (choose_ctype (list_of_strs hash tds)) in
   let* name := draw (fresh_name 6) in
   let* init :=
     (if negb (endswith ctype "*") then
        let* u := draw random in
        if Qltb u (1 # 2) then
          let* t := draw (choice BASE_CTYPES "") in
          let* v := draw (random_value t) in
          sret (" = " +:+ v)
        else sret ""
      else sret "") in
   sret (ctype +:+ " " +:+ name +:+ init +:+ ";" +:+ EOL))%st.

Definition func_param (extra : list string) : Gen string :=
  (let* t := choose_ctype extra in
   let* n := fresh_name 6 in
   gret (t +:+ " " +:+ n))%gen.

Definition gen_func_decl : GeneratorFn :=
  (let* tds := get typedefs in
   let* ret := draw (choose_ctype (list_of_strs hash tds)) in
   let* name := draw (fresh_name 6) in
   let* k := draw (randint 0 2) in
   let* params := draw (replicateG (Z.to_nat k) (func_param (list_of_strs hash tds))) in
   let params_str := if bool_decide (params = []) then "void" else join ", " params in
   add_func (ret, name, params_str) ;;;
   sret (ret +:+ " " +:+ name +:+ "(" +:+ params_str +:+ ");" +:+ EOL))%st.

Definition NO_SIG : Sig := ("", "", "").

Definition gen_func_def : GeneratorFn :=
  (let* fs := get funcs in
   if bool_decide (fs = ∅) then sret ""
   else
     let* '(ret, name, params_str) := draw (choice (list_of_sigs hash fs) NO_SIG) in
     let* sty := get st_style in
     let indent := indent_of sty in
     let* body :=
       (if String.eqb ret "void" then sret (indent +:+ "// function body" +:+ EOL)
        else
          let* t := draw (choice BASE_CTYPES "") in
          let* v := draw (random_value t) in
          sret (indent +:+ "return " +:+ v +:+ ";" +:+ EOL)) in
     sret (brace_line sty (ret +:+ " " +:+ name +:+ "(" +:+ params_str +:+ ")")
           +:+ body +:+ "}" +:+ EOL +:+ EOL))%st.

Definition switch_case (indent var : string) (i : Z) : string :=
  indent +:+ "case " +:+ str_of_Z i +:+ ":" +:+ EOL
  +:+ str_repeat indent 2 +:+ var +:+ " += " +:+ str_of_Z i +:+ ";" +:+ EOL
  +:+ str_repeat indent 2 +:+ "break;" +:+ EOL.

Definition gen_switch : GeneratorFn :=
  (let* var := draw (fresh_name 6) in
   let* sty := get st_style in
   let indent := indent_of sty in
   let* k := draw (randint 2 4) in
   let cases := map (switch_case indent var) (range k) in
   let default := indent +:+ "default:" +:+ EOL +:+ str_repeat indent 2 +:+ "break;"
                  +:+ EOL +:+ "}" +:+ EOL in
   sret (brace_line sty ("switch (" +:+ var +:+ ")") +:+ join "" cases +:+ default))%st.

Definition gen_conditional : GeneratorFn :=
  (let* var := draw (fresh_name 6) in
   let* cmp_val := draw (randint 0 10) in
   let* sty := get st_style in
   let indent := indent_of sty in
   let part1 := brace_line sty ("if (" +:+ var +:+ " > " +:+ str_of_Z cmp_val +:+ ")")
                +:+ indent +:+ var +:+ " = " +:+ str_of_Z cmp_val +:+ ";" +:+ EOL
                +:+ "}" +:+ EOL in
   let part2 := brace_line sty "else"
                +:+ indent +:+ var +:+ " += " +:+ str_of_Z cmp_val +:+ ";" +:+ EOL
                +:+ "}" +:+ EOL in
   sret (part1 +:+ part2))%st.

Definition gen_loop : GeneratorFn :=
  (let* var := draw (fresh_name 6) in
   let* sty := get st_style in
   let indent := indent_of sty in
   let* bound := draw (randint 1 5) in
   sret (brace_line sty ("for (int " +:+ var +:+ " = 0; " +:+ var +:+ " < "
                         +:+ str_of_Z bound +:+ "; ++" +:+ var +:+ ")")
         +:+ indent +:+ "// loop body" +:+ EOL +:+ "}" +:+ EOL))%st.

(** One statement of the body of [main]: a call of a stored function with one
    ["0"] per comma-separated parameter, or the greeting. *)
Definition main_stmt (indent : string) : St string :=
  (let* fs := get funcs in
   let* call :=
     (if bool_decide (fs = ∅) then sret false
      else let* u := draw random in sret (Qltb u (1 # 2))) in
   if call : bool then
     let* '(_, fname, pstr) := draw (choice (list_of_sigs hash fs) NO_SIG) in
     let args := if String.eqb pstr "void" then ""
                 else join ", " (map (fun _ => "0") (split "," pstr)) in
     sret (indent +:+ fname +:+ "(" +:+ args +:+ ");" +:+ EOL)
   else
     sret (indent +:+ "printf(" +:+ String DQ "Hello, world!\n" +:+ String DQ ");" +:+ EOL))%st.

(** [for _ in range(n): body.append(...)] *)
Fixpoint replicateS {A} (n : nat) (m : St A) : St (list A) :=
  match n with
  | 0 => sret []
  | S k => (let* x := m in let* xs := replicateS k m in sret (x :: xs))%st
  end.

Definition gen_main : GeneratorFn :=
  (let* written := get main_written in
   if written : bool then sret ""
   else
     set_main_written ;;;
     let* sty := get st_style in
     let indent := indent_of sty in
     let* k := draw (randint 1 3) in
     let* body := replicateS (Z.to_nat k) (main_stmt indent) in
     let body := (body ++ [indent +:+ "return 0;" +:+ EOL])%list in
     sret (brace_line sty "int main(void)" +:+ join "" body +:+ "}" +:+ EOL))%st.

(** ** Registry *)

Definition REGISTRY : list (string * GeneratorFn) :=
  [("comment", gen_comment); ("include", gen_include);
   ("define_macro", gen_define_macro); ("define_macro_f", gen_define_macro_func);
   ("typedef", gen_typedef); ("enum", gen_enum); ("union", gen_union);
   ("struct", gen_struct); ("var_decl", gen_var_decl); ("func_decl", gen_func_decl);
   ("func_def", gen_func_def); ("switch", gen_switch);
   ("conditional", gen_conditional); ("loop", gen_loop); ("main", gen_main)].

(** [_REGISTRY[kind]]; [None] is the [KeyError] of an unregistered kind. *)
Fixpoint lookup_kind (kind : string) (reg : list (string * GeneratorFn))
  : option GeneratorFn :=
  match reg with
  | [] => None
  | (k, g) :: t => if String.eqb kind k then Some g else lookup_kind kind t
  end.

(** ** Builder *)

Definition PREAMBLE : string := "/* Auto-generated C code */" +:+ EOL +:+ EOL.

(** The [while lines < cfg.loc] loop: the state, the parts appended so far
    and the running line count. *)
Fixpoint assemble (fuel : nat) (target : Z) (kinds : list string) (ws : list Q)
    (st : State) (parts : list string) (lines : Z)
  : Result (State * list string * Z) :=
  if (lines <? target)%Z then
    match fuel with
    | 0 => OutOfFuel
    | S fuel' =>
        let (drawn, st1) := draw (choices kinds ws "") st in
        match drawn with
        | None => ValueError
        | Some kind =>
            match lookup_kind kind REGISTRY with
            | None => KeyError kind
            | Some gen =>
                let (snippet, st2) := gen st1 in
                if String.eqb snippet ""
                then assemble fuel' target kinds ws st2 parts lines
                else assemble fuel' target kinds ws st2 (parts ++ [snippet])%list
                       (lines + Z.of_nat (nl snippet))%Z
            end
        end
    end
  else Ok (st, parts, lines).

Definition initial_state (r : Rng) (sty : Style) : State :=
  mkState r sty ∅ ∅ ∅ ∅ false.

(** [build_c], up to the final join: the parts in order, and the final state. *)
Definition build_parts (fuel : nat) (cfg : CConfig) (r : Rng)
  : Result (State * list string) :=
  let (sty, r1) :=
    match style cfg with
    | auto => choice STYLE_KEYS kr r
    | fixed s => (s, r)
    end in
  let st := initial_state r1 sty in
  let parts := [PREAMBLE] in
  let lines := Z.of_nat (nl PREAMBLE) in
  match weights cfg with
  | [] => ValueError
  | _ :: _ =>
      let kinds := map fst (weights cfg) in
      let ws := map snd (weights cfg) in
      match assemble fuel (loc cfg) kinds ws st parts lines with
      | Ok (st', parts', _) =>
          if main_written st' then Ok (st', parts')
          else let (snippet, st'') := gen_main st' in Ok (st'', (parts' ++ [snippet])%list)
      | KeyError k => KeyError k
      | ValueError => ValueError
      | OutOfFuel => OutOfFuel
      end
  end.

Definition build_c (fuel : nat) (cfg : CConfig) (r : Rng) : Result string :=
  match build_parts fuel cfg r with
  | Ok (_, parts) => Ok (join "" parts)
  | KeyError k => KeyError k
  | ValueError => ValueError
  | OutOfFuel => OutOfFuel
  end.

End WithHashOrder.

(** ** The decorator and the command-line weights *)

(** [register(kind)(fn)]: the registry after the decorator ran, or the
    [ValueError] of a kind that is registered already. *)
Definition register (kind : string) (fn : GeneratorFn) (reg : list (string * GeneratorFn))
  : Result (list (string * GeneratorFn)) :=
  match lookup_kind kind reg with
  | Some _ => ValueError
  | None => Ok (reg ++ [(kind, fn)])%list
  end.

(** The decorators of a module run in source order. *)
Fixpoint register_all (decls : list (string * GeneratorFn)) (reg : list (string * GeneratorFn))
  : Result (list (string * GeneratorFn)) :=
  match decls with
  | [] => Ok reg
  | (kind, fn) :: rest =>
      match register kind fn reg with
      | Ok reg' => register_all rest reg'
      | KeyError k => KeyError k
      | ValueError => ValueError
      | OutOfFuel => OutOfFuel
      end
  end.

(** [d[k] = v] on a dictionary in insertion order: the value of a present key
    is replaced where it stands, a new key goes to the end. *)
Fixpoint dict_set (k : string) (v : Q) (d : list (string * Q)) : list (string * Q) :=
  match d with
  | [] => [(k, v)]
  | (k', v') :: t => if String.eqb k' k then (k', v) :: t else (k', v') :: dict_set k v t
  end.

(** [d[k]] *)
Fixpoint dict_get (k : string) (d : list (string * Q)) : option Q :=
  match d with
  | [] => None
  | (k', v) :: t => if String.eqb k' k then Some v else dict_get k t
  end.

Section ParseWeights.

(** [float(s)] for the texts it reads as a finite number, and [str.strip];
    [None] is the [ValueError] of [float].  Texts that [float] reads as an
    infinity or as not-a-number are outside the embedding. *)
Variable float : string -> option Q.
Variable strip : string -> string.

(** The body of the loop of [_parse_weights]: [None] is the exit with the
    syntax message, for a pair that does not split into exactly a key and a
    value at [=] or whose value [float] rejects. *)
Definition parse_pair (kv : string) (base : list (string * Q))
  : option (list (string * Q)) :=
  match split "=" kv with
  | [key; val] =>
      match float val with
      | Some v => Some (dict_set (strip key) v base)
      | None => None
      end
  | _ => None
  end.

Fixpoint parse_pairs (pairs : list string) (base : list (string * Q))
  : option (list (string * Q)) :=
  match pairs with
  | [] => Some base
  | kv :: rest =>
      match parse_pair kv base with
      | Some base' => parse_pairs rest base'
      | None => None
      end
  end.

Definition _parse_weights (arg : option string) : option (list (string * Q)) :=
  match arg with
  | None => Some default_weights
  | Some "" => Some default_weights
  | Some a => parse_pairs (split "," a) default_weights
  end.

End ParseWeights.

(** ** Two enumeration orders, and tapes

    Both orders arrange the elements of a set; they disagree as soon as a set
    has two elements, as two interpreter processes with different string-hash
    seeds do. *)

Definition hash_fwd : HashOrder :=
  mkHashOrder elements elements (fun _ => reflexivity _) (fun _ => reflexivity _).

Definition hash_bwd : HashOrder :=
  mkHashOrder (fun s => reverse (elements s)) (fun s => reverse (elements s))
    (fun s => reverse_Permutation (elements s)) (fun s => reverse_Permutation (elements s)).

(** The random source whose raw draws are [l], then zeros. *)
Definition tape_of (l : list Z) : Rng := mkRng (fun i => nth i l 0%Z) 0.

(** * Vocabulary of the properties

    The predicates, invariants and concrete inputs the statements below are
    written in. *)

(** Characters that may occur in a type name: letters and the pointer star. *)
Definition type_char (c : ascii) : bool := is_alpha c || Ascii.eqb c "*".

(** Characters that may occur in a stored parameter list. *)
Definition param_char (c : ascii) : bool :=
  type_char c || Ascii.eqb c " " || Ascii.eqb c ",".

(** Characters of a rendered integer. *)
Definition num_char (c : ascii) : bool := is_digit c || Ascii.eqb c "-".

(** Any character but the line break. *)
Definition not_lf (c : ascii) : bool := negb (Ascii.eqb c LF).

(** [sum(s.count("\n") for s in l)] *)
Definition nl_sum (l : list string) : nat := foldr (fun s n => nl s + n) 0 l.

(** Every value [g] can return, whatever the random source, satisfies [P]. *)
Definition gpost {A} (g : Gen A) (P : A -> Prop) : Prop := forall r, P (g r).1.

(** A single lower-case letter, as a string. *)
Definition is_letter (c : string) : Prop :=
  String.length c = 1 /\ str_forall is_lower c = true.

(** What [fresh_name(rng, n)] returns: [n] lower-case letters. *)
Definition name_of_length (n : nat) (s : string) : Prop :=
  str_forall is_lower s = true /\ String.length s = n.

(** What [choose_ctype(rng, extra)] returns: a base type or an extra alias,
    as it is or with the pointer star appended. *)
Definition ctype_from (extra : list string) (t : string) : Prop :=
  exists b, b ∈ (BASE_CTYPES ++ extra)%list /\ (t = b \/ t = b +:+ "*").

(** The literal rules of [random_value]: which texts are literals for a type. *)
Inductive literal_for : string -> string -> Prop :=
| lit_null t :
    endswith t "*" = true -> literal_for t "NULL"
| lit_char c :
    c ∈ LETTERS -> literal_for "char" ("'" +:+ c +:+ "'")
| lit_int v :
    (0 <= v <= 100)%Z -> literal_for "int" (str_of_Z v)
| lit_long v :
    (0 <= v <= 100)%Z -> literal_for "long" (str_of_Z v +:+ "L")
| lit_float t x :
    endswith t "*" = false -> t <> "char" -> t <> "int" -> t <> "long" ->
    (0 <= x)%Q -> (x < 100 # 1)%Q -> literal_for t (format_2f x).

(** The characters of the literals drawn for base types: digits, a sign, the
    decimal point, quotes, lower-case letters and the [L] suffix. *)
Definition literal_char (c : ascii) : bool :=
  num_char c || Ascii.eqb c "." || Ascii.eqb c "'" || is_lower c || Ascii.eqb c "L".

(** [Q] holds of the result and final state of [m] run from [s]. *)
Definition wp {A} (m : St A) (Q : A -> State -> Prop) (s : State) : Prop :=
  Q (m s).1 (m s).2.

(** The frame of a step: what a generator may do to the state besides
    drawing. *)
Record extends (s s' : State) : Prop := mkExtends {
  ext_style : st_style s' = st_style s;
  ext_typedefs : typedefs s ⊆ typedefs s';
  ext_structs : structs s ⊆ structs s';
  ext_funcs : funcs s ⊆ funcs s';
  ext_main : main_written s = true -> main_written s' = true
}.

(** A stored signature is well formed: the return type is made of letters and
    stars, the name is six lower-case letters, the parameter text has no line
    break. *)
Definition sig_ok (f : Sig) : Prop :=
  str_forall type_char f.1.1 = true /\ name_of_length 6 f.1.2 /\ nl f.2 = 0.

(** The state invariant of a run. *)
Definition wf (s : State) : Prop :=
  (forall a, a ∈ typedefs s -> str_forall is_alpha a = true) /\
  (forall f, f ∈ funcs s -> sig_ok f).

(** The entry-point fragment is the one that opens with [int main(void)]. *)
Definition is_entry (frag : string) : bool := startswith frag "int main(void)".

(** The contract of a generator other than the entry point.  [always] says
    whether the generator returns a fragment in every state. *)
Definition plain_contract (always : bool) (g : GeneratorFn) : Prop :=
  forall s, wp g (fun frag s' =>
    extends s s' /\
    main_written s' = main_written s /\
    (if always then 1 <= nl frag else frag = "" \/ 1 <= nl frag) /\
    (wf s -> wf s' /\ nl frag <= 17 /\ is_entry frag = false)) s.

(** The two states differ in the random source at most. *)
Definition rng_moved (s s' : State) : Prop := exists r, s' = set_rng r s.

(** The number of entry-point fragments among the parts of an output. *)
Definition entry_count (parts : list string) : nat :=
  foldr (fun p n => (if is_entry p then 1 else 0) + n) 0 parts.

(** The largest number of line breaks in one fragment: a [switch] of four
    cases with the brace on a line of its own. *)
Definition MAX_FRAGMENT : nat := 17.

(** The largest number of line breaks in the entry-point fragment. *)
Definition MAX_MAIN : nat := 7.

(** What one invocation of a registered generator does, from a well-formed
    state: the frame, the invariant, the size of the fragment, and the
    bookkeeping of the entry point. *)
Record unit_step (s : State) (frag : string) (s' : State) : Prop := mkUnitStep {
  us_extends : extends s s';
  us_wf : wf s';
  us_size : frag = "" \/ 1 <= nl frag <= MAX_FRAGMENT;
  us_entry :
    (is_entry frag = false /\ main_written s' = main_written s) \/
    (is_entry frag = true /\ main_written s = false /\ main_written s' = true)
}.


(** The total weight [choices] computes. *)
Definition total_weight (ws : list Q) : Q := List.last (accumulate 0%Q ws) 0%Q.

(** The weights for which [choices] raises [ValueError]: the total is not
    positive, or not finite. *)
Definition rejects_weights (ws : list Q) : bool :=
  Qle_bool (total_weight ws) 0%Q || negb (finite_sums (accumulate 0%Q ws)).

(** [sum(ws)], exactly. *)
Definition weight_sum (ws : list Q) : Q := foldr Qplus 0%Q ws.

(** A bound on the exact sum under which no rounded sum of binary64 values
    overflows. *)
Definition WEIGHT_CAP : Q := Eval vm_compute in inject_Z (10 ^ 300).

(** Weights on which binary64 rounding cannot change whether [choices]
    raises: none is negative, one is positive, and their sum stays far from
    overflow.  Sums of such values never decrease, so the total is positive
    and finite in exact and in rounded arithmetic alike. *)
Definition safe_weights (ws : list Q) : Prop :=
  Forall (fun w => (0 <= w)%Q) ws /\ Exists (fun w => (0 < w)%Q) ws /\
  (weight_sum ws <= WEIGHT_CAP)%Q.

(** The invariant of the assembly loop: the state is well formed, [lines]
    counts the line breaks of the parts, the parts hold the entry point
    exactly when the flag is set, and the count stays within one fragment of
    the target. *)
Record loop_inv (target : Z) (st : State) (parts : list string) (lines : Z) : Prop :=
  mkLoopInv {
  li_wf : wf st;
  li_lines : lines = Z.of_nat (nl_sum parts);
  li_entry : entry_count parts = if main_written st then 1 else 0;
  li_bound : (lines <= Z.max 2 (target + Z.of_nat MAX_FRAGMENT - 1))%Z
}.

(** The style a run starts with, and the random source after choosing it. *)
Definition chosen_style (cfg : CConfig) (r : Rng) : Style * Rng :=
  match style cfg with
  | auto => choice STYLE_KEYS kr r
  | fixed s => (s, r)
  end.

(** A state in which three headers have been included, and one in which all
    five have. *)
Definition state_with_headers (hs : list string) (draws : list Z) : State :=
  mkState (tape_of draws) kr ∅ ∅ ∅ (list_to_set hs) false.

(** Draws for one alias-defining unit: four letters and the base type. *)
Definition tape_typedef : Rng := tape_of [1; 21; 14; 8; 3; 0]%Z.

(** The state after one alias-defining unit, which drew the alias [void]. *)
Definition state_one_alias : State := (gen_typedef (initial_state tape_typedef kr)).2.

(** A run whose only unit is [switch]: one fragment of four cases, then the
    forced entry point with three statements. *)
Definition cfg_switch : CConfig := mkConfig 3 (fixed allman) false [("switch", 1%Q)].

(** The draw of [choices], six letters, four cases, three statements. *)
Definition tape_switch : Rng := tape_of [0; 0; 0; 0; 0; 0; 0; 2; 2]%Z.

(** The default mapping with a negative target. *)
Definition cfg_negative : CConfig := mkConfig (-20) (fixed kr) false default_weights.


(** A mapping with an unregistered key that the first draw selects. *)
Definition cfg_unknown : CConfig := mkConfig 10 (fixed kr) false [("bogus", 1%Q); ("comment", 1%Q)].

(** A mapping with an unregistered key and a negative weight whose total is
    positive; the binary search of [choices] always lands on [comment]. *)
Definition cfg_bogus : CConfig :=
  mkConfig 3 (fixed kr) false [("comment", 2 # 1); ("bogus", (-1) # 1)]%Q.

(** The state after one function declaration, [int* aaaaaa(void);]. *)
Definition state_one_func : State :=
  (gen_func_decl hash_fwd (initial_state (tape_of [0; 0; 0; 0; 0; 0; 0; 0; 0; 0; 4; 0]%Z) kr)).2.

(** The text holds a [return] statement. *)
Definition has_return (frag : string) : Prop :=
  exists pre post, frag = pre +:+ "return " +:+ post.

(** A run that declares the alias [void], a function returning it, and then
    defines that function. *)
Definition cfg_void : CConfig :=
  mkConfig 5 (fixed kr) false [("typedef", 1%Q); ("func_decl", 1%Q); ("func_def", 1%Q)].

(** Draws that spell the alias [void], pick it as a return type without the
    pointer star, and select the stored signature. *)
Definition tape_void : Rng :=
  tape_of [0; 1; 21; 14; 8; 3; 0;
           4503599627370496; 5; 4503599627370496; 0; 0; 0; 0; 0; 0; 0;
           6755399441055744; 0;
           0; 4503599627370496]%Z.

(** A run that defines two aliases and then declares a variable of the alias
    that [list(state["typedefs"])] enumerates first. *)
Definition cfg_alias : CConfig :=
  mkConfig 5 (fixed kr) false [("typedef", 1%Q); ("var_decl", 1%Q)].

(** Draws that spell the aliases [aaa] and [baa] and then pick position 5
    of [BASE_CTYPES + list(state["typedefs"])] for the variable's type. *)
Definition tape_alias : Rng :=
  tape_of [0; 0; 0; 0; 0; 0;
           0; 0; 1; 0; 0; 0;
           4503599627370496; 5; 4503599627370496; 0; 0; 0; 0; 0; 0; 4503599627370496;
           0]%Z.

(** ** Vocabulary of the further properties *)

(** What [choose_ctype] returns, with the guard of the pointer star: a base
    type or an extra alias as it is, or one that does not end with a star
    with one star appended. *)
Definition ctype_guarded (extra : list string) (t : string) : Prop :=
  exists b, b ∈ (BASE_CTYPES ++ extra)%list /\
    (t = b \/ (t = b +:+ "*" /\ endswith b "*" = false)).

(** A capitalised name: an upper-case letter, then lower-case letters. *)
Definition capitalized (s : string) : Prop :=
  exists c t, s = String c t /\ is_upper c = true /\ str_forall is_lower t = true.

(** The text of the prototype the function-declaration unit emits for a
    signature. *)
Definition prototype (f : Sig) : string :=
  f.1.1 +:+ " " +:+ f.1.2 +:+ "(" +:+ f.2 +:+ ");" +:+ EOL.

(** What a unit of a kind may do to the state: besides moving the random
    source, a declaring unit adds one element to its set, the header unit
    adds a catalog header (after clearing the set when it was exhausted), the
    entry-point unit sets its flag, and every other unit changes nothing. *)
Definition footprint (kind : string) (s s' : State) : Prop :=
  if String.eqb kind "typedef" || String.eqb kind "enum" then
    exists r a, s' = set_rng r (with_typedef a s)
  else if String.eqb kind "union" || String.eqb kind "struct" then
    exists r a, s' = set_rng r (with_struct a s)
  else if String.eqb kind "func_decl" then
    exists r f, s' = set_rng r (with_func f s)
  else if String.eqb kind "include" then
    exists r h, h ∈ HDRS /\
      (s' = set_rng r (with_header h s) \/
       s' = set_rng r (with_header h (without_headers s)))
  else if String.eqb kind "main" then
    s' = s \/ exists r, s' = set_rng r (with_main_written s)
  else rng_moved s s'.

(** The least and the largest number of line breaks of a non-empty fragment
    of a kind, for a brace style. *)
Definition fragment_lines (kind : string) (sty : Style) : nat * nat :=
  let b := if brace_same sty then 1 else 2 in
  if String.eqb kind "union" then (4, 4)
  else if String.eqb kind "struct" then (3, 5)
  else if String.eqb kind "func_def" then (b + 3, b + 3)
  else if String.eqb kind "switch" then (b + 9, b + 15)
  else if String.eqb kind "conditional" then (2 * b + 4, 2 * b + 4)
  else if String.eqb kind "loop" then (b + 2, b + 2)
  else if String.eqb kind "main" then (b + 3, b + 5)
  else (1, 1).

(** [s.count(c)] *)
Fixpoint count_char (c : ascii) (s : string) : nat :=
  match s with
  | "" => 0
  | String a t => (if Ascii.eqb a c then 1 else 0) + count_char c t
  end.

(** The header of the definition of a stored signature. *)
Definition signature_text (f : Sig) : string :=
  f.1.1 +:+ " " +:+ f.1.2 +:+ "(" +:+ f.2 +:+ ")".

(** The text of one parameter: a type, a blank and a name of six letters. *)
Definition param_text (p : string) : Prop :=
  exists t n, p = t +:+ " " +:+ n /\ str_forall type_char t = true /\ name_of_length 6 n.

(** The parameter text stored for a list of parameters. *)
Definition params_str_of (params : list string) : string :=
  if bool_decide (params = []) then "void" else join ", " params.

(** The argument text the entry point writes for a stored parameter text. *)
Definition call_args (pstr : string) : string :=
  if String.eqb pstr "void" then ""
  else join ", " (map (fun _ => "0") (split "," pstr)).

(** The part defines the alias [a]. *)
Definition defines (part a : string) : Prop :=
  exists pre, part = "typedef " +:+ pre +:+ " " +:+ a +:+ ";" +:+ EOL.

(** The configurations of the assembly: the state and the parts assembled so
    far, at any point of any run, whatever kinds the weighted draw selects. *)
Inductive reachable (hash : HashOrder) : State -> list string -> Prop :=
| reach_init r sty :
    reachable hash (initial_state r sty) [PREAMBLE]
| reach_draw st parts r :
    reachable hash st parts -> reachable hash (set_rng r st) parts
| reach_unit st parts kind g :
    reachable hash st parts ->
    lookup_kind kind (REGISTRY hash) = Some g ->
    reachable hash (g st).2
      (if String.eqb (g st).1 "" then parts else (parts ++ [(g st).1])%list).

(** What holds of every configuration of the assembly. *)
Record run_inv (st : State) (parts : list string) : Prop := mkRunInv {
  ri_wf : wf st;
  ri_declared : forall f, f ∈ funcs st -> prototype f ∈ parts;
  ri_params : forall f, f ∈ funcs st ->
    exists ps, length ps <= 2 /\ Forall param_text ps /\ f.2 = params_str_of ps;
  ri_defined : forall a, a ∈ typedefs st -> exists p, p ∈ parts /\ defines p a;
  ri_headers : forall h, h ∈ headers st -> h ∈ HDRS;
  ri_head : head parts = Some PREAMBLE;
  ri_lines : Forall (fun p => endswith p LF = true) parts
}.

(** [n] successive invocations of the header unit: the fragments in order,
    and the state after the last one. *)
Fixpoint includes (n : nat) (s : State) : list string * State :=
  match n with
  | 0 => ([], s)
  | S k =>
      let (frag, s1) := gen_include s in
      let (frags, s2) := includes k s1 in
      (frag :: frags, s2)
  end.

(** The header fragment of a header. *)
Definition include_line (h : string) : string := "#include " +:+ h +:+ EOL.

(** The keys of a dictionary extend those of [base]: the keys of [base]
    first, in their order, then new ones, all pairwise distinct. *)
Definition keys_extend (base d : list (string * Q)) : Prop :=
  exists extra, map fst d = (map fst base ++ extra)%list /\ NoDup (map fst d).

(** A reading of unsigned decimal integers, to run [_parse_weights] on
    concrete arguments. *)
Definition float_of_digits (s : string) : option Q :=
  match NilZero.uint_of_string s with
  | Some d => Some (inject_Z (Z.of_N (N.of_uint d)))
  | None => None
  end.

Section Assigned.

Variable float : string -> option Q.
Variable strip : string -> string.

(** The value the pairs assign to a key: that of the last pair for it. *)
Fixpoint assigned (pairs : list string) (k : string) : option Q :=
  match pairs with
  | [] => None
  | kv :: rest =>
      match assigned rest k with
      | Some v => Some v
      | None =>
          match split "=" kv with
          | [key; val] => if String.eqb (strip key) k then float val else None
          | _ => None
          end
      end
  end.

End Assigned.

(** Two states agree on everything but the set of structure names. *)
Record agree_but_structs (s1 s2 : State) : Prop := mkAgree {
  ag_rng : rng s1 = rng s2;
  ag_style : st_style s1 = st_style s2;
  ag_typedefs : typedefs s1 = typedefs s2;
  ag_funcs : funcs s1 = funcs s2;
  ag_headers : headers s1 = headers s2;
  ag_main : main_written s1 = main_written s2
}.

(** A computation that does not read the set of structure names: from
    states that agree on the rest it returns the same value and states that
    agree on the rest. *)
Definition oblivious {A} (m : St A) : Prop :=
  forall s1 s2, agree_but_structs s1 s2 ->
    (m s1).1 = (m s2).1 /\ agree_but_structs (m s1).2 (m s2).2.

(** * Properties *)

(** ** Strings: newline counts and character classes *)

Lemma str_app_cons (x : ascii) (a b : string) : String x a +:+ b = String x (a +:+ b).
Proof. reflexivity. Qed.

Lemma str_app_nil_l (b : string) : "" +:+ b = b.
Proof. reflexivity. Qed.

Lemma str_app_assoc (a b c : string) : (a +:+ b) +:+ c = a +:+ (b +:+ c).
Proof.
  induction a as [|x a IH]; [done |].
  by rewrite !str_app_cons, IH.
Qed.

Lemma str_app_nil_r (a : string) : a +:+ "" = a.
Proof. induction a as [|x a IH]; [done | by rewrite str_app_cons, IH]. Qed.

Lemma nl_app (a b : string) : nl (a +:+ b) = nl a + nl b.
Proof.
  induction a as [|x a IH]; [done |].
  rewrite str_app_cons. simpl. rewrite IH. lia.
Qed.

Lemma str_forall_app p (a b : string) :
  str_forall p (a +:+ b) = str_forall p a && str_forall p b.
Proof.
  induction a as [|x a IH]; [done |].
  rewrite str_app_cons. simpl. by rewrite IH, andb_assoc.
Qed.

Lemma str_forall_impl (p q : ascii -> bool) (s : string) :
  (forall c, p c = true -> q c = true) ->
  str_forall p s = true -> str_forall q s = true.
Proof.
  intros Hpq. induction s as [|c s IH]; simpl; [done |].
  intros [Hc Hs]%andb_prop. rewrite (Hpq c Hc). by apply IH.
Qed.

Lemma str_forall_map (p q : ascii -> bool) (f : ascii -> ascii) (s : string) :
  (forall c, p c = true -> q (f c) = true) ->
  str_forall p s = true -> str_forall q (str_map f s) = true.
Proof.
  intros Hf. induction s as [|c s IH]; simpl; [done |].
  intros [Hc Hs]%andb_prop. rewrite (Hf c Hc). by apply IH.
Qed.

Lemma str_map_length (f : ascii -> ascii) (s : string) :
  String.length (str_map f s) = String.length s.
Proof. induction s as [|c s IH]; simpl; [done | by rewrite IH]. Qed.

Lemma str_app_length (a b : string) :
  String.length (a +:+ b) = String.length a + String.length b.
Proof.
  induction a as [|x a IH]; [done |].
  rewrite str_app_cons. simpl. by rewrite IH.
Qed.

Ltac by_cases_on_ascii c :=
  destruct c as [[] [] [] [] [] [] [] []]; vm_compute; solve [ done | auto ].

Lemma lower_alpha c : is_lower c = true -> is_alpha c = true.
Proof. unfold is_alpha. by intros ->. Qed.
Lemma upper_alpha c : is_upper c = true -> is_alpha c = true.
Proof. unfold is_alpha. intros ->. by rewrite orb_true_r. Qed.
Lemma alpha_type_char c : is_alpha c = true -> type_char c = true.
Proof. unfold type_char. by intros ->. Qed.
Lemma type_param_char c : type_char c = true -> param_char c = true.
Proof. unfold param_char. by intros ->. Qed.
Lemma param_char_not_lf c : param_char c = true -> not_lf c = true.
Proof. by_cases_on_ascii c. Qed.
Lemma num_char_not_lf c : num_char c = true -> not_lf c = true.
Proof. by_cases_on_ascii c. Qed.
Lemma upper_char_upper c : is_lower c = true -> is_upper (upper_char c) = true.
Proof. by_cases_on_ascii c. Qed.
Lemma upper_char_alpha c : is_alpha c = true -> is_alpha (upper_char c) = true.
Proof. by_cases_on_ascii c. Qed.
Lemma lower_char_alpha c : is_alpha c = true -> is_alpha (lower_char c) = true.
Proof. by_cases_on_ascii c. Qed.

Lemma nl_not_lf (s : string) : str_forall not_lf s = true -> nl s = 0.
Proof.
  induction s as [|c s IH]; simpl; [done |].
  intros [Hc Hs]%andb_prop. unfold not_lf in Hc.
  destruct (Ascii.eqb c LF); [done | by rewrite IH].
Qed.

Lemma nl_param (s : string) : str_forall param_char s = true -> nl s = 0.
Proof. intros H. apply nl_not_lf. revert H. apply str_forall_impl, param_char_not_lf. Qed.

Lemma nl_type (s : string) : str_forall type_char s = true -> nl s = 0.
Proof. intros H. apply nl_param. revert H. apply str_forall_impl, type_param_char. Qed.

Lemma nl_alpha (s : string) : str_forall is_alpha s = true -> nl s = 0.
Proof. intros H. apply nl_type. revert H. apply str_forall_impl, alpha_type_char. Qed.

Lemma nl_lower (s : string) : str_forall is_lower s = true -> nl s = 0.
Proof. intros H. apply nl_alpha. revert H. apply str_forall_impl, lower_alpha. Qed.

Lemma upper_is_alpha (s : string) :
  str_forall is_alpha s = true -> str_forall is_alpha (upper s) = true.
Proof. apply str_forall_map, upper_char_alpha. Qed.

Lemma capitalize_is_alpha (s : string) :
  str_forall is_alpha s = true -> str_forall is_alpha (capitalize s) = true.
Proof.
  destruct s as [|c s]; simpl; [done |].
  intros [Hc Hs]%andb_prop. rewrite (upper_char_alpha c Hc). simpl.
  revert Hs. apply str_forall_map, lower_char_alpha.
Qed.

Lemma string_of_uint_digits (d : Decimal.uint) :
  str_forall is_digit (NilZero.string_of_uint d) = true.
Proof.
  assert (Hne : forall d, str_forall is_digit (NilEmpty.string_of_uint d) = true).
  { intros d'. induction d' as [|d' IH|d' IH|d' IH|d' IH|d' IH|d' IH|d' IH|d' IH|d' IH|d' IH];
      simpl; auto. }
  destruct d; simpl; auto; apply Hne.
Qed.

Lemma str_of_Z_num (z : Z) : str_forall num_char (str_of_Z z) = true.
Proof.
  unfold str_of_Z, NilZero.string_of_int.
  destruct (Z.to_int z) as [d|d]; simpl.
  - eapply str_forall_impl; [| apply string_of_uint_digits].
    intros c Hc. unfold num_char. by rewrite Hc.
  - eapply str_forall_impl; [| apply string_of_uint_digits].
    intros c Hc. unfold num_char. by rewrite Hc.
Qed.

Lemma nl_str_of_Z (z : Z) : nl (str_of_Z z) = 0.
Proof.
  apply nl_not_lf. eapply str_forall_impl; [| apply str_of_Z_num].
  apply num_char_not_lf.
Qed.

Lemma str_of_Z_nonempty (z : Z) : str_of_Z z <> "".
Proof.
  unfold str_of_Z, NilZero.string_of_int, NilZero.string_of_uint.
  destruct (Z.to_int z) as [d|d]; [| done].
  destruct d; simpl; done.
Qed.

Lemma nl_join (sep : string) (l : list string) :
  nl (join sep l) = nl_sum l + (length l - 1) * nl sep.
Proof.
  unfold join. induction l as [|x [|y l] IH]; simpl in *; [done | lia |].
  rewrite !nl_app, IH. lia.
Qed.

Lemma nl_sum_zero (l : list string) :
  Forall (fun s => nl s = 0) l -> nl_sum l = 0.
Proof. induction 1 as [|x l Hx _ IH]; simpl; [done | by rewrite Hx, IH]. Qed.

Lemma nl_sum_app (l1 l2 : list string) : nl_sum (l1 ++ l2)%list = nl_sum l1 + nl_sum l2.
Proof. induction l1 as [|x l1 IH]; simpl; [done | rewrite IH; lia]. Qed.

Lemma nl_sum_const (k : nat) (l : list string) :
  Forall (fun s => nl s = k) l -> nl_sum l = length l * k.
Proof. induction 1 as [|x l Hx _ IH]; simpl; [done | rewrite Hx, IH; lia]. Qed.

Lemma nl_join_empty (l : list string) : nl (join "" l) = nl_sum l.
Proof. rewrite nl_join. simpl. lia. Qed.

Lemma nl_str_repeat (s : string) (n : nat) : nl (str_repeat s n) = n * nl s.
Proof. induction n as [|n IH]; simpl; [done | rewrite nl_app, IH; lia]. Qed.

(** ** What the random primitives can return *)

Lemma gpost_ret {A} (a : A) (P : A -> Prop) : P a -> gpost (gret a) P.
Proof. intros Ha r. exact Ha. Qed.

Lemma gpost_bind {A B} (m : Gen A) (k : A -> Gen B) (P : A -> Prop) (Q : B -> Prop) :
  gpost m P -> (forall a, P a -> gpost (k a) Q) -> gpost (gbind m k) Q.
Proof.
  intros Hm Hk r. unfold gbind. specialize (Hm r).
  destruct (m r) as [a r']. apply (Hk a Hm).
Qed.

Lemma gpost_mono {A} (g : Gen A) (P Q : A -> Prop) :
  gpost g P -> (forall a, P a -> Q a) -> gpost g Q.
Proof. intros Hg HPQ r. apply HPQ, Hg. Qed.

Lemma gpost_randbelow (n : Z) :
  (0 < n)%Z -> gpost (randbelow n) (fun k => (0 <= k < n)%Z).
Proof. intros Hn r. unfold randbelow. simpl. by apply Z.mod_pos_bound. Qed.

Lemma gpost_randint (a b : Z) :
  (a <= b)%Z -> gpost (randint a b) (fun k => (a <= k <= b)%Z).
Proof.
  intros Hab. unfold randint.
  eapply gpost_bind; [apply gpost_randbelow; lia |].
  intros k Hk. apply gpost_ret. cbv beta in Hk. lia.
Qed.

Lemma gpost_random : gpost random (fun u => (0 <= u)%Q /\ (u < 1)%Q).
Proof.
  unfold random. eapply gpost_bind; [by apply gpost_randbelow |].
  intros k Hk. apply gpost_ret. cbv beta in Hk.
  unfold Qle, Qlt. simpl. lia.
Qed.

Lemma gpost_choice {A} (seq : list A) (dflt : A) :
  seq <> [] -> gpost (choice seq dflt) (fun x => x ∈ seq).
Proof.
  intros Hne. unfold choice.
  eapply gpost_bind; [apply gpost_randbelow; destruct seq; [done | simpl; lia] |].
  intros i Hi. apply gpost_ret. cbv beta in Hi.
  apply list_elem_of_In, nth_In. lia.
Qed.

Lemma gpost_replicateG {A} (n : nat) (m : Gen A) (P : A -> Prop) :
  gpost m P -> gpost (replicateG n m) (fun l => length l = n /\ Forall P l).
Proof.
  intros Hm. induction n as [|n IH]; simpl.
  - by apply gpost_ret.
  - eapply gpost_bind; [exact Hm |]. intros x Hx.
    eapply gpost_bind; [exact IH |]. intros xs [Hl Hxs].
    apply gpost_ret. simpl. split; [by rewrite Hl | by constructor].
Qed.

Lemma gpost_mapG {A B} (f : A -> Gen B) (xs : list A) (P : B -> Prop) :
  (forall x, gpost (f x) P) ->
  gpost (mapG f xs) (fun l => length l = length xs /\ Forall P l).
Proof.
  intros Hf. induction xs as [|x xs IH]; simpl.
  - by apply gpost_ret.
  - eapply gpost_bind; [apply Hf |]. intros y Hy.
    eapply gpost_bind; [exact IH |]. intros ys [Hl Hys].
    apply gpost_ret. simpl. split; [by rewrite Hl | by constructor].
Qed.

Lemma gpost_sample2 {A} (population : list A) (dflt : A) :
  gpost (sample2 population dflt) (fun l => length l = 2).
Proof. intros r. unfold sample2, gbind, randbelow, raw, gret. done. Qed.

(** *** Names *)

Lemma LETTERS_letters : Forall is_letter LETTERS.
Proof. unfold LETTERS. repeat constructor. Qed.

Lemma join_letters (cs : list string) :
  Forall is_letter cs ->
  str_forall is_lower (join "" cs) = true /\ String.length (join "" cs) = length cs.
Proof.
  unfold join. induction 1 as [|c [|c' cs] [Hl Hc] Hcs IH]; [done | done |].
  change (String.concat "" (c :: c' :: cs)) with (c +:+ "" +:+ String.concat "" (c' :: cs)).
  rewrite str_app_nil_l, str_forall_app, str_app_length, Hc, Hl.
  destruct IH as [-> ->]. done.
Qed.

Lemma gpost_fresh_name (n : Z) : gpost (fresh_name n) (name_of_length (Z.to_nat n)).
Proof.
  unfold fresh_name.
  eapply gpost_bind; [apply gpost_replicateG, (gpost_choice LETTERS ""); done |].
  intros cs [Hl Hcs]. apply gpost_ret.
  assert (Forall is_letter cs) as Hlet.
  { eapply Forall_impl; [exact Hcs |]. intros c Hc. simpl in Hc.
    by apply (proj1 (Forall_forall _ _) LETTERS_letters). }
  destruct (join_letters cs Hlet) as [H1 H2]. split; [done | congruence].
Qed.

Lemma name_nl n s : name_of_length n s -> nl s = 0.
Proof. intros [H _]. by apply nl_lower. Qed.

Lemma name_alpha n s : name_of_length n s -> str_forall is_alpha s = true.
Proof. intros [H _]. revert H. apply str_forall_impl, lower_alpha. Qed.

Lemma name_nonempty n s : name_of_length n s -> 0 < n -> s <> "".
Proof. intros [_ H] Hn ->. simpl in H. lia. Qed.

(** *** Types *)

Lemma BASE_CTYPES_alpha : Forall (fun b => str_forall is_alpha b = true) BASE_CTYPES.
Proof. unfold BASE_CTYPES. repeat constructor. Qed.

Lemma base_ctype_alpha b : b ∈ BASE_CTYPES -> str_forall is_alpha b = true.
Proof. intros Hb. by apply (proj1 (Forall_forall _ _) BASE_CTYPES_alpha). Qed.

Lemma gpost_choose_ctype (extra : list string) :
  gpost (choose_ctype extra) (ctype_from extra).
Proof.
  unfold choose_ctype.
  eapply gpost_bind; [apply (gpost_choice (BASE_CTYPES ++ extra)%list ""); done |].
  intros b Hb. eapply gpost_bind; [apply gpost_random |].
  intros u _. destruct (_ && _); apply gpost_ret; exists b; auto.
Qed.

Lemma ctype_from_type_char extra t :
  Forall (fun a => str_forall is_alpha a = true) extra ->
  ctype_from extra t -> str_forall type_char t = true.
Proof.
  intros Hex (b & Hb & Ht).
  assert (str_forall is_alpha b = true) as Halpha.
  { apply elem_of_app in Hb as [Hb|Hb]; [by apply base_ctype_alpha |].
    by apply (proj1 (Forall_forall _ _) Hex). }
  assert (str_forall type_char b = true) as Hty.
  { revert Halpha. apply str_forall_impl, alpha_type_char. }
  destruct Ht as [->| ->]; [done |]. by rewrite str_forall_app, Hty.
Qed.

(** *** Literals *)

Lemma gpost_uniform_0_100 :
  gpost (uniform 0 (100 # 1)) (fun x => (0 <= x)%Q /\ (x < 100 # 1)%Q).
Proof.
  unfold uniform. eapply gpost_bind; [apply gpost_random |].
  intros u [H0 H1]. apply gpost_ret.
  destruct u as [un ud]. unfold Qle, Qlt, Qplus, Qminus, Qmult, Qopp in *.
  simpl in *. split; nia.
Qed.

Lemma gpost_random_value (t : string) : gpost (random_value t) (literal_for t).
Proof.
  unfold random_value.
  destruct (endswith t "*") eqn:Hptr; [by apply gpost_ret, lit_null |].
  destruct (String.eqb_spec t "char") as [->|Hchar].
  { eapply gpost_bind; [apply (gpost_choice LETTERS ""); done |].
    intros c Hc. by apply gpost_ret, lit_char. }
  destruct (String.eqb_spec t "int") as [->|Hint].
  { simpl. eapply gpost_bind; [apply (gpost_randint 0 100); lia |].
    intros v Hv. apply gpost_ret. rewrite str_app_nil_r. by apply lit_int. }
  destruct (String.eqb_spec t "long") as [->|Hlong].
  { simpl. eapply gpost_bind; [apply (gpost_randint 0 100); lia |].
    intros v Hv. apply gpost_ret. by apply lit_long. }
  simpl. eapply gpost_bind; [apply gpost_uniform_0_100 |].
  intros x [Hx0 Hx1]. apply gpost_ret. by apply lit_float.
Qed.

Lemma nl_format_2f (x : Q) : nl (format_2f x) = 0.
Proof.
  unfold format_2f. cbv zeta. rewrite !nl_app, !nl_str_of_Z.
  by destruct (_ <? _)%Z.
Qed.

Lemma literal_nl t v : literal_for t v -> nl v = 0.
Proof.
  destruct 1 as [t _|c Hc|v _|v _|t x _ _ _ _ _ _].
  - done.
  - rewrite !nl_app.
    pose proof (proj1 (Forall_forall _ _) LETTERS_letters c Hc) as [_ Hl].
    by rewrite (nl_lower c Hl).
  - apply nl_str_of_Z.
  - by rewrite nl_app, nl_str_of_Z.
  - apply nl_format_2f.
Qed.

Lemma num_literal_char c : num_char c = true -> literal_char c = true.
Proof. unfold literal_char. by intros ->. Qed.
Lemma lower_literal_char c : is_lower c = true -> literal_char c = true.
Proof. by_cases_on_ascii c. Qed.

Lemma str_of_Z_literal_chars z : str_forall literal_char (str_of_Z z) = true.
Proof. eapply str_forall_impl; [apply num_literal_char | apply str_of_Z_num]. Qed.

Lemma literal_base_chars t v :
  t ∈ BASE_CTYPES -> literal_for t v -> str_forall literal_char v = true.
Proof.
  intros Ht Hv. destruct Hv as [t Hp|c Hc|v Hv|v Hv|t x _ _ _ _ _ _].
  - exfalso. unfold BASE_CTYPES in Ht.
    repeat (apply elem_of_cons in Ht as [->|Ht]; [done |]).
    by apply elem_of_nil in Ht.
  - pose proof (proj1 (Forall_forall _ _) LETTERS_letters c Hc) as [_ Hl].
    rewrite !str_forall_app.
    by rewrite (str_forall_impl _ _ _ lower_literal_char Hl).
  - apply str_of_Z_literal_chars.
  - by rewrite str_forall_app, str_of_Z_literal_chars.
  - unfold format_2f. cbv zeta.
    rewrite !str_forall_app, !str_of_Z_literal_chars.
    by destruct (_ <? _)%Z.
Qed.

(** A literal drawn for a base type is never the null literal. *)
Lemma literal_base_not_null t v :
  t ∈ BASE_CTYPES -> literal_for t v -> v <> "NULL".
Proof. intros Ht Hv ->. by pose proof (literal_base_chars _ _ Ht Hv). Qed.

(** ** Reasoning about computations over the state *)

Lemma wp_ret {A} (a : A) (Q : A -> State -> Prop) s : Q a s -> wp (sret a) Q s.
Proof. done. Qed.

Lemma wp_bind {A B} (m : St A) (k : A -> St B) (Q : B -> State -> Prop) s :
  wp m (fun a s' => wp (k a) Q s') s -> wp (sbind m k) Q s.
Proof. unfold wp, sbind. by destruct (m s). Qed.

Lemma wp_mono {A} (m : St A) (Q Q' : A -> State -> Prop) s :
  wp m Q s -> (forall a s', Q a s' -> Q' a s') -> wp m Q' s.
Proof. unfold wp. auto. Qed.

Lemma wp_draw {A} (g : Gen A) (P : A -> Prop) (Q : A -> State -> Prop) s :
  gpost g P -> (forall a r, P a -> Q a (set_rng r s)) -> wp (draw g) Q s.
Proof.
  intros Hg HQ. unfold wp, draw. specialize (Hg (rng s)).
  destruct (g (rng s)) as [a r]. by apply HQ.
Qed.

Lemma wp_get {A} (f : State -> A) (Q : A -> State -> Prop) s :
  Q (f s) s -> wp (get f) Q s.
Proof. done. Qed.

Lemma extends_refl s : extends s s.
Proof. by constructor. Qed.

Lemma extends_trans s1 s2 s3 : extends s1 s2 -> extends s2 s3 -> extends s1 s3.
Proof.
  intros [] []. constructor; [congruence | set_solver | set_solver | set_solver | auto].
Qed.

Lemma wf_initial r sty : wf (initial_state r sty).
Proof. split; intros x Hx; simpl in Hx; set_solver. Qed.

Lemma wf_set_rng r s : wf s -> wf (set_rng r s).
Proof. done. Qed.

Lemma nl_brace_line sty header :
  nl (brace_line sty header) = nl header + (if brace_same sty then 1 else 2).
Proof. unfold brace_line. destruct (brace_same sty); rewrite !nl_app; simpl; lia. Qed.

Lemma nl_positive_nonempty (s : string) : 1 <= nl s -> s <> "".
Proof. intros H ->. simpl in H. lia. Qed.

Lemma elem_of_list_of_strs (h : HashOrder) (s : gset string) (x : string) :
  x ∈ list_of_strs h s <-> x ∈ s.
Proof. by rewrite (list_of_strs_perm h s), elem_of_elements. Qed.

Lemma elem_of_list_of_sigs (h : HashOrder) (s : gset Sig) (x : Sig) :
  x ∈ list_of_sigs h s <-> x ∈ s.
Proof. by rewrite (list_of_sigs_perm h s), elem_of_elements. Qed.

Lemma list_of_sigs_nonempty (h : HashOrder) (s : gset Sig) :
  s <> ∅ -> list_of_sigs h s <> [].
Proof.
  intros Hne Hnil. apply Hne. apply set_eq. intros x.
  rewrite <- (elem_of_list_of_sigs h), Hnil. set_solver.
Qed.

Lemma typedefs_listed_alpha (h : HashOrder) s :
  wf s -> Forall (fun a => str_forall is_alpha a = true) (list_of_strs h (typedefs s)).
Proof.
  intros [Ht _]. apply Forall_forall. intros a Ha. by apply Ht, (elem_of_list_of_strs h).
Qed.

Lemma wp_modify (f : State -> State) (Q : unit -> State -> Prop) s :
  Q tt (f s) -> wp (modify f) Q s.
Proof. done. Qed.

Tactic Notation "wp_draw" uconstr(lem) "as" ident(x) ident(H) :=
  apply wp_bind; eapply wp_draw;
  [ apply lem; first [ done | lia | simpl; lia ] | intros x ? H; cbv beta in H ].
Ltac wp_read := apply wp_bind, wp_get; cbv zeta.
Ltac wp_write := apply wp_bind, wp_modify; cbv zeta.
(** ** Contracts of the generators *)

Lemma TAGS_plain tag rest :
  tag ∈ TAGS -> nl tag = 0 /\ is_entry (tag +:+ rest) = false.
Proof.
  unfold TAGS. intros H.
  repeat (apply elem_of_cons in H as [->|H]; [done |]).
  by apply elem_of_nil in H.
Qed.

Lemma HDRS_plain h : h ∈ HDRS -> nl h = 0.
Proof.
  unfold HDRS. intros H.
  repeat (apply elem_of_cons in H as [->|H]; [done |]).
  by apply elem_of_nil in H.
Qed.

Lemma base_ctype_nl b : b ∈ BASE_CTYPES -> nl b = 0.
Proof. intros Hb. by apply nl_alpha, base_ctype_alpha. Qed.

Lemma nl_upper_name n s : name_of_length n s -> nl (upper s) = 0.
Proof. intros H. by apply nl_alpha, upper_is_alpha, (name_alpha n). Qed.

Lemma nl_capitalize_name n s : name_of_length n s -> nl (capitalize s) = 0.
Proof. intros H. by apply nl_alpha, capitalize_is_alpha, (name_alpha n). Qed.

Lemma wf_with_typedef a s :
  str_forall is_alpha a = true -> wf s -> wf (with_typedef a s).
Proof.
  intros Ha [Ht Hf]. split; [| done].
  intros x [Hx| ->%elem_of_singleton]%elem_of_union; auto.
Qed.

Lemma wf_with_func f s : sig_ok f -> wf s -> wf (with_func f s).
Proof.
  intros Hok [Ht Hf]. split; [done |].
  intros x [Hx| ->%elem_of_singleton]%elem_of_union; auto.
Qed.

Lemma extends_with_typedef a s0 s : extends s0 s -> extends s0 (with_typedef a s).
Proof. intros []. constructor; simpl; [done | set_solver | done | done | done]. Qed.
Lemma extends_with_struct a s0 s : extends s0 s -> extends s0 (with_struct a s).
Proof. intros []. constructor; simpl; [done | done | set_solver | done | done]. Qed.
Lemma extends_with_func f s0 s : extends s0 s -> extends s0 (with_func f s).
Proof. intros []. constructor; simpl; [done | done | done | set_solver | done]. Qed.
Lemma extends_with_header h s0 s : extends s0 s -> extends s0 (with_header h s).
Proof. by intros []. Qed.
Lemma extends_without_headers s0 s : extends s0 s -> extends s0 (without_headers s).
Proof. by intros []. Qed.
Lemma extends_set_rng r s0 s : extends s0 s -> extends s0 (set_rng r s).
Proof. by intros []. Qed.

Create HintDb frame discriminated.
#[local] Hint Resolve extends_refl extends_with_typedef extends_with_struct
  extends_with_func extends_with_header extends_without_headers extends_set_rng : frame.

Lemma length_range (k : Z) : length (range k) = Z.to_nat k.
Proof. unfold range. by rewrite length_map, length_seq. Qed.

Lemma nl_indent_of sty : nl (indent_of sty) = 0.
Proof. by destruct sty. Qed.

(** Settles a closed decidable proposition by evaluation. *)
Ltac by_decide := apply (bool_decide_unpack _); vm_compute; exact I.

(** Reduces the projections of an updated state. *)
Ltac st_simpl :=
  cbn [st_style funcs typedefs structs headers main_written rng set_rng with_typedef
       with_struct with_func with_header without_headers with_main_written] in *.

(** Rewrites a newline count into a sum over the pieces of the text. *)
Ltac nl_count :=
  repeat progress
    (repeat first [ rewrite nl_app | rewrite nl_brace_line | rewrite nl_join
                  | rewrite nl_sum_app | rewrite nl_str_repeat | rewrite nl_str_of_Z
                  | rewrite nl_indent_of ];
     repeat match goal with
            | H : nl ?x = _ |- context [nl ?x] => rewrite H
            | H : name_of_length _ ?x |- context [nl ?x] => rewrite (name_nl _ _ H)
            | H : name_of_length _ ?x |- context [nl (upper ?x)] =>
                rewrite (nl_upper_name _ _ H)
            | H : name_of_length _ ?x |- context [nl (capitalize ?x)] =>
                rewrite (nl_capitalize_name _ _ H)
            | H : ?x ∈ BASE_CTYPES |- context [nl ?x] => rewrite (base_ctype_nl _ H)
            end;
     simpl).
Ltac nl_lia := nl_count; try destruct (brace_same _); lia.

Lemma gen_comment_contract : plain_contract true gen_comment.
Proof.
  intros s. unfold gen_comment.
  wp_draw (gpost_choice TAGS "") as tag Htag.
  wp_draw (gpost_randint 3 8) as n Hn.
  wp_draw gpost_fresh_name as name Hname.
  apply wp_ret.
  destruct (TAGS_plain tag (": " +:+ name +:+ EOL) Htag) as [Ht He].
  split_and!; [auto with frame | done | nl_lia |].
  intros Hwf. split_and!; [done | nl_lia | done].
Qed.

Lemma gen_define_macro_contract : plain_contract true gen_define_macro.
Proof.
  intros s. unfold gen_define_macro.
  wp_draw gpost_fresh_name as name Hname. cbv zeta.
  wp_draw (gpost_randint 1 100) as v Hv.
  apply wp_ret.
  split_and!; [auto with frame | done | nl_lia |].
  intros Hwf. split_and!; [done | nl_lia | done].
Qed.

Lemma gen_define_macro_func_contract : plain_contract true gen_define_macro_func.
Proof.
  intros s. unfold gen_define_macro_func.
  wp_draw gpost_fresh_name as name Hname. cbv zeta.
  wp_draw gpost_fresh_name as param Hparam.
  apply wp_ret.
  split_and!; [auto with frame | done | nl_lia |].
  intros Hwf. split_and!; [done | nl_lia | done].
Qed.

Lemma gen_typedef_contract : plain_contract true gen_typedef.
Proof.
  intros s. unfold gen_typedef.
  wp_draw (gpost_randint 3 6) as n Hn.
  wp_draw gpost_fresh_name as alias Halias.
  wp_write.
  wp_draw (gpost_choice BASE_CTYPES "") as base Hbase.
  apply wp_ret.
  split_and!; [auto 10 with frame | done | nl_lia |].
  intros Hwf. split_and!; [| nl_lia | done].
  apply wf_set_rng, wf_with_typedef; [by eapply name_alpha | done].
Qed.

Lemma gpost_sample2_in {A} (population : list A) (dflt : A) :
  2 <= length population ->
  gpost (sample2 population dflt) (fun l => length l = 2 /\ Forall (fun x => x ∈ population) l).
Proof.
  intros Hlen. unfold sample2. cbv zeta.
  eapply gpost_bind; [apply gpost_randbelow; lia |]. intros j Hj. cbv beta in Hj.
  eapply gpost_bind; [apply gpost_randbelow; lia |]. intros j' Hj'. cbv beta in Hj'.
  apply gpost_ret. split; [done |].
  assert (forall i, i < length population -> nth i population dflt ∈ population) as Hnth.
  { intros i Hi. by apply list_elem_of_In, nth_In. }
  constructor; [| constructor; [| constructor]].
  - apply Hnth. lia.
  - set (pool := <[_ := _]> population).
    assert (Z.to_nat j' < length pool) as Hlt by (unfold pool; rewrite length_insert; lia).
    pose proof (nth_lookup_or_length pool (Z.to_nat j') dflt) as [Hl|?]; [| lia].
    generalize dependent (nth (Z.to_nat j') pool dflt). intros x Hl.
    unfold pool in Hl. apply list_lookup_insert_Some in Hl as [(_ & <- & _)|[_ Hl]].
    + apply Hnth. lia.
    + by eapply list_elem_of_lookup_2.
Qed.

Lemma nl_sum_map_zero {A} (f : A -> string) (l : list A) :
  (forall x, nl (f x) = 0) -> nl_sum (map f l) = 0.
Proof. intros Hf. apply nl_sum_zero, Forall_map, Forall_forall. auto. Qed.

Lemma nl_sum_map_const {A} (k : nat) (f : A -> string) (l : list A) :
  (forall x, nl (f x) = k) -> nl_sum (map f l) = length l * k.
Proof.
  intros Hf. rewrite (nl_sum_const k), length_map; [done |].
  apply Forall_map, Forall_forall. auto.
Qed.

Lemma gen_include_contract : plain_contract true gen_include.
Proof.
  intros s. unfold gen_include.
  wp_read. apply wp_bind.
  set (available := filter _ HDRS).
  assert (forall h, h ∈ available -> h ∈ HDRS) as Hsub.
  { intros h Hh. by apply list_elem_of_filter in Hh as [_ ?]. }
  case_bool_decide as Hav.
  - wp_write. apply wp_ret.
    wp_draw (gpost_choice HDRS "") as hdr Hhdr.
    wp_write. apply wp_ret.
    pose proof (HDRS_plain _ Hhdr).
    split_and!; [auto 10 with frame | done | nl_lia |].
    intros Hwf. split_and!; [done | nl_lia | done].
  - apply wp_ret.
    wp_draw (gpost_choice available "") as hdr Hhdr.
    wp_write. apply wp_ret.
    pose proof (HDRS_plain _ (Hsub _ Hhdr)).
    split_and!; [auto 10 with frame | done | nl_lia |].
    intros Hwf. split_and!; [done | nl_lia | done].
Qed.

Lemma gen_enum_contract : plain_contract true gen_enum.
Proof.
  intros s. unfold gen_enum.
  wp_draw (gpost_randint 3 6) as n Hn.
  wp_draw gpost_fresh_name as name Hname. cbv zeta.
  wp_draw (gpost_randint 2 4) as k Hk.
  wp_write. apply wp_ret.
  assert (nl_sum (map (fun i => upper (capitalize name) +:+ "_" +:+ str_of_Z i) (range k)) = 0)
    as Hitems.
  { apply nl_sum_map_zero. intros i. rewrite !nl_app, nl_str_of_Z.
    rewrite (nl_alpha (upper _)); [done |].
    by eapply upper_is_alpha, capitalize_is_alpha, name_alpha. }
  split_and!; [auto 10 with frame | done | nl_lia |].
  intros Hwf. split_and!; [| nl_count; rewrite Hitems; lia | done].
  apply wf_with_typedef; [| done]. by eapply capitalize_is_alpha, name_alpha.
Qed.

Lemma gpost_union_field t :
  nl t = 0 -> gpost (union_field t) (fun f => nl f = 0).
Proof.
  intros Ht. unfold union_field.
  eapply gpost_bind; [apply gpost_fresh_name |]. intros f Hf.
  apply gpost_ret. nl_count. done.
Qed.

Lemma gpost_mapG_in {A B} (f : A -> Gen B) (xs : list A) (R : A -> Prop) (P : B -> Prop) :
  Forall R xs -> (forall x, R x -> gpost (f x) P) ->
  gpost (mapG f xs) (fun l => length l = length xs /\ Forall P l).
Proof.
  intros Hxs Hf. induction Hxs as [|x xs Hx _ IH]; simpl.
  - by apply gpost_ret.
  - eapply gpost_bind; [by apply Hf |]. intros y Hy.
    eapply gpost_bind; [exact IH |]. intros ys [Hl Hys].
    apply gpost_ret. simpl. split; [by rewrite Hl | by constructor].
Qed.

Lemma gen_union_contract : plain_contract true gen_union.
Proof.
  intros s. unfold gen_union.
  wp_draw (gpost_randint 3 6) as n Hn.
  wp_draw gpost_fresh_name as name Hname. cbv zeta.
  wp_draw (gpost_sample2_in BASE_CTYPES "") as ts Hts.
  destruct Hts as [Hlen Hts].
  apply wp_bind. eapply wp_draw.
  { apply (gpost_mapG_in union_field ts (fun t => nl t = 0) (fun f => nl f = 0)).
    - eapply Forall_impl; [exact Hts |]. intros t Ht. by apply base_ctype_nl.
    - apply gpost_union_field. }
  intros fields ? [Hfl Hfields]. rewrite Hlen in Hfl.
  wp_write. apply wp_ret.
  pose proof (nl_sum_zero _ Hfields) as Hsum.
  split_and!; [auto 10 with frame | done | nl_lia |].
  intros Hwf. split_and!; [done | nl_count; rewrite Hsum, Hfl; lia | done].
Qed.

Lemma gpost_struct_line : gpost struct_line (fun f => nl f = 0).
Proof.
  unfold struct_line.
  eapply gpost_bind; [apply (gpost_choice BASE_CTYPES ""); done |]. intros t Ht.
  eapply gpost_bind; [apply (gpost_randint 3 6); lia |]. intros n Hn.
  eapply gpost_bind; [apply gpost_fresh_name |]. intros f Hf.
  apply gpost_ret. cbv beta in Ht. nl_count. done.
Qed.

Lemma gen_struct_contract : plain_contract true gen_struct.
Proof.
  intros s. unfold gen_struct.
  wp_draw (gpost_randint 3 6) as n Hn.
  wp_draw gpost_fresh_name as name Hname. cbv zeta.
  wp_draw (gpost_randint 1 3) as k Hk.
  apply wp_bind. eapply wp_draw; [apply gpost_replicateG, gpost_struct_line |].
  intros lines ? [Hlen Hlines].
  wp_write. apply wp_ret.
  pose proof (nl_sum_zero _ Hlines) as Hsum.
  split_and!; [auto 10 with frame | done | nl_lia |].
  intros Hwf. split_and!; [done | nl_count; rewrite Hsum, Hlen; lia | done].
Qed.

Lemma nl_switch_case indent var i :
  nl indent = 0 -> nl var = 0 -> nl (switch_case indent var i) = 3.
Proof. intros Hi Hv. unfold switch_case. nl_count. lia. Qed.

(** A braced fragment whose header opens with other text than the entry
    point's is settled by comparing the first characters. *)
Ltac not_entry := unfold is_entry, brace_line; try destruct (brace_same _); reflexivity.

Lemma gen_switch_contract : plain_contract true gen_switch.
Proof.
  intros s. unfold gen_switch.
  wp_draw gpost_fresh_name as var Hvar.
  wp_read.
  wp_draw (gpost_randint 2 4) as k Hk. cbv zeta.
  apply wp_ret. st_simpl.
  assert (nl_sum (map (switch_case (indent_of (st_style s)) var) (range k))
          = Z.to_nat k * 3) as Hcases.
  { rewrite (nl_sum_map_const 3), length_range; [done |].
    intros i. apply nl_switch_case; [apply nl_indent_of | by eapply name_nl]. }
  split_and!; [auto 10 with frame | done | nl_lia |].
  intros Hwf. split_and!; [done | | not_entry].
  nl_count. rewrite Hcases. destruct (brace_same _); lia.
Qed.

Lemma gen_conditional_contract : plain_contract true gen_conditional.
Proof.
  intros s. unfold gen_conditional.
  wp_draw gpost_fresh_name as var Hvar.
  wp_draw (gpost_randint 0 10) as cmp_val Hcmp.
  wp_read. apply wp_ret.
  split_and!; [auto 10 with frame | done | nl_lia |].
  intros Hwf. split_and!; [done | |].
  - nl_lia.
  - not_entry.
Qed.

Lemma gen_loop_contract : plain_contract true gen_loop.
Proof.
  intros s. unfold gen_loop.
  wp_draw gpost_fresh_name as var Hvar.
  wp_read.
  wp_draw (gpost_randint 1 5) as bound Hbound.
  apply wp_ret.
  split_and!; [auto 10 with frame | done | nl_lia |].
  intros Hwf. split_and!; [done | | not_entry].
  nl_lia.
Qed.

(** A declaration [t name ...] never opens like the entry point: a type has
    no blank, so [t] would be [int], and a six-letter name cannot be followed
    by a parenthesis after four letters. *)
Lemma decl_not_entry (t n rest : string) :
  str_forall type_char t = true -> name_of_length 6 n ->
  is_entry (t +:+ " " +:+ n +:+ rest) = false.
Proof.
  intros Ht [Hn Hlen]. unfold is_entry.
  destruct n as [|n1 [|n2 [|n3 [|n4 [|n5 [|n6 [|]]]]]]]; try discriminate Hlen.
  destruct t as [|c1 [|c2 [|c3 [|c4 t]]]];
    rewrite ?str_app_cons, ?str_app_nil_l; cbn [startswith];
    repeat match goal with
           | |- context [Ascii.eqb ?c ?d] =>
               is_var c; destruct (Ascii.eqb_spec c d) as [->|]
           end;
    try reflexivity.
  - exfalso. simpl in Hn. discriminate Hn.
  - exfalso. simpl in Ht. discriminate Ht.
Qed.

Section Contracts.

Variable hash : HashOrder.

Lemma ctype_nl s t :
  wf s -> ctype_from (list_of_strs hash (typedefs s)) t -> str_forall type_char t = true.
Proof. intros Hwf. apply ctype_from_type_char. by apply typedefs_listed_alpha. Qed.

Lemma var_decl_text (ctype name init : string) :
  name_of_length 6 name ->
  1 <= nl (ctype +:+ " " +:+ name +:+ init +:+ ";" +:+ EOL) /\
  (str_forall type_char ctype = true -> nl init = 0 ->
   nl (ctype +:+ " " +:+ name +:+ init +:+ ";" +:+ EOL) <= 17 /\
   is_entry (ctype +:+ " " +:+ name +:+ init +:+ ";" +:+ EOL) = false).
Proof.
  intros Hname. split; [nl_lia |].
  intros Ht Hi. pose proof (nl_type _ Ht). split; [nl_lia | by apply decl_not_entry].
Qed.

Lemma gen_var_decl_contract : plain_contract true (gen_var_decl hash).
Proof.
  intros s. unfold gen_var_decl.
  wp_read.
  wp_draw (gpost_choose_ctype _) as ctype Hctype.
  wp_draw gpost_fresh_name as name Hname.
  apply wp_bind.
  destruct (endswith ctype "*"); cbn [negb].
  - do 2 apply wp_ret.
    destruct (var_decl_text ctype name "" Hname) as [H1 H2].
    split_and!; [auto 10 with frame | done | done |].
    intros Hwf. split; [done |]. apply H2; [by eapply ctype_nl | done].
  - wp_draw gpost_random as u Hu.
    destruct (Qltb u (1 # 2)).
    + wp_draw (gpost_choice BASE_CTYPES "") as t Ht.
      wp_draw (gpost_random_value t) as v Hv.
      do 2 apply wp_ret.
      destruct (var_decl_text ctype name (" = " +:+ v) Hname) as [H1 H2].
      split_and!; [auto 10 with frame | done | done |].
      intros Hwf. split; [done |]. apply H2; [by eapply ctype_nl |].
      rewrite nl_app, (literal_nl _ _ Hv). done.
    + do 2 apply wp_ret.
      destruct (var_decl_text ctype name "" Hname) as [H1 H2].
      split_and!; [auto 10 with frame | done | done |].
      intros Hwf. split; [done |]. apply H2; [by eapply ctype_nl | done].
Qed.

Lemma gpost_func_param (extra : list string) :
  gpost (func_param extra)
    (fun p => Forall (fun a => str_forall is_alpha a = true) extra -> nl p = 0).
Proof.
  unfold func_param.
  eapply gpost_bind; [apply gpost_choose_ctype |]. intros t Ht.
  eapply gpost_bind; [apply gpost_fresh_name |]. intros n Hn.
  apply gpost_ret. intros Hex.
  pose proof (nl_type _ (ctype_from_type_char _ _ Hex Ht)). nl_count. done.
Qed.

Lemma nl_params_str (params : list string) :
  Forall (fun p => nl p = 0) params ->
  nl (if bool_decide (params = []) then "void" else join ", " params) = 0.
Proof.
  intros Hp. case_bool_decide; [done |].
  rewrite nl_join, (nl_sum_zero _ Hp). simpl. lia.
Qed.

Lemma gen_func_decl_contract : plain_contract true (gen_func_decl hash).
Proof.
  intros s. unfold gen_func_decl.
  wp_read.
  wp_draw (gpost_choose_ctype _) as ret Hret.
  wp_draw gpost_fresh_name as name Hname.
  wp_draw (gpost_randint 0 2) as k Hk.
  apply wp_bind. eapply wp_draw; [apply gpost_replicateG, gpost_func_param |].
  intros params ? [Hlen Hparams]. cbv zeta.
  wp_write. apply wp_ret.
  split_and!; [auto 10 with frame | done | nl_lia |].
  intros Hwf.
  pose proof (ctype_nl _ _ Hwf Hret) as Hty. pose proof (nl_type _ Hty) as Hnl.
  assert (nl (if bool_decide (params = []) then "void" else join ", " params) = 0) as Hps.
  { apply nl_params_str. eapply Forall_impl; [exact Hparams |].
    intros p Hp. apply Hp. by apply typedefs_listed_alpha. }
  split_and!.
  - by apply wf_with_func.
  - rewrite !nl_app, Hps, Hnl, (name_nl _ _ Hname). simpl. lia.
  - by apply decl_not_entry.
Qed.

Lemma func_def_text sty (ret name params body : string) :
  str_forall type_char ret = true -> name_of_length 6 name -> nl params = 0 ->
  nl body = 1 ->
  nl (brace_line sty (ret +:+ " " +:+ name +:+ "(" +:+ params +:+ ")")
      +:+ body +:+ "}" +:+ EOL +:+ EOL) <= 17 /\
  is_entry (brace_line sty (ret +:+ " " +:+ name +:+ "(" +:+ params +:+ ")")
            +:+ body +:+ "}" +:+ EOL +:+ EOL) = false.
Proof.
  intros Hret Hname Hparams Hbody. pose proof (nl_type _ Hret). split; [nl_lia |].
  unfold brace_line. destruct (brace_same sty);
    rewrite !str_app_assoc; by apply decl_not_entry.
Qed.

Lemma gen_func_def_contract : plain_contract false (gen_func_def hash).
Proof.
  intros s. unfold gen_func_def.
  wp_read. case_bool_decide as Hfs.
  { apply wp_ret. split_and!; [auto with frame | done | by left |].
    intros Hwf. split_and!; [done | simpl; lia | done]. }
  apply wp_bind. eapply wp_draw.
  { apply (gpost_choice (list_of_sigs hash (funcs s)) NO_SIG).
    by apply list_of_sigs_nonempty. }
  intros [[ret name] params] ? Hin%elem_of_list_of_sigs.
  wp_read. apply wp_bind.
  destruct (String.eqb ret "void").
  - do 2 apply wp_ret.
    split_and!; [auto 10 with frame | done | right; nl_lia |].
    intros Hwf. destruct (proj2 Hwf _ Hin) as (Hr & Hn & Hp). simpl in Hr, Hn, Hp.
    split; [done |]. apply func_def_text; [done .. |]. nl_lia.
  - wp_draw (gpost_choice BASE_CTYPES "") as t Ht.
    wp_draw (gpost_random_value t) as v Hv.
    do 2 apply wp_ret.
    split_and!; [auto 10 with frame | done | right; nl_lia |].
    intros Hwf. destruct (proj2 Hwf _ Hin) as (Hr & Hn & Hp). simpl in Hr, Hn, Hp.
    split; [done |]. apply func_def_text; [done .. |].
    rewrite !nl_app, (literal_nl _ _ Hv), nl_indent_of. done.
Qed.

Lemma wp_replicateS {A} (n : nat) (m : St A) (I : State -> Prop) (P : A -> Prop) s :
  (forall s, I s -> wp m (fun a s' => P a /\ I s') s) -> I s ->
  wp (replicateS n m) (fun l s' => length l = n /\ Forall P l /\ I s') s.
Proof.
  intros Hm. revert s. induction n as [|n IH]; intros s Hs; simpl.
  - by apply wp_ret.
  - apply wp_bind. eapply wp_mono; [by apply Hm |].
    intros x s1 [Hx Hs1]. apply wp_bind. eapply wp_mono; [by apply IH |].
    intros xs s2 (Hl & Hxs & Hs2). apply wp_ret.
    simpl. split_and!; [by rewrite Hl | by constructor | done].
Qed.

Lemma rng_moved_refl s : rng_moved s s.
Proof. exists (rng s). by destruct s. Qed.

Lemma main_stmt_spec indent s :
  wp (main_stmt hash indent) (fun x s' =>
    rng_moved s s' /\ 1 <= nl x /\ (wf s -> nl indent = 0 -> nl x = 1)) s.
Proof.
  unfold main_stmt. wp_read. apply wp_bind.
  assert (forall s', rng_moved s s' ->
            wp (sret (indent +:+ "printf(" +:+ String DQ "Hello, world!\n" +:+ String DQ ");"
                      +:+ EOL))
              (fun x s'' => rng_moved s s'' /\ 1 <= nl x /\ (wf s -> nl indent = 0 -> nl x = 1)) s')
    as Hgreet.
  { intros s' Hs'. apply wp_ret. split_and!; [done | nl_lia |]. intros _ Hi. nl_lia. }
  case_bool_decide as Hfs.
  { apply wp_ret. apply Hgreet, rng_moved_refl. }
  wp_draw gpost_random as u Hu. apply wp_ret.
  destruct (Qltb u (1 # 2)); [| apply Hgreet; by eexists].
  apply wp_bind. eapply wp_draw.
  { apply (gpost_choice (list_of_sigs hash (funcs s)) NO_SIG).
    by apply list_of_sigs_nonempty. }
  intros [[ret fname] pstr] ? Hin%elem_of_list_of_sigs. cbv zeta.
  apply wp_ret. split_and!; [by eexists | nl_lia |].
  intros Hwf Hi. destruct (proj2 Hwf _ Hin) as (_ & Hn & _). simpl in Hn.
  assert (nl (if String.eqb pstr "void" then ""
              else join ", " (map (fun _ => "0") (split "," pstr))) = 0) as Hargs.
  { destruct (String.eqb pstr "void"); [done |].
    rewrite nl_join, nl_sum_map_zero; [simpl; lia | done]. }
  rewrite !nl_app, Hargs, Hi, (name_nl _ _ Hn). done.
Qed.

Lemma gen_main_contract s :
  wp (gen_main hash) (fun frag s' =>
    extends s s' /\ main_written s' = true /\ (wf s -> wf s') /\
    (if main_written s then frag = "" /\ s' = s
     else is_entry frag = true /\ 4 <= nl frag /\ (wf s -> nl frag <= 7))) s.
Proof.
  unfold gen_main. wp_read.
  destruct (main_written s) eqn:Hw.
  { apply wp_ret. split_and!; auto with frame. }
  wp_write. wp_read.
  wp_draw (gpost_randint 1 3) as k Hk.
  apply wp_bind. eapply wp_mono.
  { apply (wp_replicateS _ _ (rng_moved (with_main_written s))
             (fun x => 1 <= nl x /\ (wf s -> nl x = 1))); [| by eexists].
    intros s1 Hs1. eapply wp_mono; [apply main_stmt_spec |].
    intros x s2 ([r2 ->] & Hx1 & Hx2). destruct Hs1 as [r1 ->].
    split_and!; [done | | by eexists].
    intros Hwf. apply Hx2; [done | apply nl_indent_of]. }
  intros body s' (Hlen & Hbody & [r' ->]). cbv zeta. apply wp_ret.
  do 3 (split; [by auto 10 with frame |]).
  assert (Z.to_nat k <= nl_sum body) as Hlow.
  { rewrite <- Hlen. clear Hlen. induction Hbody as [|x l [Hx _] _ IH]; simpl; lia. }
  split_and!.
  - unfold is_entry, brace_line. by destruct (brace_same _).
  - nl_lia.
  - intros Hwf.
    assert (nl_sum body = Z.to_nat k) as Hsum.
    { rewrite <- Hlen, (nl_sum_const 1); [lia |].
      eapply Forall_impl; [exact Hbody |]. intros x [_ Hx]. by apply Hx. }
    nl_lia.
Qed.

End Contracts.

(** ** The registry *)

Lemma entry_count_app (l1 l2 : list string) :
  entry_count (l1 ++ l2)%list = entry_count l1 + entry_count l2.
Proof. induction l1 as [|x l1 IH]; simpl; [done | rewrite IH; lia]. Qed.

Section Run.

Variable hash : HashOrder.

Lemma registry_contract kind g :
  lookup_kind kind (REGISTRY hash) = Some g ->
  (kind = "main" /\ g = gen_main hash) \/
  (kind <> "main" /\ plain_contract (negb (String.eqb kind "func_def")) g).
Proof.
  unfold REGISTRY. cbn [lookup_kind].
  repeat match goal with
         | |- context [String.eqb kind ?k] =>
             destruct (String.eqb_spec kind k) as [->|?];
             [intros [= <-]; first [ left; done | right; split; [done |]; cbn [negb String.eqb] ] |]
         end; try done.
  - apply gen_comment_contract.
  - apply gen_include_contract.
  - apply gen_define_macro_contract.
  - apply gen_define_macro_func_contract.
  - apply gen_typedef_contract.
  - apply gen_enum_contract.
  - apply gen_union_contract.
  - apply gen_struct_contract.
  - apply gen_var_decl_contract.
  - apply gen_func_decl_contract.
  - apply gen_func_def_contract.
  - apply gen_switch_contract.
  - apply gen_conditional_contract.
  - apply gen_loop_contract.
Qed.

Lemma registered_unit_step kind g s :
  lookup_kind kind (REGISTRY hash) = Some g -> wf s ->
  unit_step s (g s).1 (g s).2.
Proof.
  intros Hg Hwf. destruct (registry_contract kind g Hg) as [[_ ->]|[_ Hc]].
  - pose proof (gen_main_contract hash s) as Hm. unfold wp in Hm.
    destruct Hm as (Hext & Hw & Hwf' & Hm).
    destruct (main_written s) eqn:Hs.
    + destruct Hm as [-> ->]. constructor; [done | done | by left | left; done].
    + destruct Hm as (He & Hlow & Hup). specialize (Hup Hwf).
      constructor; [done | by apply Hwf' | right; unfold MAX_FRAGMENT; lia | by right].
  - specialize (Hc s). unfold wp in Hc.
    destruct Hc as (Hext & Hw & Hsize & Hrest). destruct (Hrest Hwf) as (Hwf' & Hup & He).
    constructor; [done | done | | by left].
    unfold MAX_FRAGMENT. destruct (negb _); [right; lia |].
    destruct Hsize as [->|?]; [by left | right; lia].
Qed.

(** Every iteration either appends nothing or advances the line count, in
    every state. *)
Lemma registered_progress kind g s :
  lookup_kind kind (REGISTRY hash) = Some g ->
  (g s).1 = "" \/ 1 <= nl (g s).1.
Proof.
  intros Hg. destruct (registry_contract kind g Hg) as [[_ ->]|[_ Hc]].
  - pose proof (gen_main_contract hash s) as Hm. unfold wp in Hm.
    destruct Hm as (_ & _ & _ & Hm).
    destruct (main_written s); [left; apply Hm | right; lia].
  - specialize (Hc s). unfold wp in Hc. destruct Hc as (_ & _ & Hsize & _).
    destruct (negb _); [by right | done].
Qed.


(** ** The weighted draw *)

Lemma bisect_bounds fuel a x lo hi :
  lo <= hi -> lo <= bisect fuel a x lo hi <= hi.
Proof.
  revert lo hi. induction fuel as [|fuel IH]; intros lo hi Hle; cbn [bisect]; [lia |].
  destruct (Nat.ltb_spec lo hi) as [Hlt|?]; [| lia].
  assert (lo <= (lo + hi) / 2 < hi) as Hmid.
  { split; [apply Nat.div_le_lower_bound; lia | apply Nat.Div0.div_lt_upper_bound; lia]. }
  generalize dependent ((lo + hi) / 2). intros mid Hmid.
  destruct (Qle_bool _ _).
  - assert (mid + 1 <= hi) as Hle' by lia. pose proof (IH _ _ Hle'). lia.
  - assert (lo <= mid) as Hle' by lia. pose proof (IH _ _ Hle'). lia.
Qed.

(** The fuel [choices] gives the search never runs out: any fuel of at least
    [hi - lo] gives the same index. *)
Lemma bisect_fuel fuel1 fuel2 a x lo hi :
  hi - lo <= fuel1 -> hi - lo <= fuel2 ->
  bisect fuel1 a x lo hi = bisect fuel2 a x lo hi.
Proof.
  revert fuel2 lo hi. induction fuel1 as [|fuel1 IH]; intros fuel2 lo hi H1 H2.
  - destruct fuel2; cbn [bisect]; [done |].
    by destruct (Nat.ltb_spec lo hi); [lia |].
  - destruct fuel2; cbn [bisect].
    + by destruct (Nat.ltb_spec lo hi); [lia |].
    + destruct (Nat.ltb_spec lo hi) as [Hlt|?]; [| done].
      assert (lo <= (lo + hi) / 2 < hi) as Hmid.
      { split; [apply Nat.div_le_lower_bound; lia | apply Nat.Div0.div_lt_upper_bound; lia]. }
      generalize dependent ((lo + hi) / 2). intros mid Hmid.
      destruct (Qle_bool _ _); apply IH; lia.
Qed.

Lemma gpost_choices {A} (population : list A) (ws : list Q) (dflt : A) :
  population <> [] ->
  gpost (choices population ws dflt) (fun o =>
    if rejects_weights ws then o = None
    else exists x, o = Some x /\ x ∈ population).
Proof.
  intros Hne. unfold choices, rejects_weights, total_weight. cbv zeta.
  destruct (Qle_bool _ _); [by apply gpost_ret |].
  destruct (finite_sums _); cbn [negb orb]; [| by apply gpost_ret].
  eapply gpost_bind; [apply gpost_random |]. intros u _. apply gpost_ret.
  eexists. split; [done |]. apply list_elem_of_In, nth_In.
  pose proof (bisect_bounds (length population) (accumulate 0%Q ws)
                (u * List.last (accumulate 0%Q ws) 0%Q)%Q 0 (length population - 1)).
  destruct population; [done |]. simpl in *. lia.
Qed.

(** *** Weights that rounding cannot turn into an error *)

Lemma weight_sum_nonneg (ws : list Q) :
  Forall (fun w => (0 <= w)%Q) ws -> (0 <= weight_sum ws)%Q.
Proof. induction 1 as [|w ws Hw _ IH]; simpl; lra. Qed.

Lemma weight_sum_positive (ws : list Q) :
  Forall (fun w => (0 <= w)%Q) ws -> Exists (fun w => (0 < w)%Q) ws ->
  (0 < weight_sum ws)%Q.
Proof.
  intros Hall Hex. induction Hall as [|w ws Hw Hall IH]; [by inversion Hex |].
  pose proof (weight_sum_nonneg ws Hall). simpl.
  inversion Hex as [? ? Hpos|? ? Hrest]; subst; [lra |]. specialize (IH Hrest). lra.
Qed.

Lemma weight_sum_zero (ws : list Q) :
  Forall (fun w => (0 <= w)%Q) ws -> (weight_sum ws <= 0)%Q ->
  Forall (fun w => (w == 0)%Q) ws.
Proof.
  induction 1 as [|w ws Hw Hall IH]; [constructor |]. simpl. intros Hsum.
  pose proof (weight_sum_nonneg ws Hall). constructor; [lra | apply IH; lra].
Qed.

Lemma weight_sum_of_zeros (ws : list Q) :
  Forall (fun w => (w == 0)%Q) ws -> (weight_sum ws == 0)%Q.
Proof. induction 1 as [|w ws Hw _ IH]; simpl; [reflexivity | lra]. Qed.

Lemma last_accumulate (acc : Q) (ws : list Q) (d : Q) :
  ws <> [] -> (List.last (accumulate acc ws) d == acc + weight_sum ws)%Q.
Proof.
  revert acc. induction ws as [|w [|w' ws] IH]; intros acc Hne; [done | simpl; lra |].
  change (List.last (accumulate acc (w :: w' :: ws)) d)
    with (List.last (accumulate (acc + w)%Q (w' :: ws)) d).
  rewrite IH by done. simpl. lra.
Qed.

Lemma total_weight_sum (ws : list Q) : (total_weight ws == weight_sum ws)%Q.
Proof.
  unfold total_weight. destruct ws as [|w ws]; [reflexivity |].
  rewrite last_accumulate by done. lra.
Qed.

Lemma accumulate_bounds (acc : Q) (ws : list Q) :
  (0 <= acc)%Q -> Forall (fun w => (0 <= w)%Q) ws ->
  Forall (fun c => (0 <= c)%Q /\ (c <= acc + weight_sum ws)%Q) (accumulate acc ws).
Proof.
  intros Hacc Hall. revert acc Hacc.
  induction Hall as [|w ws Hw Hall IH]; intros acc Hacc; [constructor |].
  pose proof (weight_sum_nonneg ws Hall). simpl. constructor; [lra |].
  eapply Forall_impl; [apply IH; lra |]. intros c Hc. simpl in Hc. lra.
Qed.

Lemma isfinite_below_cap (c : Q) :
  (0 <= c)%Q -> (c <= WEIGHT_CAP)%Q -> isfinite c = true.
Proof.
  intros H0 Hcap. unfold isfinite. apply negb_true_iff.
  destruct (Qle_bool FLOAT_OVERFLOW (Qabs c)) eqn:Hle; [| done].
  apply Qle_bool_iff in Hle. rewrite Qabs_pos in Hle by done.
  assert (WEIGHT_CAP < FLOAT_OVERFLOW)%Q as Hlt by reflexivity. lra.
Qed.

Lemma finite_sums_nonneg (ws : list Q) :
  Forall (fun w => (0 <= w)%Q) ws -> (weight_sum ws <= WEIGHT_CAP)%Q ->
  finite_sums (accumulate 0%Q ws) = true.
Proof.
  intros Hall Hcap. unfold finite_sums. apply forallb_forall. intros c Hc%list_elem_of_In.
  pose proof (accumulate_bounds 0%Q ws ltac:(lra) Hall) as Hb.
  destruct (proj1 (Forall_forall _ _) Hb c Hc) as [H0 H1].
  apply isfinite_below_cap; lra.
Qed.

(** [choices] accepts safe weights. *)
Lemma safe_weights_accepted (ws : list Q) : safe_weights ws -> rejects_weights ws = false.
Proof.
  intros (Hall & Hex & Hcap). unfold rejects_weights.
  rewrite (finite_sums_nonneg ws Hall Hcap). cbn [negb]. rewrite orb_false_r.
  destruct (Qle_bool (total_weight ws) 0%Q) eqn:Hle; [| done].
  apply Qle_bool_iff in Hle. rewrite total_weight_sum in Hle.
  pose proof (weight_sum_positive ws Hall Hex). lra.
Qed.

(** [choices] rejects weights that are all zero. *)
Lemma zero_weights_rejected (ws : list Q) :
  Forall (fun w => (w == 0)%Q) ws -> rejects_weights ws = true.
Proof.
  intros Hz. unfold rejects_weights. apply orb_true_iff. left.
  apply Qle_bool_iff. rewrite total_weight_sum, (weight_sum_of_zeros ws Hz). lra.
Qed.

(** Among the non-negative weights whose sum stays below the bound,
    [choices] rejects only those that are all zero. *)
Lemma nonneg_weights_rejected (ws : list Q) :
  Forall (fun w => (0 <= w)%Q) ws -> (weight_sum ws <= WEIGHT_CAP)%Q ->
  rejects_weights ws = true -> Forall (fun w => (w == 0)%Q) ws.
Proof.
  intros Hall Hcap. unfold rejects_weights.
  rewrite (finite_sums_nonneg ws Hall Hcap). cbn [negb]. rewrite orb_false_r.
  intros Hle%Qle_bool_iff. rewrite total_weight_sum in Hle. by apply weight_sum_zero.
Qed.

(** ** The assembly loop *)

Lemma loop_inv_initial target r sty :
  loop_inv target (initial_state r sty) [PREAMBLE] (Z.of_nat (nl PREAMBLE)).
Proof. constructor; [apply wf_initial | done | done | simpl; lia]. Qed.

Lemma loop_inv_step target st parts lines kind g :
  loop_inv target st parts lines -> (lines < target)%Z ->
  lookup_kind kind (REGISTRY hash) = Some g ->
  let frag := (g st).1 in
  let st' := (g st).2 in
  extends st st' /\
  if String.eqb frag ""
  then loop_inv target st' parts lines
  else loop_inv target st' (parts ++ [frag])%list (lines + Z.of_nat (nl frag))%Z.
Proof.
  intros [Hwf Hlines Hentry Hbound] Hlt Hg frag st'.
  destruct (registered_unit_step kind g st Hg Hwf) as [Hext Hwf' Hsize He].
  fold frag st' in Hext, Hwf', Hsize, He. split; [done |].
  destruct (String.eqb_spec frag "") as [Hf|Hf].
  - rewrite Hf in He. destruct He as [[_ Hw]|[He _]]; [| done].
    constructor; [done | done | by rewrite Hw | done].
  - destruct Hsize as [?|Hsize]; [done |].
    constructor; [done | | |].
    + rewrite nl_sum_app. simpl. lia.
    + rewrite entry_count_app, Hentry. simpl.
      destruct He as [[-> ->]|(-> & -> & ->)]; lia.
    + lia.
Qed.

Lemma assemble_inv fuel target kinds ws st parts lines st' parts' lines' :
  loop_inv target st parts lines ->
  assemble hash fuel target kinds ws st parts lines = Ok (st', parts', lines') ->
  loop_inv target st' parts' lines' /\ (target <= lines')%Z /\ extends st st'.
Proof.
  revert st parts lines.
  induction fuel as [|fuel IH]; intros st parts lines Hinv; cbn [assemble].
  - destruct (Z.ltb_spec lines target); [done |].
    intros [= <- <- <-]. auto using extends_refl.
  - destruct (Z.ltb_spec lines target) as [Hlt|?];
      [| intros [= <- <- <-]; auto using extends_refl].
    destruct (draw (choices kinds ws "") st) as [[kind|] st1] eqn:Hdraw; [| done].
    destruct (lookup_kind kind (REGISTRY hash)) as [g|] eqn:Hg; [| done].
    assert (exists r, st1 = set_rng r st) as [r ->].
    { unfold draw in Hdraw. destruct (choices _ _ _ _) as [o r].
      injection Hdraw as _ <-. by eexists. }
    assert (loop_inv target (set_rng r st) parts lines) as Hinv1.
    { destruct Hinv. by constructor. }
    pose proof (loop_inv_step target _ parts lines kind g Hinv1 Hlt Hg) as [Hext Hstep].
    cbv zeta in Hstep, Hext.
    destruct (g (set_rng r st)) as [frag st2]. simpl in Hstep, Hext.
    assert (extends st st2) as Hext'.
    { destruct Hext. by constructor. }
    destruct (String.eqb frag ""); intros Hres;
      destruct (IH _ _ _ Hstep Hres) as (? & ? & ?);
      eauto using extends_trans.
Qed.

Lemma draw_choices_spec kinds ws st :
  kinds <> [] ->
  exists r,
    (rejects_weights ws = true /\
     draw (choices kinds ws "") st = (None, set_rng r st)) \/
    (rejects_weights ws = false /\
     exists kind, kind ∈ kinds /\ draw (choices kinds ws "") st = (Some kind, set_rng r st)).
Proof.
  intros Hne. pose proof (gpost_choices kinds ws "" Hne (rng st)) as Hc.
  unfold draw. destruct (choices kinds ws "" (rng st)) as [o r]. simpl in Hc.
  exists r. destruct (rejects_weights ws).
  - left. by rewrite Hc.
  - right. destruct Hc as (kind & -> & Hin). eauto.
Qed.

(** The frame of the loop holds from every state, well formed or not. *)
Lemma registered_extends kind g s :
  lookup_kind kind (REGISTRY hash) = Some g -> extends s (g s).2.
Proof.
  intros Hg. destruct (registry_contract kind g Hg) as [[_ ->]|[_ Hc]].
  - apply (gen_main_contract hash s).
  - apply (Hc s).
Qed.

Lemma assemble_extends fuel target kinds ws st parts lines st' parts' lines' :
  kinds <> [] ->
  assemble hash fuel target kinds ws st parts lines = Ok (st', parts', lines') ->
  extends st st'.
Proof.
  intros Hne. revert st parts lines.
  induction fuel as [|fuel IH]; intros st parts lines; cbn [assemble].
  - destruct (Z.ltb_spec lines target); [done |].
    intros [= <- <- <-]. apply extends_refl.
  - destruct (Z.ltb_spec lines target) as [Hlt|?];
      [| intros [= <- <- <-]; apply extends_refl].
    destruct (draw_choices_spec kinds ws st Hne) as [r [[_ ->]|(_ & kind & _ & ->)]]; [done |].
    destruct (lookup_kind kind (REGISTRY hash)) as [g|] eqn:Hg; [| done].
    pose proof (registered_extends kind g (set_rng r st) Hg) as Hext.
    destruct (g (set_rng r st)) as [frag st2]. simpl in Hext.
    assert (extends st st2) as Hext' by (destruct Hext; by constructor).
    destruct (String.eqb frag ""); intros Hres%IH; eauto using extends_trans.
Qed.

(** The loop raises [KeyError] only for a drawn kind that is not registered. *)
Lemma assemble_key_error fuel target kinds ws st parts lines k :
  kinds <> [] ->
  assemble hash fuel target kinds ws st parts lines = KeyError k ->
  k ∈ kinds /\ lookup_kind k (REGISTRY hash) = None /\ (lines < target)%Z.
Proof.
  intros Hne. revert st parts lines.
  induction fuel as [|fuel IH]; intros st parts lines; cbn [assemble].
  - by destruct (Z.ltb_spec lines target).
  - destruct (Z.ltb_spec lines target) as [Hlt|?]; [| done].
    destruct (draw_choices_spec kinds ws st Hne) as [r [[_ ->]|(_ & kind & Hin & ->)]]; [done |].
    destruct (lookup_kind kind (REGISTRY hash)) as [g|] eqn:Hg; [| by intros [= <-]].
    pose proof (registered_progress kind g (set_rng r st) Hg) as Hprog.
    destruct (g (set_rng r st)) as [frag st2]. simpl in Hprog.
    destruct (String.eqb frag ""); intros (? & ? & ?)%IH; split_and!; first [done | lia].
Qed.

(** The loop raises [ValueError] only when [choices] rejects the weights. *)
Lemma assemble_value_error fuel target kinds ws st parts lines :
  kinds <> [] ->
  assemble hash fuel target kinds ws st parts lines = ValueError ->
  rejects_weights ws = true /\ (lines < target)%Z.
Proof.
  intros Hne. revert st parts lines.
  induction fuel as [|fuel IH]; intros st parts lines; cbn [assemble].
  - by destruct (Z.ltb_spec lines target).
  - destruct (Z.ltb_spec lines target) as [Hlt|?]; [| done].
    destruct (draw_choices_spec kinds ws st Hne) as [r [[Hw ->]|(_ & kind & Hin & ->)]]; [done |].
    destruct (lookup_kind kind (REGISTRY hash)) as [g|] eqn:Hg; [| done].
    pose proof (registered_progress kind g (set_rng r st) Hg) as Hprog.
    destruct (g (set_rng r st)) as [frag st2]. simpl in Hprog.
    destruct (String.eqb frag ""); intros [? ?]%IH; split; first [done | lia].
Qed.

(** A loop whose target is already met does not run. *)
Lemma assemble_done fuel target kinds ws st parts lines :
  (target <= lines)%Z ->
  assemble hash fuel target kinds ws st parts lines = Ok (st, parts, lines).
Proof.
  intros Hle. destruct fuel; cbn [assemble];
    by destruct (Z.ltb_spec lines target); [lia |].
Qed.


(** ** The builder *)

(** An iteration that draws an unregistered key fails with that key. *)
Lemma assemble_draws_unregistered fuel target kinds ws st parts lines k :
  (lines < target)%Z ->
  (draw (choices kinds ws "") st).1 = Some k ->
  lookup_kind k (REGISTRY hash) = None ->
  assemble hash (S fuel) target kinds ws st parts lines = KeyError k.
Proof.
  intros Hlt Hdraw Hk. cbn [assemble].
  destruct (Z.ltb_spec lines target); [| lia].
  destruct (draw (choices kinds ws "") st) as [drawn st1]. cbn [fst] in Hdraw. subst drawn.
  by rewrite Hk.
Qed.

(** An iteration whose weights [choices] rejects fails. *)
Lemma assemble_rejected_weights fuel target kinds ws st parts lines :
  kinds <> [] -> (lines < target)%Z -> rejects_weights ws = true ->
  assemble hash (S fuel) target kinds ws st parts lines = ValueError.
Proof.
  intros Hne Hlt Hrej. cbn [assemble].
  destruct (Z.ltb_spec lines target); [| lia].
  destruct (draw_choices_spec kinds ws st Hne) as [r [[_ ->]|[Hacc _]]]; [done | congruence].
Qed.

Lemma build_parts_unfold fuel cfg r :
  build_parts hash fuel cfg r =
  let (sty, r1) := chosen_style cfg r in
  match weights cfg with
  | [] => ValueError
  | _ :: _ =>
      match assemble hash fuel (loc cfg) (map fst (weights cfg)) (map snd (weights cfg))
              (initial_state r1 sty) [PREAMBLE] (Z.of_nat (nl PREAMBLE)) with
      | Ok (st', parts', _) =>
          if main_written st' then Ok (st', parts')
          else Ok ((gen_main hash st').2, (parts' ++ [(gen_main hash st').1])%list)
      | KeyError k => KeyError k
      | ValueError => ValueError
      | OutOfFuel => OutOfFuel
      end
  end.
Proof.
  unfold build_parts, chosen_style.
  destruct (style cfg); [destruct (choice _ _ _) |]; destruct (weights cfg); try done;
    destruct (assemble _ _ _ _ _ _ _ _) as [[[st' parts'] ?]| | |]; try done;
    destruct (main_written st'); try done; by destruct (gen_main hash st').
Qed.

Lemma build_c_unfold fuel cfg r :
  build_c hash fuel cfg r =
  match build_parts hash fuel cfg r with
  | Ok (_, parts) => Ok (join "" parts)
  | KeyError k => KeyError k
  | ValueError => ValueError
  | OutOfFuel => OutOfFuel
  end.
Proof. done. Qed.

(** What a returned run satisfies. *)
Lemma build_parts_ok fuel cfg r st parts :
  build_parts hash fuel cfg r = Ok (st, parts) ->
  wf st /\ main_written st = true /\ entry_count parts = 1 /\
  (loc cfg <= Z.of_nat (nl_sum parts)
   <= Z.max 2 (loc cfg + Z.of_nat MAX_FRAGMENT - 1) + Z.of_nat MAX_MAIN)%Z.
Proof.
  rewrite build_parts_unfold. destruct (chosen_style cfg r) as [sty r1].
  destruct (weights cfg) as [|w ws]; [done |].
  destruct (assemble _ _ _ _ _ _ _ _) as [[[st' parts'] lines']| | |] eqn:Hasm; try done.
  apply assemble_inv in Hasm as ([Hwf Hlines Hentry Hbound] & Hge & _);
    [| apply loop_inv_initial].
  destruct (main_written st') eqn:Hmw.
  - intros [= <- <-]. split_and!; [done | done | done | lia | lia].
  - intros [= <- <-].
    pose proof (gen_main_contract hash st') as Hm. unfold wp in Hm.
    rewrite Hmw in Hm. destruct Hm as (_ & Hw & Hwf' & He & Hlow & Hup).
    specialize (Hup Hwf). unfold MAX_MAIN.
    split_and!; [by apply Hwf' | done | | |].
    + rewrite entry_count_app, Hentry. simpl. rewrite He. done.
    + rewrite nl_sum_app. simpl. lia.
    + rewrite nl_sum_app. simpl. lia.
Qed.

Lemma build_c_ok fuel cfg r text :
  build_c hash fuel cfg r = Ok text ->
  exists st parts, build_parts hash fuel cfg r = Ok (st, parts) /\ text = join "" parts.
Proof.
  rewrite build_c_unfold.
  destruct (build_parts hash fuel cfg r) as [[st parts]| | |]; try done.
  intros [= <-]. eauto.
Qed.

(** A run whose target is at most the two lines of the preamble returns,
    whatever the keys and the weights of a non-empty mapping are. *)
Lemma build_c_small_target fuel cfg r :
  weights cfg <> [] -> (loc cfg <= 2)%Z -> exists text, build_c hash fuel cfg r = Ok text.
Proof.
  intros Hne Hloc. rewrite build_c_unfold, build_parts_unfold.
  destruct (chosen_style cfg r) as [sty r1].
  destruct (weights cfg) as [|w ws]; [done |].
  rewrite assemble_done; [| simpl; lia].
  destruct (main_written _); eauto.
Qed.

Lemma build_c_value_error fuel cfg r :
  build_c hash fuel cfg r = ValueError ->
  weights cfg = [] \/ (rejects_weights (map snd (weights cfg)) = true /\ (2 < loc cfg)%Z).
Proof.
  rewrite build_c_unfold, build_parts_unfold.
  destruct (chosen_style cfg r) as [sty r1].
  destruct (weights cfg) as [|w ws] eqn:Hws; [by left |].
  destruct (assemble _ _ _ _ _ _ _ _) as [[[st parts] lines]|k'| |] eqn:Hasm; try done.
  { by destruct (main_written st). }
  intros _. right. apply assemble_value_error in Hasm as [? ?]; [| done].
  split; [done | simpl in *; lia].
Qed.

Lemma build_c_key_error fuel cfg r k :
  build_c hash fuel cfg r = KeyError k ->
  k ∈ map fst (weights cfg) /\ lookup_kind k (REGISTRY hash) = None.
Proof.
  rewrite build_c_unfold, build_parts_unfold.
  destruct (chosen_style cfg r) as [sty r1].
  destruct (weights cfg) as [|w ws] eqn:Hws; [done |].
  destruct (assemble _ _ _ _ _ _ _ _) as [[[st parts] lines]|k'| |] eqn:Hasm; try done.
  { by destruct (main_written st). }
  intros [= ->]. by apply assemble_key_error in Hasm as (? & ? & _).
Qed.

Lemma build_c_rejected_weights fuel cfg r :
  weights cfg <> [] -> rejects_weights (map snd (weights cfg)) = true -> (2 < loc cfg)%Z ->
  build_c hash (S fuel) cfg r = ValueError.
Proof.
  intros Hne Hrej Hloc. rewrite build_c_unfold, build_parts_unfold.
  destruct (chosen_style cfg r) as [sty r1].
  destruct (weights cfg) as [|w ws] eqn:Hws; [done |].
  by rewrite assemble_rejected_weights; [| | simpl; lia |].
Qed.

End Run.

(** * The properties of the specification *)

(** ** Header unit *)

Lemma gen_include_spec (s : State) :
  exists hdr,
    hdr ∈ HDRS /\
    ((gen_include s).1 = "#include " +:+ hdr +:+ EOL) /\
    hdr ∈ headers (gen_include s).2 /\
    ((exists h, h ∈ HDRS /\ h ∉ headers s) ->
       (hdr ∉ headers s) /\ headers (gen_include s).2 = headers s ∪ {[hdr]}) /\
    ((forall h, h ∈ HDRS -> h ∈ headers s) ->
       headers (gen_include s).2 = {[hdr]}).
Proof.
  change (wp gen_include (fun frag s' =>
    exists hdr, hdr ∈ HDRS /\ frag = "#include " +:+ hdr +:+ EOL /\ hdr ∈ headers s' /\
      ((exists h, h ∈ HDRS /\ h ∉ headers s) ->
         (hdr ∉ headers s) /\ headers s' = headers s ∪ {[hdr]}) /\
      ((forall h, h ∈ HDRS -> h ∈ headers s) -> headers s' = {[hdr]})) s).
  unfold gen_include. wp_read. apply wp_bind.
  set (available := filter _ HDRS).
  case_bool_decide as Hav.
  - assert (forall h, h ∈ HDRS -> h ∈ headers s) as Hall.
    { intros h Hh. destruct (decide (h ∈ headers s)) as [|Hn]; [done |].
      assert (h ∈ available) as Hin by (by apply list_elem_of_filter).
      rewrite Hav in Hin. by apply elem_of_nil in Hin. }
    wp_write. apply wp_ret.
    wp_draw (gpost_choice HDRS "") as hdr Hhdr.
    wp_write. apply wp_ret. st_simpl.
    exists hdr. split_and!; [done | done | set_solver | | intros _; set_solver].
    intros (h & Hh & Hn). exfalso. by apply Hn, Hall.
  - apply wp_ret.
    wp_draw (gpost_choice available "") as hdr Hhdr.
    wp_write. apply wp_ret. st_simpl.
    apply list_elem_of_filter in Hhdr as [Hfresh Hin].
    exists hdr. split_and!; [done | done | set_solver | done |].
    intros Hall. exfalso. by apply Hfresh, Hall.
Qed.

(** C6. Between two resets the header unit never emits a header that is
    already in [headers]: while some header of the five-element catalog is
    missing from the set, the chosen header is a missing one and is added;
    only when all five are in the set is the set cleared, and the header is
    then drawn from the full catalog.  After every invocation the chosen
    header is in [headers]. *)
Theorem gen_include_no_repeat_until_exhausted (s : State) :
  length HDRS = 5 /\
  exists hdr,
    hdr ∈ HDRS /\
    ((gen_include s).1 = "#include " +:+ hdr +:+ EOL) /\
    hdr ∈ headers (gen_include s).2 /\
    ((exists h, h ∈ HDRS /\ h ∉ headers s) ->
       (hdr ∉ headers s) /\ headers (gen_include s).2 = headers s ∪ {[hdr]}) /\
    ((forall h, h ∈ HDRS -> h ∈ headers s) ->
       headers (gen_include s).2 = {[hdr]}).
Proof. split; [done | apply gen_include_spec]. Qed.

Lemma gen_include_no_repeat_witness :
  (exists hdr,
     (hdr ∉ headers (state_with_headers ["<stdio.h>"; "<math.h>"; "<stddef.h>"] [1%Z])) /\
     (gen_include (state_with_headers ["<stdio.h>"; "<math.h>"; "<stddef.h>"] [1%Z])).1
       = "#include " +:+ hdr +:+ EOL) /\
  (exists hdr,
     headers (gen_include (state_with_headers HDRS [3%Z])).2 = {[hdr]}).
Proof.
  split.
  - destruct (gen_include_no_repeat_until_exhausted
                (state_with_headers ["<stdio.h>"; "<math.h>"; "<stddef.h>"] [1%Z]))
      as (_ & hdr & _ & Hfrag & _ & Hfresh & _).
    exists hdr. split; [| done]. apply Hfresh.
    exists "<stdlib.h>". split; by_decide.
  - destruct (gen_include_no_repeat_until_exhausted (state_with_headers HDRS [3%Z]))
      as (_ & hdr & _ & _ & _ & _ & Hfull).
    exists hdr. apply Hfull. intros h Hh. unfold state_with_headers. cbn [headers].
    by apply elem_of_list_to_set.
Defined.

(** ** Append-only state *)

(** C9. No unit invocation removes an element from [typedefs], [structs] or
    [funcs]: each of them is left as it is or grows, the style stays, and a
    set [main_written] flag stays set; the same holds from any state of the
    assembly loop to the state the loop ends in.  [headers] is the field that
    can lose elements: the header unit clears it once the catalog is
    exhausted. *)
Theorem append_only_sets (hash : HashOrder) :
  (forall kind g s,
     lookup_kind kind (REGISTRY hash) = Some g ->
     typedefs s ⊆ typedefs (g s).2 /\ structs s ⊆ structs (g s).2 /\
     funcs s ⊆ funcs (g s).2 /\ st_style (g s).2 = st_style s /\
     (main_written s = true -> main_written (g s).2 = true)) /\
  (forall fuel target kinds ws st parts lines st' parts' lines',
     kinds <> [] ->
     assemble hash fuel target kinds ws st parts lines = Ok (st', parts', lines') ->
     typedefs st ⊆ typedefs st' /\ structs st ⊆ structs st' /\ funcs st ⊆ funcs st') /\
  (exists s h, h ∈ headers s /\ h ∉ headers (gen_include s).2).
Proof.
  split_and!.
  - intros kind g s Hg. by destruct (registered_extends hash kind g s Hg).
  - intros fuel target kinds ws st parts lines st' parts' lines' Hne Hasm.
    by destruct (assemble_extends hash _ _ _ _ _ _ _ _ _ _ Hne Hasm).
  - set (s := mkState (tape_of []) kr ∅ ∅ ∅ (list_to_set HDRS) false).
    destruct (gen_include_spec s) as (hdr & Hhdr & _ & _ & _ & Hfull).
    assert (headers (gen_include s).2 = {[hdr]}) as Hset.
    { apply Hfull. intros h Hh. by apply elem_of_list_to_set. }
    exists s. rewrite Hset.
    destruct (decide (hdr = "<stdio.h>")) as [->|Hne].
    + exists "<math.h>". split; [by_decide |].
      intros Hin%elem_of_singleton. discriminate Hin.
    + exists "<stdio.h>". split; [by_decide |].
      intros Hin%elem_of_singleton. by apply Hne.
Qed.

Lemma append_only_sets_witness :
  typedefs state_one_alias ⊆ typedefs (gen_typedef state_one_alias).2 /\
  elements (typedefs state_one_alias) = ["void"] /\
  elements (typedefs (gen_typedef state_one_alias).2) = ["aaa"; "void"].
Proof.
  split; [| split; vm_compute; reflexivity].
  apply (proj1 (append_only_sets hash_fwd) "typedef" gen_typedef state_one_alias).
  reflexivity.
Defined.

(** ** The builder: entry point, size, termination, errors *)

(** C4. The output of [build_c] holds exactly one entry-point fragment.  An
    invocation of the entry-point unit with the flag unset emits the fragment
    and sets [main_written]; with the flag set it returns the empty fragment
    and leaves the state alone; a run that returns ends with the flag set,
    the unit being invoked once more after the loop when the loop left it
    unset. *)
Theorem entry_point_exactly_once (hash : HashOrder) :
  (forall s, main_written s = false ->
     is_entry (gen_main hash s).1 = true /\ main_written (gen_main hash s).2 = true) /\
  (forall s, main_written s = true -> gen_main hash s = ("", s)) /\
  (forall fuel cfg r text,
     build_c hash fuel cfg r = Ok text ->
     exists st parts,
       build_parts hash fuel cfg r = Ok (st, parts) /\ text = join "" parts /\
       entry_count parts = 1 /\ main_written st = true).
Proof.
  split_and!.
  - intros s Hs. pose proof (gen_main_contract hash s) as Hm. unfold wp in Hm.
    rewrite Hs in Hm. by destruct Hm as (_ & ? & _ & ? & _).
  - intros s Hs. pose proof (gen_main_contract hash s) as Hm. unfold wp in Hm.
    rewrite Hs in Hm. destruct Hm as (_ & _ & _ & Hf & Hst).
    destruct (gen_main hash s) as [frag s']. simpl in *. by subst.
  - intros fuel cfg r text (st & parts & Hrun & ->)%build_c_ok.
    destruct (build_parts_ok hash _ _ _ _ _ Hrun) as (_ & Hw & He & _).
    by exists st, parts.
Qed.

Lemma entry_point_exactly_once_witness :
  exists st parts,
    build_parts hash_fwd 1 cfg_switch tape_switch = Ok (st, parts) /\
    entry_count parts = 1 /\ main_written st = true.
Proof.
  destruct (build_c hash_fwd 1 cfg_switch tape_switch) as [text| | |] eqn:Hrun;
    try (vm_compute in Hrun; discriminate Hrun).
  destruct (proj2 (proj2 (entry_point_exactly_once hash_fwd)) 1 cfg_switch tape_switch text Hrun)
    as (st & parts & Hparts & _ & He & Hw).
  by exists st, parts.
Defined.

Lemma nl_join_parts (parts : list string) : nl (join "" parts) = nl_sum parts.
Proof. apply nl_join_empty. Qed.

(** C3, amended. The text [build_c] returns has at least [loc] line breaks.
    The loop stops at the first count that reaches [loc], so it ends with at
    most [loc - 1] plus one fragment (at most [MAX_FRAGMENT = 17]) line
    breaks, or with the 2 of the preamble when it never runs; the entry
    point forced after the loop adds up to [MAX_MAIN = 7] more. *)
Theorem build_c_size (hash : HashOrder) :
  (forall kind g s,
     lookup_kind kind (REGISTRY hash) = Some g -> wf s -> nl (g s).1 <= MAX_FRAGMENT) /\
  (forall fuel cfg r text,
     build_c hash fuel cfg r = Ok text ->
     (loc cfg <= Z.of_nat (nl text)
      <= Z.max 2 (loc cfg + Z.of_nat MAX_FRAGMENT - 1) + Z.of_nat MAX_MAIN)%Z).
Proof.
  split.
  - intros kind g s Hg Hwf.
    destruct (registered_unit_step hash kind g s Hg Hwf) as [_ _ [->|?] _]; [simpl |]; lia.
  - intros fuel cfg r text (st & parts & Hrun & ->)%build_c_ok.
    rewrite nl_join_parts. by destruct (build_parts_ok hash _ _ _ _ _ Hrun) as (_ & _ & _ & ?).
Qed.

(** The bound on one fragment is attained. *)
Example switch_fragment_of_max_size :
  nl (gen_switch (initial_state (tape_of [0; 0; 0; 0; 0; 0; 2]%Z) allman)).1 = MAX_FRAGMENT.
Proof. by vm_compute. Qed.

Lemma build_c_size_witness :
  exists text,
    build_c hash_fwd 1 cfg_switch tape_switch = Ok text /\
    (3 <= Z.of_nat (nl text) <= 26)%Z.
Proof.
  destruct (build_c hash_fwd 1 cfg_switch tape_switch) as [text| | |] eqn:Hrun;
    try (vm_compute in Hrun; discriminate Hrun).
  exists text. split; [done |].
  apply (proj2 (build_c_size hash_fwd) 1 cfg_switch tape_switch text Hrun).
Defined.

(** C3 as stated fails: with target 3 the [switch] fragment of four cases
    brings the count from 2 to 19, and the forced entry point adds 7, which
    is 26 line breaks against a claimed bound of [3 + 17].  With a negative
    target the loop does not run, and the preamble and the entry point alone
    exceed the claimed bound. *)
Lemma build_c_size_counterexample :
  (exists text,
     build_c hash_fwd 1 cfg_switch tape_switch = Ok text /\
     nl text = 26 /\
     (Z.of_nat (nl text) > loc cfg_switch + Z.of_nat MAX_FRAGMENT)%Z) /\
  (exists text,
     build_c hash_fwd 0 cfg_negative (tape_of []) = Ok text /\
     nl text = 6 /\
     (Z.of_nat (nl text) > loc cfg_negative + Z.of_nat MAX_FRAGMENT)%Z).
Proof.
  split; (eexists; split; [vm_compute; reflexivity |]; by vm_compute).
Qed.



Lemma gen_func_def_empty (hash : HashOrder) (s : State) :
  funcs s = ∅ -> gen_func_def hash s = ("", s).
Proof.
  intros Hs. unfold gen_func_def, sbind, get. by rewrite bool_decide_eq_true_2.
Qed.



(** C5, amended. Nothing is checked when a configuration is built. A key
    that is not registered makes [build_c] fail only when the loop draws it,
    after the state was created and possibly after fragments were assembled:
    a [KeyError] names an unregistered key of the mapping and needs a target
    above 2; and an iteration that draws an unregistered key fails with that
    key, whatever state and parts the loop has reached, as does the run
    whose first draw is one.  A negative weight is never looked at on its
    own: apart from the empty mapping, [ValueError] comes from [choices] at
    the first draw, and only for weights that are not safe (one negative,
    none positive, or a sum above [WEIGHT_CAP]); the empty mapping raises
    it, and so do weights that are all zero when the target is above 2.  A
    run that fails returns no text, and a run whose target is at most 2
    returns a text whatever the keys and weights of a non-empty mapping
    are. *)
Theorem build_c_errors (hash : HashOrder) (cfg : CConfig) :
  (forall fuel r k, build_c hash fuel cfg r = KeyError k ->
     k ∈ map fst (weights cfg) /\ lookup_kind k (REGISTRY hash) = None /\ (2 < loc cfg)%Z) /\
  (forall fuel st parts lines k,
     (lines < loc cfg)%Z ->
     (draw (choices (map fst (weights cfg)) (map snd (weights cfg)) "") st).1 = Some k ->
     lookup_kind k (REGISTRY hash) = None ->
     assemble hash (S fuel) (loc cfg) (map fst (weights cfg)) (map snd (weights cfg))
       st parts lines = KeyError k) /\
  (forall fuel r k,
     (2 < loc cfg)%Z ->
     (draw (choices (map fst (weights cfg)) (map snd (weights cfg)) "")
        (initial_state (chosen_style cfg r).2 (chosen_style cfg r).1)).1 = Some k ->
     lookup_kind k (REGISTRY hash) = None ->
     build_c hash (S fuel) cfg r = KeyError k) /\
  (forall fuel r, build_c hash fuel cfg r = ValueError ->
     weights cfg = [] \/ ((2 < loc cfg)%Z /\ ~ safe_weights (map snd (weights cfg)))) /\
  (forall fuel r, weights cfg = [] -> build_c hash fuel cfg r = ValueError) /\
  (forall fuel r,
     weights cfg <> [] -> Forall (fun w => (w == 0)%Q) (map snd (weights cfg)) ->
     (2 < loc cfg)%Z -> build_c hash (S fuel) cfg r = ValueError) /\
  (weights cfg <> [] -> (loc cfg <= 2)%Z ->
   forall fuel r, exists text, build_c hash fuel cfg r = Ok text).
Proof.
  split_and!.
  - intros fuel r k Hrun. destruct (build_c_key_error hash _ _ _ _ Hrun) as [Hin Hk].
    split_and!; [done | done |].
    destruct (Z.le_gt_cases (loc cfg) 2) as [Hle|?]; [| lia].
    destruct (build_c_small_target hash fuel cfg r) as [text Hok]; [| done | congruence].
    intros Hnil. rewrite Hnil in Hin. by apply elem_of_nil in Hin.
  - intros fuel st parts lines k Hlt Hdraw Hk. by apply assemble_draws_unregistered.
  - intros fuel r k Hloc Hdraw Hk. rewrite build_c_unfold, build_parts_unfold.
    destruct (chosen_style cfg r) as [sty r1]. cbn [fst snd] in Hdraw.
    destruct (weights cfg) as [|w ws] eqn:Hws; [by vm_compute in Hdraw |].
    rewrite (assemble_draws_unregistered hash fuel _ _ _ _ _ _ k); [done | simpl; lia | done | done].
  - intros fuel r [Hnil|[Hrej Hloc]]%build_c_value_error; [by left | right].
    split; [done |]. intros Hsafe%safe_weights_accepted. congruence.
  - intros fuel r Hnil. rewrite build_c_unfold, build_parts_unfold.
    destruct (chosen_style cfg r) as [sty r1]. by rewrite Hnil.
  - intros fuel r Hne Hz%zero_weights_rejected Hloc. by apply build_c_rejected_weights.
  - intros Hne Hloc fuel r. by apply build_c_small_target.
Qed.

Lemma build_c_errors_witness :
  ("bogus" ∈ map fst (weights cfg_unknown) /\
   lookup_kind "bogus" (REGISTRY hash_fwd) = None /\ (2 < loc cfg_unknown)%Z) /\
  build_c hash_fwd 1 cfg_unknown (tape_of []) = KeyError "bogus".
Proof.
  split.
  - apply (proj1 (build_c_errors hash_fwd cfg_unknown) 5 (tape_of [])).
    vm_compute. reflexivity.
  - apply (proj1 (proj2 (proj2 (build_c_errors hash_fwd cfg_unknown)))).
    + vm_compute. reflexivity.
    + vm_compute. reflexivity.
    + reflexivity.
Defined.

(** C5 as stated fails: the mapping has an unregistered key and a negative
    weight, nothing rejects it, and the run returns a complete text. *)
Lemma build_c_errors_counterexample :
  lookup_kind "bogus" (REGISTRY hash_fwd) = None /\
  (exists w, ("bogus", w) ∈ weights cfg_bogus /\ (w < 0)%Q) /\
  exists text,
    build_c hash_fwd 1 cfg_bogus (tape_of []) = Ok text /\
    nl text = 7 /\
    startswith text (PREAMBLE +:+ "// TODO: aaa" +:+ EOL +:+ "int main(void) {") = true.
Proof.
  split_and!; [done | |].
  - exists ((-1) # 1)%Q. split; [unfold cfg_bogus; cbn [weights]; set_solver | done].
  - eexists. split; [vm_compute; reflexivity |]. by vm_compute.
Qed.

(** ** Literals in definitions and declarations *)

Lemma gen_func_def_spec (hash : HashOrder) (s : State) :
  (funcs s = ∅ -> (gen_func_def hash s).1 = "") /\
  (funcs s <> ∅ ->
   exists ret name params body,
     (ret, name, params) ∈ funcs s /\
     (gen_func_def hash s).1 =
       brace_line (st_style s) (ret +:+ " " +:+ name +:+ "(" +:+ params +:+ ")")
       +:+ body +:+ "}" +:+ EOL +:+ EOL /\
     (ret = "void" -> body = indent_of (st_style s) +:+ "// function body" +:+ EOL) /\
     (ret <> "void" ->
      exists t v, t ∈ BASE_CTYPES /\ literal_for t v /\
        body = indent_of (st_style s) +:+ "return " +:+ v +:+ ";" +:+ EOL)).
Proof.
  split; [intros Hs; by rewrite gen_func_def_empty |].
  intros Hne.
  change (wp (gen_func_def hash) (fun frag _ =>
    exists ret name params body,
      (ret, name, params) ∈ funcs s /\
      frag = brace_line (st_style s) (ret +:+ " " +:+ name +:+ "(" +:+ params +:+ ")")
             +:+ body +:+ "}" +:+ EOL +:+ EOL /\
      (ret = "void" -> body = indent_of (st_style s) +:+ "// function body" +:+ EOL) /\
      (ret <> "void" ->
       exists t v, t ∈ BASE_CTYPES /\ literal_for t v /\
         body = indent_of (st_style s) +:+ "return " +:+ v +:+ ";" +:+ EOL)) s).
  unfold gen_func_def. wp_read. rewrite bool_decide_eq_false_2 by done.
  apply wp_bind. eapply wp_draw.
  { apply (gpost_choice (list_of_sigs hash (funcs s)) NO_SIG).
    by apply list_of_sigs_nonempty. }
  intros [[ret name] params] ? Hin%elem_of_list_of_sigs.
  wp_read. apply wp_bind. st_simpl.
  destruct (String.eqb_spec ret "void") as [->|Hret].
  - do 2 apply wp_ret. eexists _, _, _, _. split_and!; [done | done | done | done].
  - wp_draw (gpost_choice BASE_CTYPES "") as t Ht.
    wp_draw (gpost_random_value t) as v Hv.
    do 2 apply wp_ret. eexists _, _, _, _. split_and!; [done | done | done |].
    intros _. by exists t, v.
Qed.

(** C7, amended. With no stored signature the function-definition unit
    returns the empty fragment.  Otherwise it selects a stored signature and
    renders header and body with the style's brace placement and indent; for
    a [void] return type the body is the comment, and for any other return
    type the body returns a literal of a base type drawn independently of the
    return type. *)
Theorem gen_func_def_body (hash : HashOrder) (s : State) :
  (funcs s = ∅ -> (gen_func_def hash s).1 = "") /\
  (funcs s <> ∅ ->
   exists ret name params body,
     (ret, name, params) ∈ funcs s /\
     (gen_func_def hash s).1 =
       brace_line (st_style s) (ret +:+ " " +:+ name +:+ "(" +:+ params +:+ ")")
       +:+ body +:+ "}" +:+ EOL +:+ EOL /\
     (ret = "void" -> body = indent_of (st_style s) +:+ "// function body" +:+ EOL) /\
     (ret <> "void" ->
      exists t v, t ∈ BASE_CTYPES /\ literal_for t v /\
        body = indent_of (st_style s) +:+ "return " +:+ v +:+ ";" +:+ EOL)).
Proof. apply gen_func_def_spec. Qed.

Lemma gen_func_def_body_witness :
  exists ret name params body,
    (ret, name, params) ∈ funcs state_one_func /\
    (gen_func_def hash_fwd state_one_func).1 =
      brace_line (st_style state_one_func) (ret +:+ " " +:+ name +:+ "(" +:+ params +:+ ")")
      +:+ body +:+ "}" +:+ EOL +:+ EOL.
Proof.
  destruct (proj2 (gen_func_def_body hash_fwd state_one_func))
    as (ret & name & params & body & Hin & Hfrag & _).
  - by_decide.
  - exists ret, name, params, body. split; [exact Hin | exact Hfrag].
Defined.

(** C7 as stated fails: the stored signature returns [int*], for which the
    literal rules give [NULL] only, and the body returns a character. *)
Lemma gen_func_def_body_counterexample :
  elements (funcs state_one_func) = [("int*", "aaaaaa", "void")] /\
  (gen_func_def hash_fwd state_one_func).1 =
    "int* aaaaaa(void) {" +:+ EOL +:+ "    return 'a';" +:+ EOL +:+ "}" +:+ EOL +:+ EOL /\
  ~ literal_for "int*" "'a'".
Proof.
  split_and!; [by vm_compute | by vm_compute |].
  inversion 1; done.
Qed.

Lemma gen_var_decl_spec (hash : HashOrder) (s : State) :
  exists ctype name init,
    (gen_var_decl hash s).1 = ctype +:+ " " +:+ name +:+ init +:+ ";" +:+ EOL /\
    ctype_from (list_of_strs hash (typedefs s)) ctype /\
    name_of_length 6 name /\
    (init = "" \/
     (endswith ctype "*" = false /\
      exists t v, t ∈ BASE_CTYPES /\ literal_for t v /\ v <> "NULL" /\ init = " = " +:+ v)) /\
    rng_moved s (gen_var_decl hash s).2.
Proof.
  change (wp (gen_var_decl hash) (fun frag s' =>
    exists ctype name init,
      frag = ctype +:+ " " +:+ name +:+ init +:+ ";" +:+ EOL /\
      ctype_from (list_of_strs hash (typedefs s)) ctype /\
      name_of_length 6 name /\
      (init = "" \/
       (endswith ctype "*" = false /\
        exists t v, t ∈ BASE_CTYPES /\ literal_for t v /\ v <> "NULL" /\ init = " = " +:+ v)) /\
      rng_moved s s') s).
  unfold gen_var_decl. wp_read.
  wp_draw (gpost_choose_ctype _) as ctype Hctype.
  wp_draw gpost_fresh_name as name Hname.
  apply wp_bind.
  destruct (endswith ctype "*") eqn:Hptr; cbn [negb].
  - do 2 apply wp_ret. exists ctype, name, "".
    split_and!; [done | done | done | by left | by eexists].
  - wp_draw gpost_random as u Hu.
    destruct (Qltb u (1 # 2)).
    + wp_draw (gpost_choice BASE_CTYPES "") as t Ht.
      wp_draw (gpost_random_value t) as v Hv.
      do 2 apply wp_ret. exists ctype, name, (" = " +:+ v).
      split_and!; [done | done | done | | by eexists].
      right. split; [done |]. exists t, v.
      split_and!; [done | done | by eapply literal_base_not_null | done].
    + do 2 apply wp_ret. exists ctype, name, "".
      split_and!; [done | done | done | by left | by eexists].
Qed.

(** C8, amended. The variable-declaration unit emits [ctype name init;] and
    changes nothing in the state but the random source.  An initializer is
    emitted only for a declared type that is not a pointer, and it is a
    literal, by the literal rules, of a base type drawn independently of the
    declared type: a quoted letter, an integer from 0 to 100 (with [L] for
    [long]), or a decimal with two fraction digits below 100; it is never
    the null literal. *)
Theorem gen_var_decl_initializer (hash : HashOrder) (s : State) :
  exists ctype name init,
    (gen_var_decl hash s).1 = ctype +:+ " " +:+ name +:+ init +:+ ";" +:+ EOL /\
    ctype_from (list_of_strs hash (typedefs s)) ctype /\
    name_of_length 6 name /\
    (init = "" \/
     (endswith ctype "*" = false /\
      exists t v, t ∈ BASE_CTYPES /\ literal_for t v /\ v <> "NULL" /\ init = " = " +:+ v)) /\
    rng_moved s (gen_var_decl hash s).2.
Proof. apply gen_var_decl_spec. Qed.

(** C8 as stated fails: the declared type is [char], whose literals are
    quoted letters, and the initializer is the [long] literal [7L]. *)
Lemma gen_var_decl_initializer_counterexample :
  (gen_var_decl hash_fwd
     (initial_state (tape_of [4; 4503599627370496; 0; 0; 0; 0; 0; 0; 0; 1; 7]%Z) kr)).1
  = "char aaaaaa = 7L;" +:+ EOL /\
  ~ literal_for "char" "7L".
Proof.
  split; [by vm_compute |].
  inversion 1; done.
Qed.

(** ** Return types of stored signatures *)

Lemma endswith_app_star (b : string) : endswith (b +:+ "*") "*" = true.
Proof.
  induction b as [|c b IH]; [done |].
  rewrite str_app_cons. cbn [endswith].
  destruct (b +:+ "*") eqn:Hb; [| done].
  by destruct b.
Qed.

Lemma ctype_from_void extra t :
  ctype_from extra t -> t = "void" -> "void" ∈ extra.
Proof.
  intros (b & Hb & [->| ->]) Hv.
  - subst b. apply elem_of_app in Hb as [Hb|Hb]; [| done].
    exfalso. unfold BASE_CTYPES in Hb.
    repeat (apply elem_of_cons in Hb as [Hb|Hb]; [discriminate Hb |]).
    by apply elem_of_nil in Hb.
  - exfalso. pose proof (endswith_app_star b) as He. rewrite Hv in He. discriminate He.
Qed.

Lemma gen_func_decl_spec (hash : HashOrder) (s : State) :
  exists ret name params,
    funcs (gen_func_decl hash s).2 = funcs s ∪ {[(ret, name, params)]} /\
    typedefs (gen_func_decl hash s).2 = typedefs s /\
    ctype_from (list_of_strs hash (typedefs s)) ret /\
    (gen_func_decl hash s).1 = ret +:+ " " +:+ name +:+ "(" +:+ params +:+ ");" +:+ EOL.
Proof.
  change (wp (gen_func_decl hash) (fun frag s' =>
    exists ret name params,
      funcs s' = funcs s ∪ {[(ret, name, params)]} /\
      typedefs s' = typedefs s /\
      ctype_from (list_of_strs hash (typedefs s)) ret /\
      frag = ret +:+ " " +:+ name +:+ "(" +:+ params +:+ ");" +:+ EOL) s).
  unfold gen_func_decl. wp_read.
  wp_draw (gpost_choose_ctype _) as ret Hret.
  wp_draw gpost_fresh_name as name Hname.
  wp_draw (gpost_randint 0 2) as k Hk.
  apply wp_bind. eapply wp_draw; [apply gpost_replicateG, gpost_func_param |].
  intros params ? _. cbv zeta. wp_write. apply wp_ret. st_simpl.
  eexists _, _, _. split_and!; [reflexivity | reflexivity | exact Hret | reflexivity].
Qed.

(** C10, amended. The return type of every tuple the function-declaration
    unit stores comes from [choose_ctype] over the base types and the current
    aliases, as it is or with the pointer star.  It is the string [void] only
    when an alias spelled [void] is in [typedefs], which the alias-defining
    unit can draw (four lower-case letters); while no alias is spelled
    [void], no stored return type is [void], and then every non-empty
    function-definition fragment holds a return statement. *)
Theorem stored_return_types (hash : HashOrder) (s : State) :
  (exists ret name params,
     funcs (gen_func_decl hash s).2 = funcs s ∪ {[(ret, name, params)]} /\
     ctype_from (list_of_strs hash (typedefs s)) ret /\
     (ret = "void" -> "void" ∈ typedefs s)) /\
  ("void" ∉ typedefs s -> (forall f, f ∈ funcs s -> f.1.1 <> "void") ->
   forall f, f ∈ funcs (gen_func_decl hash s).2 -> f.1.1 <> "void") /\
  ((forall f, f ∈ funcs s -> f.1.1 <> "void") ->
   (gen_func_def hash s).1 = "" \/ has_return (gen_func_def hash s).1).
Proof.
  destruct (gen_func_decl_spec hash s) as (ret & name & params & Hf & _ & Hret & _).
  assert (ret = "void" -> "void" ∈ typedefs s) as Hvoid.
  { intros Hv. by apply (elem_of_list_of_strs hash), (ctype_from_void _ ret). }
  split_and!.
  - exists ret, name, params. split_and!; [exact Hf | exact Hret | exact Hvoid].
  - intros Hno Hold f. rewrite Hf.
    intros [Hin| ->%elem_of_singleton]%elem_of_union; [by apply Hold |].
    cbn [fst]. intros Hv. apply Hno, Hvoid, Hv.
  - intros Hold. destruct (gen_func_def_spec hash s) as [Hempty Hsome].
    destruct (decide (funcs s = ∅)) as [He|Hne]; [left; by apply Hempty |].
    right. destruct (Hsome Hne) as (r & n & p & body & Hin & -> & _ & Hbody).
    destruct (Hbody (Hold _ Hin)) as (t & v & _ & _ & ->).
    exists (brace_line (st_style s) (r +:+ " " +:+ n +:+ "(" +:+ p +:+ ")")
            +:+ indent_of (st_style s)),
           (v +:+ ";" +:+ EOL +:+ "}" +:+ EOL +:+ EOL).
    by rewrite !str_app_assoc.
Qed.

Lemma stored_return_types_witness :
  (gen_func_def hash_fwd state_one_func).1 = "" \/
  has_return (gen_func_def hash_fwd state_one_func).1.
Proof.
  apply (proj2 (proj2 (stored_return_types hash_fwd state_one_func))).
  intros f Hf%elem_of_elements.
  assert (elements (funcs state_one_func) = [("int*", "aaaaaa", "void")]) as Hel
    by (vm_compute; reflexivity).
  rewrite Hel in Hf. apply list_elem_of_singleton in Hf as ->.
  cbn [fst]. discriminate.
Defined.

(** C10 as stated fails: the alias-defining unit draws the alias [void], the
    function-declaration unit stores a signature whose return type is that
    alias, and the function-definition unit takes the void branch: the
    fragment has the body comment and no return statement. *)
Lemma stored_return_types_counterexample :
  exists st parts,
    build_parts hash_fwd 3 cfg_void tape_void = Ok (st, parts) /\
    elements (funcs st) = [("void", "aaaaaa", "void")] /\
    parts = [PREAMBLE;
             "typedef int void;" +:+ EOL;
             "void aaaaaa(void);" +:+ EOL;
             "void aaaaaa(void) {" +:+ EOL +:+ "    // function body" +:+ EOL
               +:+ "}" +:+ EOL +:+ EOL;
             "int main(void) {" +:+ EOL
               +:+ "    printf(" +:+ String DQ "Hello, world!\n" +:+ String DQ ");" +:+ EOL
               +:+ "    return 0;" +:+ EOL +:+ "}" +:+ EOL].
Proof.
  eexists _, _. split; [vm_compute; reflexivity |].
  split; vm_compute; reflexivity.
Qed.

(** ** Determinism *)

(** C2 fails on the code: the same configuration and the same draws give two
    different texts under two enumeration orders of the alias set, because
    the variable's type is picked by position in [list(state["typedefs"])]. *)
Theorem build_c_depends_on_hash_order :
  exists text1 text2,
    build_c hash_fwd 3 cfg_alias tape_alias = Ok text1 /\
    build_c hash_bwd 3 cfg_alias tape_alias = Ok text2 /\
    startswith text1 (PREAMBLE +:+ "typedef int aaa;" +:+ EOL +:+ "typedef int baa;" +:+ EOL
                      +:+ "aaa aaaaaa;" +:+ EOL) = true /\
    startswith text2 (PREAMBLE +:+ "typedef int aaa;" +:+ EOL +:+ "typedef int baa;" +:+ EOL
                      +:+ "baa aaaaaa;" +:+ EOL) = true /\
    text1 <> text2.
Proof.
  eexists _, _. split; [vm_compute; reflexivity |].
  split; [vm_compute; reflexivity |].
  split; [vm_compute; reflexivity |].
  split; [vm_compute; reflexivity |].
  discriminate.
Qed.

(** Under one enumeration order [build_c] is a function of the configuration
    and of the random source, and it reads no other source of randomness. *)
Lemma build_c_deterministic_given_hash_order (hash : HashOrder) fuel cfg r out1 out2 :
  build_c hash fuel cfg r = out1 -> build_c hash fuel cfg r = out2 -> out1 = out2.
Proof. congruence. Qed.

(** * Further properties of the helpers and the units *)

(** ** Helpers *)

(** X1. [fresh_name(rng, n)] returns exactly [n] lower-case letters (none for
    a length that is not positive), and draws once per letter. *)
Theorem fresh_name_letters (n : Z) (r : Rng) :
  str_forall is_lower (fresh_name n r).1 = true /\
  String.length (fresh_name n r).1 = Z.to_nat n /\
  tape (fresh_name n r).2 = tape r /\
  cursor (fresh_name n r).2 = cursor r + Z.to_nat n.
Proof.
  destruct (gpost_fresh_name n r) as [Hl Hn]. split_and!; [done | done | |].
  - unfold fresh_name, gbind, gret.
    assert (forall k r0, tape (replicateG k (choice LETTERS "") r0).2 = tape r0) as Ht.
    { induction k as [|k IH]; intros r0; [done |].
      cbn [replicateG]. unfold gbind at 1.
      destruct (choice LETTERS "" r0) as [x r1] eqn:Hx.
      assert (tape r1 = tape r0) as <- by (by injection Hx as _ <-).
      unfold gbind, gret. specialize (IH r1).
      by destruct (replicateG k (choice LETTERS "") r1). }
    specialize (Ht (Z.to_nat n) r). by destruct (replicateG _ _ r).
  - unfold fresh_name, gbind, gret.
    assert (forall k r0, cursor (replicateG k (choice LETTERS "") r0).2 = cursor r0 + k) as Hc.
    { induction k as [|k IH]; intros r0; [simpl; lia |].
      cbn [replicateG]. unfold gbind at 1.
      destruct (choice LETTERS "" r0) as [x r1] eqn:Hx.
      assert (cursor r1 = S (cursor r0)) as Hr1 by (by injection Hx as _ <-).
      unfold gbind, gret. specialize (IH r1).
      destruct (replicateG k (choice LETTERS "") r1). simpl in *. lia. }
    specialize (Hc (Z.to_nat n) r). by destruct (replicateG _ _ r).
Qed.

Lemma gpost_choose_ctype_guarded (extra : list string) :
  gpost (choose_ctype extra) (ctype_guarded extra).
Proof.
  unfold choose_ctype.
  eapply gpost_bind; [apply (gpost_choice (BASE_CTYPES ++ extra)%list ""); done |].
  intros b Hb. eapply gpost_bind; [apply gpost_random |].
  intros u _. destruct (Qltb u POINTER_CHANCE); cbn [andb].
  - destruct (endswith b "*") eqn:He; apply gpost_ret; exists b; auto.
  - apply gpost_ret. exists b. auto.
Qed.

Lemma endswith_app_r (a b : string) (c : ascii) :
  endswith b c = true -> endswith (a +:+ b) c = true.
Proof.
  intros Hb. induction a as [|x a IH]; [done |].
  rewrite str_app_cons. cbn [endswith].
  destruct (a +:+ b) eqn:Hab; [| done].
  destruct a; [| done]. rewrite str_app_nil_l in Hab. by rewrite Hab in Hb.
Qed.

Lemma endswith_app_char (a : string) (x c : ascii) :
  endswith (a +:+ String x "") c = Ascii.eqb x c.
Proof.
  induction a as [|y a IH]; [done |].
  rewrite str_app_cons. cbn [endswith].
  destruct (a +:+ String x "") eqn:Hab; [by destruct a | done].
Qed.

Lemma str_app_inv_tail (a b : string) (x : ascii) :
  a +:+ String x "" = b +:+ String x "" -> a = b.
Proof.
  revert b. induction a as [|y a IH]; intros [|z b] Heq; try done.
  - rewrite str_app_nil_l, str_app_cons in Heq. injection Heq as _ Heq. by destruct b.
  - rewrite str_app_nil_l, str_app_cons in Heq. injection Heq as _ Heq. by destruct a.
  - rewrite !str_app_cons in Heq. injection Heq as -> Heq. f_equal. by apply IH.
Qed.

(** X2. [choose_ctype(rng, extra)] returns a base type or one of the extra
    aliases, unchanged or with one pointer star appended, and it never
    appends a star to a type that already ends with one: when no extra alias
    ends with a star the result never ends with two. *)
Theorem choose_ctype_single_star (extra : list string) (r : Rng) :
  ctype_guarded extra (choose_ctype extra r).1 /\
  (Forall (fun a => endswith a "*" = false) extra ->
   forall t, (choose_ctype extra r).1 <> t +:+ "**").
Proof.
  pose proof (gpost_choose_ctype_guarded extra r) as Hg. split; [done |].
  intros Hex t Ht. destruct Hg as (b & Hb & Hcase).
  assert (endswith b "*" = false) as Hbs.
  { apply elem_of_app in Hb as [Hb|Hb].
    - unfold BASE_CTYPES in Hb.
      repeat (apply elem_of_cons in Hb as [->|Hb]; [done |]). by apply elem_of_nil in Hb.
    - by apply (proj1 (Forall_forall _ _) Hex). }
  rewrite Ht in Hcase. destruct Hcase as [<-|[Heq _]].
  - change (t +:+ "**") with (t +:+ String "*" (String "*" "")) in Hbs.
    rewrite (endswith_app_r t "**" "*") in Hbs; done.
  - change "**" with ("*" +:+ "*") in Heq. rewrite <- str_app_assoc in Heq.
    apply str_app_inv_tail in Heq as <-.
    rewrite (endswith_app_r t "*" "*") in Hbs; done.
Qed.

Lemma choose_ctype_single_star_witness :
  (choose_ctype ["Foo"] (tape_of [5; 0]%Z)).1 = "Foo*" /\
  (choose_ctype ["Foo"] (tape_of [5; 0]%Z)).1 <> "Foo" +:+ "**".
Proof.
  split; [by vm_compute |].
  apply (proj2 (choose_ctype_single_star ["Foo"] (tape_of [5; 0]%Z))).
  by repeat constructor.
Defined.

(** ** Frames of the units *)

Lemma wp_draw_any {A} (g : Gen A) (Q : A -> State -> Prop) s :
  (forall a r, Q a (set_rng r s)) -> wp (draw g) Q s.
Proof. intros HQ. unfold wp, draw. destruct (g (rng s)) as [a r]. apply HQ. Qed.

(** Walks through a generator without looking at what is drawn. *)
Ltac wp_walk :=
  repeat (cbv beta zeta;
          lazymatch goal with
          | |- wp (sbind _ _) _ _ => apply wp_bind
          | |- wp (sret _) _ _ => apply wp_ret
          | |- wp (draw _) _ _ => apply wp_draw_any; intros ? ?
          | |- wp (get _) _ _ => apply wp_get
          | |- wp (modify _) _ _ => apply wp_modify
          | |- wp (if ?b then _ else _) _ _ => destruct b
          | |- wp (match ?x with _ => _ end) _ _ => destruct x
          end);
  cbv beta zeta.

Ltac unfold_generators :=
  cbv delta [gen_comment gen_include gen_define_macro gen_define_macro_func gen_typedef
             gen_enum gen_union gen_struct gen_var_decl gen_func_decl gen_func_def
             gen_switch gen_conditional gen_loop
             add_typedef add_struct add_func add_header clear_headers set_main_written].

Lemma lookup_kind_elem kind reg g :
  lookup_kind kind reg = Some g -> (kind, g) ∈ reg.
Proof.
  induction reg as [|[k g'] reg IH]; [done |]. cbn [lookup_kind].
  destruct (String.eqb_spec kind k) as [->|?].
  - intros [= ->]. left.
  - intros H. right. by apply IH.
Qed.

(** A property of every registered unit is proved unit by unit. *)
Lemma registry_forall (hash : HashOrder) (P : string -> GeneratorFn -> Prop) :
  Forall (fun kg => P kg.1 kg.2) (REGISTRY hash) ->
  forall kind g, lookup_kind kind (REGISTRY hash) = Some g -> P kind g.
Proof.
  intros HP kind g Hg%lookup_kind_elem.
  by apply (proj1 (Forall_forall _ _) HP (kind, g)).
Qed.

Ltac by_unit hash :=
  let kind := fresh "kind" in
  let g := fresh "g" in
  let Hg := fresh "Hg" in
  intros kind g Hg; pattern kind, g;
  apply (fun P H => registry_forall hash P H kind g Hg); clear kind g Hg;
  unfold REGISTRY;
  repeat (apply Forall_cons; split; [cbv beta; cbn [fst snd] |]); [.. | constructor].

Section Frames.

Variable hash : HashOrder.

(** What the entry-point unit does to the state. *)
Lemma gen_main_state (s : State) :
  if main_written s then gen_main hash s = ("", s)
  else exists r, (gen_main hash s).2 = set_rng r (with_main_written s).
Proof.
  destruct (main_written s) eqn:Hw.
  { unfold gen_main, sbind, get. by rewrite Hw. }
  change (wp (gen_main hash) (fun _ s' => exists r, s' = set_rng r (with_main_written s)) s).
  unfold gen_main. wp_read. rewrite Hw. wp_write. wp_read.
  apply wp_bind, wp_draw_any. intros k r.
  apply wp_bind. eapply wp_mono.
  { apply (wp_replicateS _ _ (rng_moved (with_main_written s)) (fun _ => True)); [| by eexists].
    intros s1 [r1 ->]. eapply wp_mono; [apply main_stmt_spec |].
    intros x s2 ([r2 ->] & _). split; [done | by eexists]. }
  intros body s' (_ & _ & [r' ->]). cbv zeta. apply wp_ret. by eexists.
Qed.

(** Only the function-declaration unit changes [funcs]. *)
Lemma registered_funcs_frame :
  forall kind g, lookup_kind kind (REGISTRY hash) = Some g ->
  kind <> "func_decl" -> forall s, funcs (g s).2 = funcs s.
Proof.
  by_unit hash; intros Hk s; [.. | pose proof (gen_main_state s) as Hm]; try done.
  all: lazymatch goal with
       | Hm : if _ then _ else _ |- _ =>
           destruct (main_written s); [by rewrite Hm | by destruct Hm as [r ->]]
       | |- funcs (?g ?s0).2 = _ =>
           change (wp g (fun _ s' => funcs s' = funcs s0) s0);
           unfold_generators; wp_walk; reflexivity
       end.
Qed.

End Frames.

(** X3. [random_value(rng, ctype)] returns a literal of [ctype] by the
    literal rules, on one line; for a pointer type it is [NULL] and nothing
    is drawn, for any other type exactly one value is drawn. *)
Theorem random_value_literal (t : string) (r : Rng) :
  literal_for t (random_value t r).1 /\
  nl (random_value t r).1 = 0 /\
  tape (random_value t r).2 = tape r /\
  (if endswith t "*"
   then random_value t r = ("NULL", r)
   else cursor (random_value t r).2 = S (cursor r)).
Proof.
  pose proof (gpost_random_value t r) as Hlit.
  split_and!; [done | by eapply literal_nl | |].
  - unfold random_value.
    destruct (endswith t "*"); [done |].
    destruct (String.eqb t "char"); [done |].
    by destruct (String.eqb t "int" || String.eqb t "long").
  - unfold random_value.
    destruct (endswith t "*"); [done |].
    destruct (String.eqb t "char"); [done |].
    by destruct (String.eqb t "int" || String.eqb t "long").
Qed.

(** ** Names of the declaring units *)

Lemma lower_char_lower c : is_lower c = true -> lower_char c = c.
Proof. by_cases_on_ascii c. Qed.

Lemma str_map_lower_char (s : string) :
  str_forall is_lower s = true -> str_map lower_char s = s.
Proof.
  induction s as [|c s IH]; simpl; [done |].
  intros [Hc Hs]%andb_prop. by rewrite (lower_char_lower c Hc), IH.
Qed.

Lemma capitalize_name n s :
  name_of_length n s -> 0 < n ->
  capitalized (capitalize s) /\ String.length (capitalize s) = n /\
  str_forall is_alpha (capitalize s) = true.
Proof.
  intros [Hl Hn] Hpos. destruct s as [|c s]; simpl in *; [lia |].
  apply andb_prop in Hl as [Hc Hs]. rewrite (str_map_lower_char s Hs).
  split_and!; [| done |].
  - exists (upper_char c), s. split_and!; [done | by apply upper_char_upper | done].
  - rewrite (upper_char_alpha c (lower_alpha c Hc)). simpl.
    revert Hs. apply str_forall_impl, lower_alpha.
Qed.

Lemma upper_char_of_alpha c : is_alpha c = true -> is_upper (upper_char c) = true.
Proof. by_cases_on_ascii c. Qed.

Lemma upper_all_upper (s : string) :
  str_forall is_alpha s = true ->
  str_forall is_upper (upper s) = true /\ String.length (upper s) = String.length s.
Proof.
  intros Hs. split; [| apply str_map_length].
  revert Hs. apply str_forall_map, upper_char_of_alpha.
Qed.

Lemma str_app_inv_head (a b c : string) : a +:+ b = a +:+ c -> b = c.
Proof.
  induction a as [|x a IH]; [done |].
  rewrite !str_app_cons. intros [= H]. by apply IH.
Qed.

Lemma str_of_Z_inj (a b : Z) : str_of_Z a = str_of_Z b -> a = b.
Proof.
  unfold str_of_Z. intros H. apply DecimalZ.to_int_inj.
  assert (forall z, NilZero.int_of_string (NilZero.string_of_int (Z.to_int z))
                    = Some (Z.to_int z)) as Hisi.
  { intros z. apply NilZero.isi; destruct z as [|p|p]; simpl; try done;
      intros [= Hp]; by apply DecimalPos.Unsigned.to_uint_nonnil in Hp. }
  apply (f_equal NilZero.int_of_string) in H. rewrite !Hisi in H. congruence.
Qed.

Lemma NoDup_range (k : Z) : NoDup (range k).
Proof.
  unfold range. apply NoDup_fmap_2; [| apply NoDup_seq].
  intros x y. apply Nat2Z.inj.
Qed.

Lemma elem_of_range (k i : Z) : i ∈ range k <-> (0 <= i < k)%Z.
Proof.
  unfold range. rewrite list_elem_of_fmap. split.
  - intros (j & -> & Hj%elem_of_seq). lia.
  - intros Hi. exists (Z.to_nat i). split; [lia |]. apply elem_of_seq. lia.
Qed.

(** ** The declaring units *)

Lemma gen_typedef_spec (s : State) :
  exists alias base r,
    (gen_typedef s).1 = "typedef " +:+ base +:+ " " +:+ alias +:+ ";" +:+ EOL /\
    (gen_typedef s).2 = set_rng r (with_typedef alias s) /\
    base ∈ BASE_CTYPES /\
    str_forall is_lower alias = true /\ 3 <= String.length alias <= 6.
Proof.
  change (wp gen_typedef (fun frag s' => exists alias base r,
    frag = "typedef " +:+ base +:+ " " +:+ alias +:+ ";" +:+ EOL /\
    s' = set_rng r (with_typedef alias s) /\
    base ∈ BASE_CTYPES /\
    str_forall is_lower alias = true /\ 3 <= String.length alias <= 6) s).
  unfold gen_typedef.
  wp_draw (gpost_randint 3 6) as n Hn.
  wp_draw gpost_fresh_name as alias Halias.
  wp_write.
  wp_draw (gpost_choice BASE_CTYPES "") as base Hbase.
  apply wp_ret. destruct Halias as [Hl Hlen].
  exists alias, base. eexists. split_and!; [done | reflexivity | done | done | lia | lia].
Qed.

(** X4. The alias-defining unit draws an alias of three to six lower-case
    letters and a base type, adds the alias (and nothing else) to the alias
    set, and emits the one-line definition of that alias. *)
Theorem gen_typedef_alias (s : State) :
  exists alias base r,
    (gen_typedef s).1 = "typedef " +:+ base +:+ " " +:+ alias +:+ ";" +:+ EOL /\
    (gen_typedef s).2 = set_rng r (with_typedef alias s) /\
    base ∈ BASE_CTYPES /\
    str_forall is_lower alias = true /\ 3 <= String.length alias <= 6.
Proof. exact (gen_typedef_spec s). Qed.

Lemma gen_enum_spec (s : State) :
  exists name k r,
    let items := map (fun i => upper name +:+ "_" +:+ str_of_Z i) (range k) in
    (gen_enum s).1 = "typedef enum { " +:+ join ", " items +:+ " } " +:+ name +:+ ";" +:+ EOL /\
    (gen_enum s).2 = set_rng r (with_typedef name s) /\
    capitalized name /\ 3 <= String.length name <= 6 /\
    str_forall is_upper (upper name) = true /\
    (2 <= k <= 4)%Z /\ length items = Z.to_nat k /\ NoDup items.
Proof.
  change (wp gen_enum (fun frag s' => exists name k r,
    let items := map (fun i => upper name +:+ "_" +:+ str_of_Z i) (range k) in
    frag = "typedef enum { " +:+ join ", " items +:+ " } " +:+ name +:+ ";" +:+ EOL /\
    s' = set_rng r (with_typedef name s) /\
    capitalized name /\ 3 <= String.length name <= 6 /\
    str_forall is_upper (upper name) = true /\
    (2 <= k <= 4)%Z /\ length items = Z.to_nat k /\ NoDup items) s).
  unfold gen_enum.
  wp_draw (gpost_randint 3 6) as n Hn.
  wp_draw gpost_fresh_name as name Hname. cbv zeta.
  wp_draw (gpost_randint 2 4) as k Hk.
  wp_write. apply wp_ret.
  destruct (capitalize_name _ _ Hname) as (Hcap & Hlen & Halpha); [lia |].
  exists (capitalize name), k. eexists. cbv zeta.
  split_and!; [done | reflexivity | done | lia | lia | | lia | lia | |].
  - by apply upper_all_upper.
  - by rewrite length_map, length_range.
  - apply (NoDup_fmap_2_strong _ (range k)); [| apply NoDup_range].
    intros x y _ _ Heq. by apply str_app_inv_head, str_app_inv_head, str_of_Z_inj in Heq.
Qed.

(** X5. The enumeration unit draws a capitalized name of three to six
    letters and two to four enumerators; the enumerators are the upper-cased
    name followed by the indices from zero, so they are pairwise distinct;
    the name (and nothing else) is added to the alias set. *)
Theorem gen_enum_enumerators (s : State) :
  exists name k r,
    let items := map (fun i => upper name +:+ "_" +:+ str_of_Z i) (range k) in
    (gen_enum s).1 = "typedef enum { " +:+ join ", " items +:+ " } " +:+ name +:+ ";" +:+ EOL /\
    (gen_enum s).2 = set_rng r (with_typedef name s) /\
    capitalized name /\ 3 <= String.length name <= 6 /\
    str_forall is_upper (upper name) = true /\
    (2 <= k <= 4)%Z /\ length items = Z.to_nat k /\ NoDup items.
Proof. exact (gen_enum_spec s). Qed.

(** [rng.sample(population, 2)] of a population without repeats: two
    different members. *)
Lemma gpost_sample2_distinct {A} (population : list A) (dflt : A) :
  NoDup population -> 2 <= length population ->
  gpost (sample2 population dflt)
    (fun l => exists x y, l = [x; y] /\ x ∈ population /\ y ∈ population /\ x <> y).
Proof.
  intros Hnd Hlen. unfold sample2. cbv zeta.
  eapply gpost_bind; [apply gpost_randbelow; lia |]. intros j Hj. cbv beta in Hj.
  eapply gpost_bind; [apply gpost_randbelow; lia |]. intros j' Hj'. cbv beta in Hj'.
  apply gpost_ret.
  set (n := length population) in *.
  assert (forall i, i < n -> population !! i = Some (nth i population dflt)) as Hnth.
  { intros i Hi. by destruct (nth_lookup_or_length population i dflt) as [?|?]; [| lia]. }
  pose proof (Hnth (Z.to_nat j) ltac:(lia)) as Hx.
  set (x := nth (Z.to_nat j) population dflt) in *.
  set (pool := <[_ := _]> population).
  assert (exists i, i < n /\ i <> Z.to_nat j /\ nth (Z.to_nat j') pool dflt = nth i population dflt)
    as (i & Hi & Hij & ->).
  { destruct (decide (Z.to_nat j' = Z.to_nat j)) as [Heq|Hne].
    - exists (n - 1). split_and!; [lia | lia |].
      rewrite Heq. apply nth_lookup_Some. unfold pool.
      apply list_lookup_insert_eq. fold n. lia.
    - exists (Z.to_nat j'). split_and!; [lia | done |].
      apply nth_lookup_Some. unfold pool.
      rewrite list_lookup_insert_ne; [| done]. apply Hnth. lia. }
  pose proof (Hnth i Hi) as Hy.
  exists x, (nth i population dflt). split_and!; [done | | |].
  - by eapply list_elem_of_lookup_2.
  - by eapply list_elem_of_lookup_2.
  - intros Heq. rewrite <- Heq in Hy. apply Hij. by eapply NoDup_lookup.
Qed.

Lemma gpost_union_field_text t :
  gpost (union_field t)
    (fun m => exists f, name_of_length 6 f /\ m = "    " +:+ t +:+ " " +:+ f +:+ ";").
Proof.
  unfold union_field. eapply gpost_bind; [apply gpost_fresh_name |].
  intros f Hf. apply gpost_ret. by exists f.
Qed.

Lemma gpost_mapG_2 {A B} (f : A -> Gen B) (x y : A) (P : A -> B -> Prop) :
  (forall a, gpost (f a) (P a)) ->
  gpost (mapG f [x; y]) (fun l => exists u v, l = [u; v] /\ P x u /\ P y v).
Proof.
  intros Hf r. cbn [mapG]. unfold gbind, gret.
  pose proof (Hf x r) as Hu. destruct (f x r) as [u r1].
  pose proof (Hf y r1) as Hv. destruct (f y r1) as [v r2].
  by exists u, v.
Qed.

Lemma BASE_CTYPES_NoDup : NoDup BASE_CTYPES.
Proof. by_decide. Qed.

Lemma gen_union_spec (s : State) :
  exists name t1 f1 t2 f2 r,
    (gen_union s).1 =
      "typedef union " +:+ name +:+ " {" +:+ EOL
      +:+ ("    " +:+ t1 +:+ " " +:+ f1 +:+ ";") +:+ EOL
      +:+ ("    " +:+ t2 +:+ " " +:+ f2 +:+ ";") +:+ EOL
      +:+ "} " +:+ name +:+ ";" +:+ EOL /\
    (gen_union s).2 = set_rng r (with_struct name s) /\
    capitalized name /\ 3 <= String.length name <= 6 /\
    t1 ∈ BASE_CTYPES /\ t2 ∈ BASE_CTYPES /\ t1 <> t2 /\
    name_of_length 6 f1 /\ name_of_length 6 f2.
Proof.
  change (wp gen_union (fun frag s' => exists name t1 f1 t2 f2 r,
    frag =
      "typedef union " +:+ name +:+ " {" +:+ EOL
      +:+ ("    " +:+ t1 +:+ " " +:+ f1 +:+ ";") +:+ EOL
      +:+ ("    " +:+ t2 +:+ " " +:+ f2 +:+ ";") +:+ EOL
      +:+ "} " +:+ name +:+ ";" +:+ EOL /\
    s' = set_rng r (with_struct name s) /\
    capitalized name /\ 3 <= String.length name <= 6 /\
    t1 ∈ BASE_CTYPES /\ t2 ∈ BASE_CTYPES /\ t1 <> t2 /\
    name_of_length 6 f1 /\ name_of_length 6 f2) s).
  unfold gen_union.
  wp_draw (gpost_randint 3 6) as n Hn.
  wp_draw gpost_fresh_name as name Hname. cbv zeta.
  apply wp_bind. eapply wp_draw.
  { apply (gpost_sample2_distinct BASE_CTYPES ""); [apply BASE_CTYPES_NoDup | simpl; lia]. }
  intros ts ? (t1 & t2 & -> & Ht1 & Ht2 & Hne).
  apply wp_bind. eapply wp_draw.
  { apply (gpost_mapG_2 union_field t1 t2
             (fun t m => exists f, name_of_length 6 f /\ m = "    " +:+ t +:+ " " +:+ f +:+ ";")).
    apply gpost_union_field_text. }
  intros fields ? (m1 & m2 & -> & (f1 & Hf1 & ->) & (f2 & Hf2 & ->)).
  wp_write. apply wp_ret.
  destruct (capitalize_name _ _ Hname) as (Hcap & Hlen & _); [lia |].
  exists (capitalize name), t1, f1, t2, f2. eexists.
  split_and!; [| reflexivity | done | lia | lia | done | done | done | done | done].
  unfold join. cbn [String.concat]. by rewrite !str_app_assoc.
Qed.

(** X6. The union unit draws a capitalized name of three to six letters and
    two members whose types are two different base types; each member has a
    name of six lower-case letters; the name (and nothing else) is added to
    the set of structure names. *)
Theorem gen_union_members (s : State) :
  exists name t1 f1 t2 f2 r,
    (gen_union s).1 =
      "typedef union " +:+ name +:+ " {" +:+ EOL
      +:+ ("    " +:+ t1 +:+ " " +:+ f1 +:+ ";") +:+ EOL
      +:+ ("    " +:+ t2 +:+ " " +:+ f2 +:+ ";") +:+ EOL
      +:+ "} " +:+ name +:+ ";" +:+ EOL /\
    (gen_union s).2 = set_rng r (with_struct name s) /\
    capitalized name /\ 3 <= String.length name <= 6 /\
    t1 ∈ BASE_CTYPES /\ t2 ∈ BASE_CTYPES /\ t1 <> t2 /\
    name_of_length 6 f1 /\ name_of_length 6 f2.
Proof. exact (gen_union_spec s). Qed.

Lemma gpost_struct_line_text :
  gpost struct_line (fun m => exists t f,
    t ∈ BASE_CTYPES /\ str_forall is_lower f = true /\ 3 <= String.length f <= 6 /\
    m = "    " +:+ t +:+ " " +:+ f +:+ ";").
Proof.
  unfold struct_line.
  eapply gpost_bind; [apply (gpost_choice BASE_CTYPES ""); done |]. intros t Ht.
  eapply gpost_bind; [apply (gpost_randint 3 6); lia |]. intros n Hn.
  eapply gpost_bind; [apply gpost_fresh_name |]. intros f [Hl Hlen].
  apply gpost_ret. cbv beta in Ht, Hn. exists t, f. split_and!; [done | done | lia | lia | done].
Qed.

Lemma gen_struct_spec (s : State) :
  exists name members r,
    (gen_struct s).1 =
      "typedef struct " +:+ name +:+ " {" +:+ EOL +:+ join EOL members +:+ EOL
      +:+ "} " +:+ name +:+ ";" +:+ EOL /\
    (gen_struct s).2 = set_rng r (with_struct name s) /\
    capitalized name /\ 3 <= String.length name <= 6 /\
    1 <= length members <= 3 /\
    Forall (fun m => exists t f,
              t ∈ BASE_CTYPES /\ str_forall is_lower f = true /\
              3 <= String.length f <= 6 /\
              m = "    " +:+ t +:+ " " +:+ f +:+ ";") members.
Proof.
  change (wp gen_struct (fun frag s' => exists name members r,
    frag =
      "typedef struct " +:+ name +:+ " {" +:+ EOL +:+ join EOL members +:+ EOL
      +:+ "} " +:+ name +:+ ";" +:+ EOL /\
    s' = set_rng r (with_struct name s) /\
    capitalized name /\ 3 <= String.length name <= 6 /\
    1 <= length members <= 3 /\
    Forall (fun m => exists t f,
              t ∈ BASE_CTYPES /\ str_forall is_lower f = true /\
              3 <= String.length f <= 6 /\
              m = "    " +:+ t +:+ " " +:+ f +:+ ";") members) s).
  unfold gen_struct.
  wp_draw (gpost_randint 3 6) as n Hn.
  wp_draw gpost_fresh_name as name Hname. cbv zeta.
  wp_draw (gpost_randint 1 3) as k Hk.
  apply wp_bind. eapply wp_draw; [apply gpost_replicateG, gpost_struct_line_text |].
  intros members ? [Hlen Hmembers].
  wp_write. apply wp_ret.
  destruct (capitalize_name _ _ Hname) as (Hcap & Hl & _); [lia |].
  exists (capitalize name), members. eexists.
  split_and!; [done | reflexivity | done | lia | lia | lia | lia | done].
Qed.

(** X7. The structure unit draws a capitalized name of three to six letters
    and one to three members, each of a base type with a name of three to six
    lower-case letters; the name (and nothing else) is added to the set of
    structure names. *)
Theorem gen_struct_members (s : State) :
  exists name members r,
    (gen_struct s).1 =
      "typedef struct " +:+ name +:+ " {" +:+ EOL +:+ join EOL members +:+ EOL
      +:+ "} " +:+ name +:+ ";" +:+ EOL /\
    (gen_struct s).2 = set_rng r (with_struct name s) /\
    capitalized name /\ 3 <= String.length name <= 6 /\
    1 <= length members <= 3 /\
    Forall (fun m => exists t f,
              t ∈ BASE_CTYPES /\ str_forall is_lower f = true /\
              3 <= String.length f <= 6 /\
              m = "    " +:+ t +:+ " " +:+ f +:+ ";") members.
Proof. exact (gen_struct_spec s). Qed.

(** ** The one-line text units *)

Lemma comment_and_macro_spec (s : State) :
  (exists tag word,
     (gen_comment s).1 = tag +:+ ": " +:+ word +:+ EOL /\
     tag ∈ TAGS /\ str_forall is_lower word = true /\ 3 <= String.length word <= 8 /\
     rng_moved s (gen_comment s).2) /\
  (exists name v,
     (gen_define_macro s).1 = "#define " +:+ name +:+ " " +:+ str_of_Z v +:+ EOL /\
     str_forall is_upper name = true /\ String.length name = 6 /\ (1 <= v <= 100)%Z /\
     rng_moved s (gen_define_macro s).2) /\
  (exists name p,
     (gen_define_macro_func s).1 =
       "#define " +:+ name +:+ "(" +:+ p +:+ ") ((" +:+ p +:+ ") * (" +:+ p +:+ "))" +:+ EOL /\
     str_forall is_upper name = true /\ String.length name = 6 /\ is_letter p /\
     rng_moved s (gen_define_macro_func s).2).
Proof.
  split_and!.
  - change (wp gen_comment (fun frag s' => exists tag word,
      frag = tag +:+ ": " +:+ word +:+ EOL /\
      tag ∈ TAGS /\ str_forall is_lower word = true /\ 3 <= String.length word <= 8 /\
      rng_moved s s') s).
    unfold gen_comment.
    wp_draw (gpost_choice TAGS "") as tag Htag.
    wp_draw (gpost_randint 3 8) as n Hn.
    wp_draw gpost_fresh_name as name Hname.
    apply wp_ret. destruct Hname as [Hl Hlen]. exists tag, name.
    split_and!; [done | done | done | lia | lia | by eexists].
  - change (wp gen_define_macro (fun frag s' => exists name v,
      frag = "#define " +:+ name +:+ " " +:+ str_of_Z v +:+ EOL /\
      str_forall is_upper name = true /\ String.length name = 6 /\ (1 <= v <= 100)%Z /\
      rng_moved s s') s).
    unfold gen_define_macro.
    wp_draw gpost_fresh_name as name Hname. cbv zeta.
    wp_draw (gpost_randint 1 100) as v Hv.
    apply wp_ret. destruct (upper_all_upper name (name_alpha _ _ Hname)) as [Hu Hlen].
    exists (upper name), v.
    split_and!; [done | done | rewrite Hlen; apply Hname | lia | lia | by eexists].
  - change (wp gen_define_macro_func (fun frag s' => exists name p,
      frag = "#define " +:+ name +:+ "(" +:+ p +:+ ") ((" +:+ p +:+ ") * (" +:+ p +:+ "))" +:+ EOL /\
      str_forall is_upper name = true /\ String.length name = 6 /\ is_letter p /\
      rng_moved s s') s).
    unfold gen_define_macro_func.
    wp_draw gpost_fresh_name as name Hname. cbv zeta.
    wp_draw gpost_fresh_name as p Hp.
    apply wp_ret. destruct (upper_all_upper name (name_alpha _ _ Hname)) as [Hu Hlen].
    exists (upper name), p.
    split_and!; [done | done | rewrite Hlen; apply Hname | | by eexists].
    destruct Hp as [Hl Hn]. by split.
Qed.

(** X8. The comment unit emits one of the four tags and a word of three to
    eight lower-case letters; the two macro units emit a macro whose name is
    six upper-case letters, with a value between 1 and 100, or with a
    one-letter parameter that the body squares.  None of the three touches
    the state besides the random source. *)
Theorem comment_and_macro_text (s : State) :
  (exists tag word,
     (gen_comment s).1 = tag +:+ ": " +:+ word +:+ EOL /\
     tag ∈ TAGS /\ str_forall is_lower word = true /\ 3 <= String.length word <= 8 /\
     rng_moved s (gen_comment s).2) /\
  (exists name v,
     (gen_define_macro s).1 = "#define " +:+ name +:+ " " +:+ str_of_Z v +:+ EOL /\
     str_forall is_upper name = true /\ String.length name = 6 /\ (1 <= v <= 100)%Z /\
     rng_moved s (gen_define_macro s).2) /\
  (exists name p,
     (gen_define_macro_func s).1 =
       "#define " +:+ name +:+ "(" +:+ p +:+ ") ((" +:+ p +:+ ") * (" +:+ p +:+ "))" +:+ EOL /\
     str_forall is_upper name = true /\ String.length name = 6 /\ is_letter p /\
     rng_moved s (gen_define_macro_func s).2).
Proof. exact (comment_and_macro_spec s). Qed.

(** ** What each unit does to the state *)

Section Footprint.

Variable hash : HashOrder.

Lemma gen_include_state (s : State) :
  exists r h, h ∈ HDRS /\
    ((gen_include s).2 = set_rng r (with_header h s) \/
     (gen_include s).2 = set_rng r (with_header h (without_headers s))).
Proof.
  change (wp gen_include (fun _ s' => exists r h, h ∈ HDRS /\
    (s' = set_rng r (with_header h s) \/
     s' = set_rng r (with_header h (without_headers s)))) s).
  unfold gen_include. wp_read. apply wp_bind.
  set (available := filter _ HDRS).
  assert (forall h, h ∈ available -> h ∈ HDRS) as Hsub.
  { intros h Hh. by apply list_elem_of_filter in Hh as [_ ?]. }
  case_bool_decide as Hav.
  - wp_write. apply wp_ret.
    wp_draw (gpost_choice HDRS "") as hdr Hhdr.
    wp_write. apply wp_ret. eexists _, hdr. split; [done |]. by right.
  - apply wp_ret.
    wp_draw (gpost_choice available "") as hdr Hhdr.
    wp_write. apply wp_ret. eexists _, hdr. split; [by apply Hsub |]. by left.
Qed.

Lemma registered_footprint :
  forall kind g, lookup_kind kind (REGISTRY hash) = Some g ->
  forall s, footprint kind s (g s).2.
Proof.
  by_unit hash; intros s; unfold footprint; cbn [String.eqb Ascii.eqb Bool.eqb orb andb].
  all: lazymatch goal with
       | |- context [gen_include] => apply gen_include_state
       | |- context [gen_main] =>
           pose proof (gen_main_state hash s) as Hm;
           destruct (main_written s); [left; by rewrite Hm | by right]
       | |- context [(?g ?s0).2] =>
           pattern ((g s0).2);
           lazymatch goal with
           | |- ?P _ => change (wp g (fun _ s' => P s') s0)
           end;
           cbv beta; unfold_generators; wp_walk;
           first [ apply rng_moved_refl | by eexists | by eexists _, _ ]
       end.
Qed.

End Footprint.

(** X9. The footprint of every registered unit: the typedef and enum units
    add one name to the alias set, the union and struct units one name to
    the set of structure names, the function-declaration unit one signature,
    the header unit one catalog header (to the set as it was, or to the
    cleared set), the entry-point unit sets its flag or does nothing, and
    the other eight units leave the state as it is; in every case only the
    random source moves besides. *)
Theorem unit_footprint (hash : HashOrder) (kind : string) (g : GeneratorFn) (s : State) :
  lookup_kind kind (REGISTRY hash) = Some g -> footprint kind s (g s).2.
Proof. intros Hg. exact (registered_footprint hash kind g Hg s). Qed.

Lemma unit_footprint_witness :
  exists r, (gen_loop (initial_state (tape_of [3; 1; 4]%Z) gnu)).2
            = set_rng r (initial_state (tape_of [3; 1; 4]%Z) gnu).
Proof.
  exact (unit_footprint hash_fwd "loop" gen_loop (initial_state (tape_of [3; 1; 4]%Z) gnu)
           eq_refl).
Defined.

(** ** Line counts of the fragments *)

Section Lines.

Variable hash : HashOrder.

Lemma gen_comment_lines s : nl (gen_comment s).1 = 1.
Proof.
  destruct (comment_and_macro_spec s) as [(tag & word & -> & Htag & Hw & _) _].
  destruct (TAGS_plain tag "" Htag) as [Ht _]. pose proof (nl_lower _ Hw). nl_lia.
Qed.

Lemma gen_include_lines s : nl (gen_include s).1 = 1.
Proof.
  destruct (gen_include_spec s) as (hdr & Hhdr & -> & _).
  pose proof (HDRS_plain _ Hhdr). nl_lia.
Qed.

Lemma upper_nl (s : string) : str_forall is_upper s = true -> nl s = 0.
Proof. intros H. apply nl_alpha. revert H. apply str_forall_impl, upper_alpha. Qed.

Lemma gen_define_macro_lines s : nl (gen_define_macro s).1 = 1.
Proof.
  destruct (comment_and_macro_spec s) as (_ & (name & v & -> & Hn & _) & _).
  pose proof (upper_nl _ Hn). nl_lia.
Qed.

Lemma gen_define_macro_func_lines s : nl (gen_define_macro_func s).1 = 1.
Proof.
  destruct (comment_and_macro_spec s) as (_ & _ & (name & p & -> & Hn & _ & [_ Hp] & _)).
  pose proof (upper_nl _ Hn). pose proof (nl_lower _ Hp). nl_lia.
Qed.

Lemma gen_typedef_lines s : nl (gen_typedef s).1 = 1.
Proof.
  destruct (gen_typedef_spec s) as (alias & base & r & -> & _ & Hb & Ha & _).
  pose proof (nl_lower _ Ha). nl_lia.
Qed.

Lemma capitalized_alpha (s : string) : capitalized s -> str_forall is_alpha s = true.
Proof.
  intros (c & t & -> & Hc & Ht). simpl. rewrite (upper_alpha c Hc). simpl.
  revert Ht. apply str_forall_impl, lower_alpha.
Qed.

Lemma gen_enum_lines s : nl (gen_enum s).1 = 1.
Proof.
  destruct (gen_enum_spec s) as (name & k & r & Hfrag & _ & Hcap & _ & Hup & Hk & _).
  cbv zeta in Hfrag. rewrite Hfrag.
  pose proof (nl_alpha _ (capitalized_alpha _ Hcap)) as Hn.
  pose proof (upper_nl _ Hup) as Hu.
  assert (nl_sum (map (fun i => upper name +:+ "_" +:+ str_of_Z i) (range k)) = 0) as Hitems.
  { apply nl_sum_map_zero. intros i. rewrite !nl_app, nl_str_of_Z, Hu. done. }
  nl_count. rewrite Hitems. lia.
Qed.

Lemma gen_union_lines s : nl (gen_union s).1 = 4.
Proof.
  destruct (gen_union_spec s)
    as (name & t1 & f1 & t2 & f2 & r & -> & _ & Hcap & _ & Ht1 & Ht2 & _ & Hf1 & Hf2).
  pose proof (nl_alpha _ (capitalized_alpha _ Hcap)) as Hn. nl_lia.
Qed.

Lemma gen_struct_lines s : 3 <= nl (gen_struct s).1 <= 5.
Proof.
  destruct (gen_struct_spec s) as (name & members & r & -> & _ & Hcap & _ & Hlen & Hm).
  pose proof (nl_alpha _ (capitalized_alpha _ Hcap)) as Hn.
  assert (nl_sum members = 0) as Hsum.
  { apply nl_sum_zero. eapply Forall_impl; [exact Hm |].
    intros m (t & f & Ht & Hf & _ & ->). pose proof (nl_lower _ Hf). nl_lia. }
  nl_count. rewrite Hsum. lia.
Qed.

Lemma gen_var_decl_lines s : wf s -> nl (gen_var_decl hash s).1 = 1.
Proof.
  intros Hwf.
  destruct (gen_var_decl_spec hash s) as (ctype & name & init & -> & Hc & Hname & Hinit & _).
  pose proof (nl_type _ (ctype_nl hash _ _ Hwf Hc)) as Hct.
  destruct Hinit as [->|(_ & t & v & _ & Hv & _ & ->)]; [nl_lia |].
  pose proof (literal_nl _ _ Hv). nl_lia.
Qed.

Lemma gen_func_decl_lines s : wf s -> nl (gen_func_decl hash s).1 = 1.
Proof.
  intros Hwf.
  destruct (gen_func_decl_spec hash s) as (ret & name & params & Hf & _ & _ & Hfrag).
  assert (wf (gen_func_decl hash s).2) as [_ Hwf'].
  { by apply (registered_unit_step hash "func_decl"). }
  destruct (Hwf' (ret, name, params)) as (Hr & Hn & Hp); [rewrite Hf; set_solver |].
  simpl in Hr, Hn, Hp. pose proof (nl_type _ Hr). rewrite Hfrag. nl_lia.
Qed.

Lemma gen_func_def_lines s :
  wf s -> funcs s <> ∅ ->
  nl (gen_func_def hash s).1 = (if brace_same (st_style s) then 1 else 2) + 3.
Proof.
  intros Hwf Hne.
  destruct (proj2 (gen_func_def_spec hash s) Hne)
    as (ret & name & params & body & Hin & -> & Hvoid & Hret).
  destruct (proj2 Hwf _ Hin) as (Hr & Hn & Hp). simpl in Hr, Hn, Hp.
  pose proof (nl_type _ Hr).
  assert (nl body = 1) as Hbody.
  { destruct (String.eqb_spec ret "void") as [Heq|Hneq].
    - rewrite (Hvoid Heq). nl_lia.
    - destruct (Hret Hneq) as (t & v & _ & Hv & ->). pose proof (literal_nl _ _ Hv). nl_lia. }
  nl_lia.
Qed.

Lemma gen_switch_lines s :
  (if brace_same (st_style s) then 1 else 2) + 9 <= nl (gen_switch s).1
  <= (if brace_same (st_style s) then 1 else 2) + 15.
Proof.
  change (wp gen_switch (fun frag _ =>
    (if brace_same (st_style s) then 1 else 2) + 9 <= nl frag
    <= (if brace_same (st_style s) then 1 else 2) + 15) s).
  unfold gen_switch.
  wp_draw gpost_fresh_name as var Hvar.
  wp_read.
  wp_draw (gpost_randint 2 4) as k Hk. cbv zeta.
  apply wp_ret. st_simpl.
  assert (nl_sum (map (switch_case (indent_of (st_style s)) var) (range k))
          = Z.to_nat k * 3) as Hcases.
  { rewrite (nl_sum_map_const 3), length_range; [done |].
    intros i. apply nl_switch_case; [apply nl_indent_of | by eapply name_nl]. }
  nl_count. rewrite Hcases. destruct (brace_same _); lia.
Qed.

Lemma gen_conditional_lines s :
  nl (gen_conditional s).1 = 2 * (if brace_same (st_style s) then 1 else 2) + 4.
Proof.
  change (wp gen_conditional (fun frag _ =>
    nl frag = 2 * (if brace_same (st_style s) then 1 else 2) + 4) s).
  unfold gen_conditional.
  wp_draw gpost_fresh_name as var Hvar.
  wp_draw (gpost_randint 0 10) as cmp_val Hcmp.
  wp_read. apply wp_ret. st_simpl. nl_lia.
Qed.

Lemma gen_loop_lines s :
  nl (gen_loop s).1 = (if brace_same (st_style s) then 1 else 2) + 2.
Proof.
  change (wp gen_loop (fun frag _ =>
    nl frag = (if brace_same (st_style s) then 1 else 2) + 2) s).
  unfold gen_loop.
  wp_draw gpost_fresh_name as var Hvar.
  wp_read.
  wp_draw (gpost_randint 1 5) as bound Hbound.
  apply wp_ret. st_simpl. nl_lia.
Qed.

Lemma gen_main_lines s :
  wf s -> main_written s = false ->
  (if brace_same (st_style s) then 1 else 2) + 3 <= nl (gen_main hash s).1
  <= (if brace_same (st_style s) then 1 else 2) + 5.
Proof.
  intros Hwf Hw.
  change (wp (gen_main hash) (fun frag _ =>
    (if brace_same (st_style s) then 1 else 2) + 3 <= nl frag
    <= (if brace_same (st_style s) then 1 else 2) + 5) s).
  unfold gen_main. wp_read. rewrite Hw. wp_write. wp_read.
  wp_draw (gpost_randint 1 3) as k Hk.
  apply wp_bind. eapply wp_mono.
  { apply (wp_replicateS _ _ (rng_moved (with_main_written s)) (fun x => nl x = 1));
      [| by eexists].
    intros s1 Hs1. eapply wp_mono; [apply main_stmt_spec |].
    intros x s2 ([r2 ->] & _ & Hx). destruct Hs1 as [r1 ->].
    split; [| by eexists]. apply Hx; [done | apply nl_indent_of]. }
  intros body s' (Hlen & Hbody & _). cbv zeta. apply wp_ret. st_simpl.
  pose proof (nl_sum_const 1 _ Hbody) as Hsum.
  nl_count. rewrite Hsum, Hlen. destruct (brace_same _); lia.
Qed.

Lemma registered_lines :
  forall kind g, lookup_kind kind (REGISTRY hash) = Some g ->
  forall s, wf s ->
  ((g s).1 = "" /\
   ((kind = "func_def" /\ funcs s = ∅) \/ (kind = "main" /\ main_written s = true))) \/
  (~ ((kind = "func_def" /\ funcs s = ∅) \/ (kind = "main" /\ main_written s = true)) /\
   (fragment_lines kind (st_style s)).1 <= nl (g s).1
   <= (fragment_lines kind (st_style s)).2).
Proof.
  by_unit hash; intros s Hwf;
    unfold fragment_lines; cbn [String.eqb Ascii.eqb Bool.eqb fst snd].
  - right. split; [by intros [[? _]|[? _]] |]. rewrite gen_comment_lines. lia.
  - right. split; [by intros [[? _]|[? _]] |]. rewrite gen_include_lines. lia.
  - right. split; [by intros [[? _]|[? _]] |]. rewrite gen_define_macro_lines. lia.
  - right. split; [by intros [[? _]|[? _]] |]. rewrite gen_define_macro_func_lines. lia.
  - right. split; [by intros [[? _]|[? _]] |]. rewrite gen_typedef_lines. lia.
  - right. split; [by intros [[? _]|[? _]] |]. rewrite gen_enum_lines. lia.
  - right. split; [by intros [[? _]|[? _]] |]. rewrite gen_union_lines. lia.
  - right. split; [by intros [[? _]|[? _]] |]. apply gen_struct_lines.
  - right. split; [by intros [[? _]|[? _]] |]. rewrite gen_var_decl_lines; [lia | done].
  - right. split; [by intros [[? _]|[? _]] |]. rewrite gen_func_decl_lines; [lia | done].
  - destruct (decide (funcs s = ∅)) as [He|Hne].
    + left. split; [| by left]. by rewrite gen_func_def_empty.
    + right. split; [by intros [[_ ?]|[? _]] |]. rewrite gen_func_def_lines; [lia | done ..].
  - right. split; [by intros [[? _]|[? _]] |]. apply gen_switch_lines.
  - right. split; [by intros [[? _]|[? _]] |]. rewrite gen_conditional_lines. lia.
  - right. split; [by intros [[? _]|[? _]] |]. rewrite gen_loop_lines. lia.
  - destruct (main_written s) eqn:Hw.
    + left. split; [| by right]. pose proof (gen_main_state hash s) as Hm.
      rewrite Hw in Hm. by rewrite Hm.
    + right. split; [by intros [[? _]|[_ ?]] |]. by apply gen_main_lines.
Qed.

End Lines.

(** X10. Line counts.  From a well-formed state a registered unit returns
    the empty fragment exactly in two cases: the function-definition unit
    while no signature is stored, and the entry-point unit once the entry
    point is written.  Otherwise the number of line breaks of the fragment
    lies in the range of its kind: 1 for the eight one-line units, 4 for a
    union, 3 to 5 for a struct, and for the braced units, with [b] the lines
    of the opening brace (1, or 2 when the brace is on a line of its own),
    [b + 3] for a function definition, [b + 9] to [b + 15] for a switch,
    [2 b + 4] for a conditional, [b + 2] for a loop and [b + 3] to [b + 5]
    for the entry point. *)
Theorem fragment_line_counts (hash : HashOrder) (kind : string) (g : GeneratorFn)
    (s : State) :
  lookup_kind kind (REGISTRY hash) = Some g -> wf s ->
  ((g s).1 = "" <->
   (kind = "func_def" /\ funcs s = ∅) \/ (kind = "main" /\ main_written s = true)) /\
  ((g s).1 <> "" ->
   (fragment_lines kind (st_style s)).1 <= nl (g s).1
   <= (fragment_lines kind (st_style s)).2).
Proof.
  intros Hg Hwf.
  assert (1 <= (fragment_lines kind (st_style s)).1) as Hlo.
  { unfold fragment_lines.
    repeat match goal with |- context [String.eqb ?a ?b] => destruct (String.eqb a b) end;
      simpl; lia. }
  destruct (registered_lines hash kind g Hg s Hwf) as [[He Hc]|[Hc Hn]].
  - split; [done |]. by intros [].
  - split; [| done]. split; [| done].
    intros He. rewrite He in Hn. simpl in Hn. lia.
Qed.

Lemma fragment_line_counts_witness :
  wf (initial_state (tape_of [0; 0; 0; 0; 0; 0; 2]%Z) allman) /\
  11 <= nl (gen_switch (initial_state (tape_of [0; 0; 0; 0; 0; 0; 2]%Z) allman)).1 <= 17.
Proof.
  split; [apply wf_initial |].
  apply (fragment_line_counts hash_fwd "switch" gen_switch
           (initial_state (tape_of [0; 0; 0; 0; 0; 0; 2]%Z) allman) eq_refl (wf_initial _ _)).
  intros H. vm_compute in H. discriminate H.
Defined.

(** ** Configurations of the assembly *)

Lemma footprint_frames kind s s' :
  footprint kind s s' ->
  st_style s' = st_style s /\
  (String.eqb kind "typedef" || String.eqb kind "enum" = false -> typedefs s' = typedefs s) /\
  (String.eqb kind "func_decl" = false -> funcs s' = funcs s) /\
  (String.eqb kind "include" = false -> headers s' = headers s) /\
  (forall h, h ∈ headers s' -> h ∈ headers s \/ h ∈ HDRS).
Proof.
  unfold footprint.
  destruct (String.eqb kind "typedef" || String.eqb kind "enum").
  { intros (r & a & ->). split_and!; st_simpl; auto; done. }
  destruct (String.eqb kind "union" || String.eqb kind "struct").
  { intros (r & a & ->). split_and!; st_simpl; auto; done. }
  destruct (String.eqb kind "func_decl").
  { intros (r & f & ->). split_and!; st_simpl; auto; done. }
  destruct (String.eqb kind "include").
  { intros (r & h & Hh & [-> | ->]); split_and!; st_simpl; auto; try done.
    - intros x [?| ->%elem_of_singleton]%elem_of_union; auto.
    - intros x [?%elem_of_empty| ->%elem_of_singleton]%elem_of_union; [done | auto]. }
  destruct (String.eqb kind "main").
  { intros [-> | [r ->]]; split_and!; st_simpl; auto; done. }
  intros [r ->]. split_and!; st_simpl; auto; done.
Qed.

Lemma endswith_app_eol (a : string) : endswith (a +:+ EOL) LF = true.
Proof. by apply endswith_app_r. Qed.

Ltac ends_lf := repeat apply endswith_app_r; reflexivity.

Section Reachable.

Variable hash : HashOrder.

(** Every fragment ends with a line break. *)
Lemma registered_ends_lf :
  forall kind g, lookup_kind kind (REGISTRY hash) = Some g ->
  forall s, (g s).1 = "" \/ endswith (g s).1 LF = true.
Proof.
  by_unit hash; intros s.
  all: lazymatch goal with
       | |- context [(?g ?s0).1] =>
           change (wp g (fun frag _ => frag = "" \/ endswith frag LF = true) s0)
       end.
  15: { unfold gen_main. wp_read. destruct (main_written s); [apply wp_ret; by left |].
        wp_write. wp_read. apply wp_bind, wp_draw_any. intros k r.
        apply wp_bind. unfold wp. cbv zeta. unfold sret. cbn [fst snd]. right. ends_lf. }
  all: unfold_generators; wp_walk; first [ by left | right; ends_lf ].
Qed.

End Reachable.

(** ** Separators in stored parameter lists *)

Lemma count_char_app c (a b : string) :
  count_char c (a +:+ b) = count_char c a + count_char c b.
Proof.
  induction a as [|x a IH]; [done |].
  rewrite str_app_cons. simpl. rewrite IH. lia.
Qed.

Lemma count_char_forall c (p : ascii -> bool) (s : string) :
  p c = false -> str_forall p s = true -> count_char c s = 0.
Proof.
  intros Hc. induction s as [|x s IH]; simpl; [done |].
  intros [Hx Hs]%andb_prop. rewrite (IH Hs).
  destruct (Ascii.eqb_spec x c) as [->|]; [congruence | done].
Qed.

Lemma split_length c (s : string) : length (split c s) = S (count_char c s).
Proof.
  induction s as [|x s IH]; simpl; [done |].
  destruct (Ascii.eqb x c); simpl; [by rewrite IH |].
  destruct (split c s); simpl in *; [done | lia].
Qed.

Lemma count_char_join c (sep : string) (l : list string) :
  Forall (fun p => count_char c p = 0) l ->
  count_char c (join sep l) = (length l - 1) * count_char c sep.
Proof.
  unfold join. induction 1 as [|x [|y l] Hx Hl IH]; [done | simpl; lia |].
  change (String.concat sep (x :: y :: l)) with (x +:+ sep +:+ String.concat sep (y :: l)).
  rewrite !count_char_app, Hx, IH. simpl. lia.
Qed.

Lemma map_const_replicate {A B} (b : B) (l : list A) :
  map (fun _ => b) l = replicate (length l) b.
Proof. induction l as [|x l IH]; simpl; [done | by rewrite IH]. Qed.

Lemma param_text_counts p :
  param_text p -> count_char "," p = 0 /\ 1 <= count_char " " p.
Proof.
  intros (t & n & -> & Ht & [Hn _]). rewrite !count_char_app. split.
  - rewrite (count_char_forall "," type_char t), (count_char_forall "," is_lower n); done.
  - simpl. lia.
Qed.

(** The arguments written for a stored parameter text: one zero for each
    parameter. *)
Lemma call_args_arity (ps : list string) :
  Forall param_text ps ->
  call_args (params_str_of ps) = join ", " (replicate (length ps) "0").
Proof.
  intros Hps. unfold params_str_of, call_args. case_bool_decide as Hnil.
  { by rewrite Hnil. }
  assert (Forall (fun p => count_char "," p = 0) ps) as Hcommas.
  { eapply Forall_impl; [exact Hps |]. intros p Hp. by apply param_text_counts. }
  assert (String.eqb (join ", " ps) "void" = false) as ->.
  { apply String.eqb_neq. intros Heq.
    assert (1 <= count_char " " (join ", " ps)) as Hsp; [| rewrite Heq in Hsp; simpl in Hsp; lia].
    destruct Hps as [|p ps Hp _]; [done |].
    destruct (param_text_counts p Hp) as [_ Hp1].
    unfold join. destruct ps as [|q ps]; [done |].
    change (String.concat ", " (p :: q :: ps)) with (p +:+ ", " +:+ String.concat ", " (q :: ps)).
    rewrite count_char_app. lia. }
  rewrite map_const_replicate, split_length, (count_char_join "," ", " ps Hcommas).
  assert (S ((length ps - 1) * count_char "," ", ") = length ps) as ->; [| done].
  destruct ps; [done | simpl; lia].
Qed.

(** ** The invariant of the configurations *)

Lemma nl_positive_eqb (s : string) : 1 <= nl s -> String.eqb s "" = false.
Proof. intros H. apply String.eqb_neq. by apply nl_positive_nonempty. Qed.

Lemma gpost_func_param_text (extra : list string) :
  Forall (fun a => str_forall is_alpha a = true) extra ->
  gpost (func_param extra) param_text.
Proof.
  intros Hex. unfold func_param.
  eapply gpost_bind; [apply gpost_choose_ctype |]. intros t Ht.
  eapply gpost_bind; [apply gpost_fresh_name |]. intros n Hn.
  apply gpost_ret. exists t, n. split_and!; [done | | done].
  by apply (ctype_from_type_char extra).
Qed.

Section Invariant.

Variable hash : HashOrder.

(** The function-declaration unit, with the parameters it draws. *)
Lemma gen_func_decl_params (s : State) :
  wf s ->
  exists ret name ps r,
    (gen_func_decl hash s).1 = prototype (ret, name, params_str_of ps) /\
    (gen_func_decl hash s).2 = set_rng r (with_func (ret, name, params_str_of ps) s) /\
    length ps <= 2 /\ Forall param_text ps /\
    ctype_from (list_of_strs hash (typedefs s)) ret /\ name_of_length 6 name.
Proof.
  intros Hwf.
  change (wp (gen_func_decl hash) (fun frag s' => exists ret name ps r,
    frag = prototype (ret, name, params_str_of ps) /\
    s' = set_rng r (with_func (ret, name, params_str_of ps) s) /\
    length ps <= 2 /\ Forall param_text ps /\
    ctype_from (list_of_strs hash (typedefs s)) ret /\ name_of_length 6 name) s).
  unfold gen_func_decl.
  wp_read.
  wp_draw (gpost_choose_ctype _) as ret Hret.
  wp_draw gpost_fresh_name as name Hname.
  wp_draw (gpost_randint 0 2) as k Hk.
  apply wp_bind. eapply wp_draw.
  { apply gpost_replicateG, gpost_func_param_text. by apply typedefs_listed_alpha. }
  intros params ? [Hlen Hparams]. cbv zeta.
  wp_write. apply wp_ret.
  exists ret, name, params. eexists.
  split_and!; [reflexivity | reflexivity | lia | done | done | done].
Qed.

Lemma elem_of_parts_step (parts : list string) (frag x : string) :
  x ∈ parts -> x ∈ (if String.eqb frag "" then parts else (parts ++ [frag])%list).
Proof. intros Hx. destruct (String.eqb frag ""); [done |]. apply elem_of_app. by left. Qed.

Lemma run_inv_step kind g s parts :
  lookup_kind kind (REGISTRY hash) = Some g ->
  run_inv s parts ->
  run_inv (g s).2 (if String.eqb (g s).1 "" then parts else (parts ++ [(g s).1])%list).
Proof.
  intros Hg [Hwf Hdecl Hparams Hdef Hhdr Hhead Hlf].
  pose proof (registered_footprint hash kind g Hg s) as Hfp.
  apply footprint_frames in Hfp as (_ & Htd & Hfn & _ & Hh).
  pose proof (registered_unit_step hash kind g s Hg Hwf) as [_ Hwf' _ _].
  pose proof (registered_ends_lf hash kind g Hg s) as Hends.
  constructor.
  - done.
  - destruct (String.eqb_spec kind "func_decl") as [->|_].
    + injection Hg as <-.
      destruct (gen_func_decl_params s Hwf) as (ret & name & ps & r & Hfrag & Hs' & _).
      rewrite Hs'. st_simpl.
      intros f [Hf| ->%elem_of_singleton]%elem_of_union.
      * by apply elem_of_parts_step, Hdecl.
      * rewrite nl_positive_eqb; [| rewrite gen_func_decl_lines; [lia | done]].
        apply elem_of_app. right. rewrite Hfrag. by apply list_elem_of_singleton.
    + rewrite (Hfn eq_refl). intros f Hf. by apply elem_of_parts_step, Hdecl.
  - destruct (String.eqb_spec kind "func_decl") as [->|_].
    + injection Hg as <-.
      destruct (gen_func_decl_params s Hwf) as (ret & name & ps & r & _ & Hs' & Hlen & Hps & _).
      rewrite Hs'. st_simpl.
      intros f [Hf| ->%elem_of_singleton]%elem_of_union; [by apply Hparams |].
      by exists ps.
    + by rewrite (Hfn eq_refl).
  - destruct (String.eqb_spec kind "typedef") as [->|_];
      [| destruct (String.eqb_spec kind "enum") as [->|_]].
    + injection Hg as <-.
      destruct (gen_typedef_spec s) as (alias & base & r & Hfrag & Hs' & _).
      rewrite Hs'. st_simpl.
      intros a [Ha| ->%elem_of_singleton]%elem_of_union.
      * destruct (Hdef a Ha) as (p & Hp & Hpa). exists p. split; [| done].
        by apply elem_of_parts_step.
      * exists (gen_typedef s).1. split.
        -- rewrite nl_positive_eqb; [| by rewrite gen_typedef_lines].
           apply elem_of_app. right. by apply list_elem_of_singleton.
        -- rewrite Hfrag. by exists base.
    + injection Hg as <-.
      destruct (gen_enum_spec s) as (name & k & r & Hfrag & Hs' & _). cbv zeta in Hfrag.
      rewrite Hs'. st_simpl.
      intros a [Ha| ->%elem_of_singleton]%elem_of_union.
      * destruct (Hdef a Ha) as (p & Hp & Hpa). exists p. split; [| done].
        by apply elem_of_parts_step.
      * exists (gen_enum s).1. split.
        -- rewrite nl_positive_eqb; [| by rewrite gen_enum_lines].
           apply elem_of_app. right. by apply list_elem_of_singleton.
        -- rewrite Hfrag.
           exists ("enum { " +:+
                   join ", " (map (fun i => upper name +:+ "_" +:+ str_of_Z i) (range k))
                   +:+ " }").
           by rewrite !str_app_assoc.
    + rewrite (Htd eq_refl). intros a Ha.
      destruct (Hdef a Ha) as (p & Hp & Hpa). exists p. split; [| done].
      by apply elem_of_parts_step.
  - intros h [?|?]%Hh; auto.
  - destruct (String.eqb (g s).1 ""); [done |].
    destruct parts; [done | exact Hhead].
  - destruct (String.eqb_spec (g s).1 "") as [|Hne]; [done |].
    apply Forall_app. split; [done |]. constructor; [| done].
    by destruct Hends.
Qed.

Lemma reachable_inv st parts : reachable hash st parts -> run_inv st parts.
Proof.
  induction 1 as [r sty|st parts r _ IH|st parts kind g _ IH Hg].
  - constructor; try (intros x Hx; simpl in Hx; by apply elem_of_empty in Hx).
    + apply wf_initial.
    + done.
    + by repeat constructor.
  - by destruct IH.
  - by apply (run_inv_step kind).
Qed.

(** The loop and the builder only pass through configurations of the
    assembly. *)
Lemma assemble_reachable fuel target kinds ws st parts lines st' parts' lines' :
  reachable hash st parts ->
  assemble hash fuel target kinds ws st parts lines = Ok (st', parts', lines') ->
  reachable hash st' parts'.
Proof.
  revert st parts lines.
  induction fuel as [|fuel IH]; intros st parts lines Hr; cbn [assemble].
  - destruct (Z.ltb_spec lines target); [done |]. by intros [= <- <- <-].
  - destruct (Z.ltb_spec lines target) as [Hlt|?]; [| by intros [= <- <- <-]].
    destruct (draw (choices kinds ws "") st) as [[kind|] st1] eqn:Hdraw; [| done].
    destruct (lookup_kind kind (REGISTRY hash)) as [g|] eqn:Hg; [| done].
    assert (exists r, st1 = set_rng r st) as [r ->].
    { unfold draw in Hdraw. destruct (choices _ _ _ _) as [o r].
      injection Hdraw as _ <-. by eexists. }
    pose proof (reach_unit hash _ _ kind g (reach_draw hash _ _ r Hr) Hg) as Hstep.
    destruct (g (set_rng r st)) as [frag st2]. cbn [fst snd] in Hstep.
    destruct (String.eqb frag ""); intros Hres; exact (IH _ _ _ Hstep Hres).
Qed.

Lemma build_parts_reachable fuel cfg r st parts :
  build_parts hash fuel cfg r = Ok (st, parts) -> reachable hash st parts.
Proof.
  rewrite build_parts_unfold. destruct (chosen_style cfg r) as [sty r1].
  destruct (weights cfg) as [|w ws]; [done |].
  destruct (assemble _ _ _ _ _ _ _ _) as [[[st' parts'] lines']| | |] eqn:Hasm; try done.
  apply assemble_reachable in Hasm; [| apply reach_init].
  destruct (main_written st') eqn:Hmw.
  - by intros [= <- <-].
  - intros [= <- <-].
    pose proof (reach_unit hash _ _ "main" (gen_main hash) Hasm eq_refl) as Hstep.
    rewrite nl_positive_eqb in Hstep; [done |].
    pose proof (gen_main_contract hash st') as Hm. unfold wp in Hm.
    rewrite Hmw in Hm. destruct Hm as (_ & _ & _ & _ & Hlow & _). lia.
Qed.

End Invariant.

(** ** Declaration before use *)

Lemma startswith_app (a b : string) : startswith (a +:+ b) a = true.
Proof.
  induction a as [|x a IH]; [rewrite str_app_nil_l; by destruct b |].
  rewrite str_app_cons. cbn [startswith]. by rewrite Ascii.eqb_refl, IH.
Qed.

Lemma startswith_brace_line sty (header rest : string) :
  startswith (brace_line sty header +:+ rest) header = true.
Proof.
  unfold brace_line. destruct (brace_same sty); rewrite !str_app_assoc; apply startswith_app.
Qed.

(** X11. Declaration before use.  At every point of every run, the
    prototype of every stored signature and a definition of every stored
    alias are among the parts already assembled.  Hence a function
    definition emitted next opens with the header of a signature whose
    prototype precedes it, and the type of a variable declared next is a
    base type or an alias defined by an earlier part, possibly with the
    pointer star.  The configurations a returned run ends in are such
    points. *)
Theorem declared_before_use (hash : HashOrder) :
  (forall fuel cfg r st parts,
     build_parts hash fuel cfg r = Ok (st, parts) -> reachable hash st parts) /\
  (forall st parts,
     reachable hash st parts ->
     (forall f, f ∈ funcs st -> prototype f ∈ parts) /\
     (forall a, a ∈ typedefs st -> exists p, p ∈ parts /\ defines p a) /\
     ((gen_func_def hash st).1 = "" \/
      exists f, f ∈ funcs st /\ prototype f ∈ parts /\
        startswith (gen_func_def hash st).1 (signature_text f) = true) /\
     (exists b rest,
        (b ∈ BASE_CTYPES \/ exists p, p ∈ parts /\ defines p b) /\
        ((gen_var_decl hash st).1 = b +:+ " " +:+ rest \/
         (gen_var_decl hash st).1 = b +:+ "*" +:+ " " +:+ rest))).
Proof.
  split; [apply build_parts_reachable |].
  intros st parts [Hwf Hdecl _ Hdef _ _ _]%reachable_inv.
  split_and!; [done | done | |].
  - destruct (decide (funcs st = ∅)) as [He|Hne].
    { left. by rewrite gen_func_def_empty. }
    right. destruct (proj2 (gen_func_def_spec hash st) Hne)
      as (ret & name & params & body & Hin & -> & _).
    exists (ret, name, params). split_and!; [done | by apply Hdecl |].
    apply startswith_brace_line.
  - destruct (gen_var_decl_spec hash st) as (ctype & name & init & -> & (b & Hb & Hc) & _).
    exists b, (name +:+ init +:+ ";" +:+ EOL). split.
    + apply elem_of_app in Hb as [Hb|Hb%elem_of_list_of_strs]; [by left | right; by apply Hdef].
    + destruct Hc as [-> | ->]; [by left | right; by rewrite !str_app_assoc].
Qed.

Lemma declared_before_use_witness :
  exists st parts,
    build_parts hash_fwd 3 cfg_void tape_void = Ok (st, parts) /\
    reachable hash_fwd st parts /\
    ("void", "aaaaaa", "void") ∈ funcs st /\
    prototype ("void", "aaaaaa", "void") ∈ parts /\
    "void" ∈ typedefs st /\
    exists p, p ∈ parts /\ defines p "void".
Proof.
  assert (exists st parts,
            build_parts hash_fwd 3 cfg_void tape_void = Ok (st, parts) /\
            ("void", "aaaaaa", "void") ∈ funcs st /\ "void" ∈ typedefs st)
    as (st & parts & Hrun & Hf & Ht).
  { eexists _, _. split; [vm_compute; reflexivity |]. split; by_decide. }
  pose proof (proj1 (declared_before_use hash_fwd) _ _ _ _ _ Hrun) as Hreach.
  destruct (proj2 (declared_before_use hash_fwd) st parts Hreach) as (Hfs & Hts & _).
  exists st, parts.
  split_and!; [exact Hrun | exact Hreach | exact Hf | by apply Hfs | exact Ht | by apply Hts].
Defined.

(** ** Calls in the entry point *)

Lemma join_empty_cons (x : string) (l : list string) : join "" (x :: l) = x +:+ join "" l.
Proof. unfold join. destruct l; simpl; [by rewrite str_app_nil_r | done]. Qed.

Section Calls.

Variable hash : HashOrder.

Lemma main_stmt_text indent s :
  (main_stmt hash indent s).1
    = indent +:+ "printf(" +:+ String DQ "Hello, world!\n" +:+ String DQ ");" +:+ EOL \/
  exists ret fname pstr,
    (ret, fname, pstr) ∈ funcs s /\
    (main_stmt hash indent s).1 = indent +:+ fname +:+ "(" +:+ call_args pstr +:+ ");" +:+ EOL.
Proof.
  change (wp (main_stmt hash indent) (fun x _ =>
    x = indent +:+ "printf(" +:+ String DQ "Hello, world!\n" +:+ String DQ ");" +:+ EOL \/
    exists ret fname pstr,
      (ret, fname, pstr) ∈ funcs s /\
      x = indent +:+ fname +:+ "(" +:+ call_args pstr +:+ ");" +:+ EOL) s).
  unfold main_stmt. wp_read. apply wp_bind.
  case_bool_decide as Hfs.
  { do 2 apply wp_ret. by left. }
  wp_draw gpost_random as u Hu. apply wp_ret.
  destruct (Qltb u (1 # 2)); [| apply wp_ret; by left].
  apply wp_bind. eapply wp_draw.
  { apply (gpost_choice (list_of_sigs hash (funcs s)) NO_SIG).
    by apply list_of_sigs_nonempty. }
  intros [[ret fname] pstr] ? Hin%elem_of_list_of_sigs. cbv zeta.
  apply wp_ret. right. by exists ret, fname, pstr.
Qed.

Lemma main_stmt_arity st parts indent s :
  reachable hash st parts -> funcs s = funcs st ->
  (main_stmt hash indent s).1
    = indent +:+ "printf(" +:+ String DQ "Hello, world!\n" +:+ String DQ ");" +:+ EOL \/
  exists ret fname ps,
    (ret, fname, params_str_of ps) ∈ funcs st /\ length ps <= 2 /\ Forall param_text ps /\
    (main_stmt hash indent s).1
      = indent +:+ fname +:+ "(" +:+ join ", " (replicate (length ps) "0") +:+ ");" +:+ EOL.
Proof.
  intros [_ _ Hparams _ _ _ _]%reachable_inv Hfs.
  destruct (main_stmt_text indent s) as [?|(ret & fname & pstr & Hin & Hx)]; [by left |].
  right. rewrite Hfs in Hin. destruct (Hparams _ Hin) as (ps & Hlen & Hps & Hp).
  simpl in Hp. subst pstr. exists ret, fname, ps.
  split_and!; [done | done | done |]. by rewrite Hx, call_args_arity.
Qed.

Lemma join_empty_app (l1 l2 : list string) :
  join "" (l1 ++ l2)%list = join "" l1 +:+ join "" l2.
Proof.
  induction l1 as [|x l1 IH]; [done |].
  change ((x :: l1) ++ l2)%list with (x :: (l1 ++ l2))%list.
  by rewrite !join_empty_cons, IH, str_app_assoc.
Qed.

Lemma gen_main_statements st parts :
  reachable hash st parts -> main_written st = false ->
  exists stmts,
    1 <= length stmts <= 3 /\
    (gen_main hash st).1
      = brace_line (st_style st) "int main(void)" +:+ join "" stmts
        +:+ indent_of (st_style st) +:+ "return 0;" +:+ EOL +:+ "}" +:+ EOL /\
    Forall (fun x =>
      x = indent_of (st_style st) +:+ "printf(" +:+ String DQ "Hello, world!\n"
          +:+ String DQ ");" +:+ EOL \/
      exists ret fname ps,
        (ret, fname, params_str_of ps) ∈ funcs st /\ length ps <= 2 /\
        Forall param_text ps /\
        x = indent_of (st_style st) +:+ fname +:+ "("
            +:+ join ", " (replicate (length ps) "0") +:+ ");" +:+ EOL) stmts.
Proof.
  intros Hreach Hw.
  set (stmt_ok := fun x : string =>
      x = indent_of (st_style st) +:+ "printf(" +:+ String DQ "Hello, world!\n"
          +:+ String DQ ");" +:+ EOL \/
      exists ret fname ps,
        (ret, fname, params_str_of ps) ∈ funcs st /\ length ps <= 2 /\
        Forall param_text ps /\
        x = indent_of (st_style st) +:+ fname +:+ "("
            +:+ join ", " (replicate (length ps) "0") +:+ ");" +:+ EOL).
  change (wp (gen_main hash) (fun frag _ => exists stmts,
    1 <= length stmts <= 3 /\
    frag = brace_line (st_style st) "int main(void)" +:+ join "" stmts
           +:+ indent_of (st_style st) +:+ "return 0;" +:+ EOL +:+ "}" +:+ EOL /\
    Forall stmt_ok stmts) st).
  unfold gen_main. wp_read. rewrite Hw. wp_write. wp_read. st_simpl.
  wp_draw (gpost_randint 1 3) as k Hk.
  apply wp_bind. eapply wp_mono.
  { apply (wp_replicateS _ _ (fun s' => funcs s' = funcs st) stmt_ok); [| done].
    intros s1 Hs1.
    pose proof (main_stmt_arity st parts (indent_of (st_style st)) s1 Hreach Hs1) as Hx.
    pose proof (main_stmt_spec hash (indent_of (st_style st)) s1) as Hm.
    unfold wp in *. cbv beta. destruct Hm as ([r2 Hr2] & _).
    split; [exact Hx | by rewrite Hr2]. }
  intros body s' (Hlen & Hbody & _). cbv zeta. apply wp_ret. st_simpl.
  exists body. split_and!; [lia | lia | | done].
  rewrite join_empty_app.
  change (join "" [indent_of (st_style st) +:+ "return 0;" +:+ EOL])
    with (indent_of (st_style st) +:+ "return 0;" +:+ EOL).
  by rewrite !str_app_assoc.
Qed.

End Calls.

(** X12. Calls in the entry point.  At every point of every run at which
    the entry point is not written yet, the entry-point unit emits the
    header [int main(void)], one to three statements, [return 0;] and the
    closing brace.  Each statement is the greeting or a call of a stored
    function; a stored signature has at most two parameters, and the call
    passes exactly one [0] for each of them, none for [void]. *)
Theorem main_call_arity (hash : HashOrder) (st : State) (parts : list string) :
  reachable hash st parts -> main_written st = false ->
  exists stmts,
    1 <= length stmts <= 3 /\
    (gen_main hash st).1
      = brace_line (st_style st) "int main(void)" +:+ join "" stmts
        +:+ indent_of (st_style st) +:+ "return 0;" +:+ EOL +:+ "}" +:+ EOL /\
    Forall (fun x =>
      x = indent_of (st_style st) +:+ "printf(" +:+ String DQ "Hello, world!\n"
          +:+ String DQ ");" +:+ EOL \/
      exists ret fname ps,
        (ret, fname, params_str_of ps) ∈ funcs st /\ length ps <= 2 /\
        Forall param_text ps /\
        x = indent_of (st_style st) +:+ fname +:+ "("
            +:+ join ", " (replicate (length ps) "0") +:+ ");" +:+ EOL) stmts.
Proof. apply gen_main_statements. Qed.

Lemma main_call_arity_witness :
  exists parts stmts,
    reachable hash_fwd state_one_func parts /\
    (gen_main hash_fwd state_one_func).1
      = brace_line kr "int main(void)" +:+ join "" stmts
        +:+ "    " +:+ "return 0;" +:+ EOL +:+ "}" +:+ EOL.
Proof.
  pose proof (reach_unit hash_fwd _ _ "func_decl" (gen_func_decl hash_fwd)
                (reach_init hash_fwd (tape_of [0; 0; 0; 0; 0; 0; 0; 0; 0; 0; 4; 0]%Z) kr)
                eq_refl) as Hreach.
  destruct (main_call_arity hash_fwd state_one_func _ Hreach eq_refl)
    as (stmts & _ & Hfrag & _).
  eexists. exists stmts. split; [exact Hreach | exact Hfrag].
Defined.

(** ** The shape of the output *)

Lemma endswith_join (c : ascii) (l : list string) :
  l <> [] -> Forall (fun p => endswith p c = true) l -> endswith (join "" l) c = true.
Proof.
  intros Hne Hl. induction Hl as [|x l Hx Hl IH]; [done |].
  rewrite join_empty_cons. destruct l as [|y l].
  - by rewrite str_app_nil_r.
  - by apply endswith_app_r, IH.
Qed.

(** X13. The shape of a returned text: it opens with the banner comment,
    every part of it ends with a line break, so the text does, and the
    whole file is rendered in one style, the configured one or the one drawn
    first. *)
Theorem build_c_text_shape (hash : HashOrder) (fuel : nat) (cfg : CConfig) (r : Rng)
    (text : string) :
  build_c hash fuel cfg r = Ok text ->
  exists st parts rest,
    build_parts hash fuel cfg r = Ok (st, parts) /\
    parts = PREAMBLE :: rest /\ text = PREAMBLE +:+ join "" rest /\
    Forall (fun p => endswith p LF = true) parts /\
    endswith text LF = true /\
    st_style st = (chosen_style cfg r).1.
Proof.
  intros (st & parts & Hparts & ->)%build_c_ok.
  pose proof (build_parts_reachable hash _ _ _ _ _ Hparts) as Hreach.
  apply reachable_inv in Hreach as [_ _ _ _ _ Hhead Hlf].
  destruct parts as [|p rest]; [done |]. injection Hhead as ->.
  exists st, (PREAMBLE :: rest), rest.
  split_and!; [done | done | apply join_empty_cons | done | by apply endswith_join |].
  revert Hparts. rewrite build_parts_unfold. destruct (chosen_style cfg r) as [sty r1].
  destruct (weights cfg) as [|w ws] eqn:Hw; [done |].
  destruct (assemble _ _ _ _ _ _ _ _) as [[[st' parts'] lines']| | |] eqn:Hasm; try done.
  apply assemble_extends in Hasm as [Hsty _ _ _ _]; [| done].
  destruct (main_written st').
  - by intros [= <- _].
  - intros [= <- _]. destruct (registered_extends hash "main" _ st' eq_refl) as [Hm _ _ _ _].
    by rewrite Hm.
Qed.

Lemma build_c_text_shape_witness :
  exists st parts rest,
    build_parts hash_fwd 1 cfg_switch tape_switch = Ok (st, parts) /\
    parts = PREAMBLE :: rest /\
    Forall (fun p => endswith p LF = true) parts /\
    st_style st = allman.
Proof.
  destruct (build_c_text_shape hash_fwd 1 cfg_switch tape_switch
              (match build_c hash_fwd 1 cfg_switch tape_switch with
               | Ok t => t
               | _ => ""
               end))
    as (st & parts & rest & H1 & H2 & _ & H3 & _ & H4).
  - by vm_compute.
  - by exists st, parts, rest.
Defined.

(** ** The cycle of the header unit *)

Lemma missing_header (hs : list string) :
  NoDup hs -> length hs < length HDRS -> exists h, h ∈ HDRS /\ h ∉ hs.
Proof.
  intros Hnd Hlen.
  destruct (decide (Forall (fun h => h ∈ hs) HDRS)) as [Hall|Hex].
  - exfalso. assert (HDRS ⊆+ hs) as Hsub.
    { apply NoDup_submseteq; [by_decide |]. by apply Forall_forall. }
    apply submseteq_length in Hsub. lia.
  - apply not_Forall_Exists in Hex; [| apply _].
    apply Exists_exists in Hex as (h & Hh & Hn). by exists h.
Qed.

Lemma includes_fresh (n : nat) (hs : list string) (s : State) :
  NoDup hs -> headers s = list_to_set hs -> length hs + n <= length HDRS ->
  exists new,
    (includes n s).1 = map include_line new /\
    headers (includes n s).2 = list_to_set (hs ++ new) /\
    NoDup (hs ++ new) /\ length new = n /\ Forall (fun h => h ∈ HDRS) new.
Proof.
  revert hs s. induction n as [|n IH]; intros hs s Hnd Hhs Hlen.
  { exists []. rewrite app_nil_r. by split_and!. }
  cbn [includes].
  destruct (gen_include_spec s) as (hdr & Hhdr & Hfrag & _ & Hfresh & _).
  destruct (missing_header hs Hnd) as (h & Hh & Hmiss); [lia |].
  destruct Hfresh as [Hnew Hs1].
  { exists h. split; [done |]. rewrite Hhs. by rewrite elem_of_list_to_set. }
  destruct (gen_include s) as [frag s1]. cbn [fst snd] in Hfrag, Hs1.
  assert (hdr ∉ hs) as Hnotin by (by rewrite Hhs, elem_of_list_to_set in Hnew).
  destruct (IH (hs ++ [hdr])%list s1) as (new & Hfr & Hhd & Hnd' & Hl & Hin).
  { apply NoDup_app. split_and!; [done | | apply NoDup_singleton].
    intros x Hx ->%list_elem_of_singleton. done. }
  { rewrite Hs1, Hhs. apply set_eq. intros x.
    rewrite elem_of_union, !elem_of_list_to_set, elem_of_app, elem_of_singleton,
      list_elem_of_singleton. done. }
  { rewrite length_app. cbn [length]. lia. }
  destruct (includes n s1) as [frags s2]. cbn [fst snd] in *.
  exists (hdr :: new). rewrite <- app_assoc in Hhd, Hnd'.
  split_and!; [by rewrite Hfrag, Hfr | done | done | simpl; congruence | by constructor].
Qed.

Lemma includes_cycle (s : State) :
  headers s = ∅ ->
  (includes 5 s).1 ≡ₚ map include_line HDRS /\
  headers (includes 5 s).2 = list_to_set HDRS /\
  exists hdr, hdr ∈ HDRS /\ headers (gen_include (includes 5 s).2).2 = {[hdr]}.
Proof.
  intros Hs.
  destruct (includes_fresh 5 [] s) as (new & Hfr & Hhd & Hnd & Hl & Hin);
    [constructor | done | simpl; lia |].
  rewrite app_nil_l in Hhd, Hnd.
  assert (new ≡ₚ HDRS) as Hperm.
  { apply submseteq_length_Permutation; [| by rewrite Hl].
    apply NoDup_submseteq; [done |]. by apply Forall_forall. }
  split_and!.
  - rewrite Hfr. by apply Permutation_map.
  - rewrite Hhd. apply set_eq. intros x. by rewrite !elem_of_list_to_set, Hperm.
  - destruct (gen_include_spec (includes 5 s).2) as (hdr & Hhdr & _ & _ & _ & Hall).
    exists hdr. split; [done |]. apply Hall. intros h Hh.
    rewrite Hhd, elem_of_list_to_set. by rewrite Hperm.
Qed.

(** X14. The cycle of the header unit.  At every point of every run the
    included headers are catalog headers.  From a state in which no header
    is included, as at the start of a run, five successive header fragments
    are the five catalog headers, each once and in some order; the sixth
    starts the cycle again.  The units between them do not matter: no other
    unit changes the set of included headers. *)
Theorem include_cycle (hash : HashOrder) :
  (forall st parts h, reachable hash st parts -> h ∈ headers st -> h ∈ HDRS) /\
  (forall kind g s,
     lookup_kind kind (REGISTRY hash) = Some g -> kind <> "include" ->
     headers (g s).2 = headers s) /\
  (forall s,
     headers s = ∅ ->
     (includes 5 s).1 ≡ₚ map include_line HDRS /\
     headers (includes 5 s).2 = list_to_set HDRS /\
     exists hdr, hdr ∈ HDRS /\ headers (gen_include (includes 5 s).2).2 = {[hdr]}).
Proof.
  split_and!.
  - intros st parts h [_ _ _ _ Hh _ _]%reachable_inv. apply Hh.
  - intros kind g s Hg Hk.
    pose proof (registered_footprint hash kind g Hg s) as Hfp.
    apply footprint_frames in Hfp as (_ & _ & _ & Hh & _). apply Hh.
    by apply String.eqb_neq.
  - apply includes_cycle.
Qed.

Lemma include_cycle_witness :
  (includes 5 (initial_state (tape_of [3; 1; 4; 1; 5]%Z) kr)).1 ≡ₚ map include_line HDRS /\
  (includes 5 (initial_state (tape_of [3; 1; 4; 1; 5]%Z) kr)).1
    = map include_line ["<math.h>"; "<stdlib.h>"; "<string.h>"; "<stddef.h>"; "<stdio.h>"].
Proof.
  split; [| by vm_compute].
  by apply (proj2 (proj2 (include_cycle hash_fwd)) (initial_state (tape_of [3; 1; 4; 1; 5]%Z) kr)).
Defined.

(** ** The registry as the decorators build it *)

Lemma lookup_kind_app kind (reg reg' : list (string * GeneratorFn)) :
  lookup_kind kind (reg ++ reg')%list =
  match lookup_kind kind reg with
  | Some g => Some g
  | None => lookup_kind kind reg'
  end.
Proof.
  induction reg as [|[k g] reg IH]; [done |].
  cbn [lookup_kind app]. by destruct (String.eqb kind k).
Qed.

Lemma lookup_kind_None kind (reg : list (string * GeneratorFn)) :
  lookup_kind kind reg = None <-> kind ∉ map fst reg.
Proof.
  induction reg as [|[k g] reg IH]; cbn [lookup_kind map fst].
  - split; [intros _; apply not_elem_of_nil | done].
  - rewrite not_elem_of_cons. destruct (String.eqb_spec kind k) as [->|Hne].
    + split; [done | by intros [? _]].
    + rewrite IH. tauto.
Qed.

(** X15. The decorator.  Registering a kind that is not registered yet makes
    it map to the function and changes no other kind; registering a
    registered kind raises [ValueError] and registers nothing; the keys of
    a registry built by the decorator alone are pairwise distinct; and the
    fifteen decorators of the module, in source order, raise nothing and
    build the registry the builder reads. *)
Theorem register_once (hash : HashOrder) :
  (forall kind fn reg reg',
     register kind fn reg = Ok reg' ->
     lookup_kind kind reg = None /\ lookup_kind kind reg' = Some fn /\
     (forall k, k <> kind -> lookup_kind k reg' = lookup_kind k reg) /\
     (NoDup (map fst reg) -> NoDup (map fst reg'))) /\
  (forall kind fn reg,
     register kind fn reg = ValueError <-> kind ∈ map fst reg) /\
  register_all (REGISTRY hash) [] = Ok (REGISTRY hash) /\
  NoDup (map fst (REGISTRY hash)).
Proof.
  split_and!.
  - intros kind fn reg reg'. unfold register.
    destruct (lookup_kind kind reg) eqn:Hk; [done |]. intros [= <-].
    split_and!; [done | | |].
    + rewrite lookup_kind_app, Hk. cbn [lookup_kind]. by rewrite String.eqb_refl.
    + intros k Hne. rewrite lookup_kind_app. destruct (lookup_kind k reg); [done |].
      cbn [lookup_kind]. by apply String.eqb_neq in Hne as ->.
    + intros Hnd. rewrite map_app. apply NoDup_app. split_and!; [done | | apply NoDup_singleton].
      intros x Hx ->%list_elem_of_singleton. by apply lookup_kind_None in Hk.
  - intros kind fn reg. unfold register.
    destruct (lookup_kind kind reg) eqn:Hk.
    + split; [intros _ | done].
      destruct (decide (kind ∈ map fst reg)) as [|Hn]; [done |].
      apply lookup_kind_None in Hn. congruence.
    + apply lookup_kind_None in Hk. split; [done | by intros ?].
  - reflexivity.
  - unfold REGISTRY. cbn [map fst]. by_decide.
Qed.

Lemma register_once_witness :
  exists reg,
    register "banner" gen_comment (REGISTRY hash_fwd) = Ok reg /\
    lookup_kind "banner" reg = Some gen_comment /\
    lookup_kind "main" reg = Some (gen_main hash_fwd).
Proof.
  eexists. split; [reflexivity |].
  destruct (proj1 (register_once hash_fwd) "banner" gen_comment (REGISTRY hash_fwd) _ eq_refl)
    as (_ & H1 & H2 & _).
  split; [exact H1 |]. by rewrite H2.
Defined.

(** ** The weights of the command line *)

Lemma split_no_sep c (s : string) : count_char c s = 0 -> split c s = [s].
Proof.
  induction s as [|x s IH]; simpl; [done |].
  destruct (Ascii.eqb x c); [done |]. intros Hs. by rewrite (IH Hs).
Qed.

Lemma split_app_sep c (a b : string) :
  count_char c a = 0 -> split c (a +:+ String c b) = a :: split c b.
Proof.
  induction a as [|x a IH]; simpl.
  - intros _. rewrite ?str_app_nil_l. cbn [split]. by rewrite Ascii.eqb_refl.
  - rewrite ?str_app_cons. cbn [split]. destruct (Ascii.eqb x c); [done |].
    intros Ha. by rewrite (IH Ha).
Qed.

Lemma dict_set_keys k v (d : list (string * Q)) :
  map fst (dict_set k v d) =
  if bool_decide (k ∈ map fst d) then map fst d else (map fst d ++ [k])%list.
Proof.
  induction d as [|[k' v'] d IH]; cbn [dict_set map fst app].
  - by rewrite bool_decide_eq_false_2 by apply not_elem_of_nil.
  - destruct (String.eqb_spec k' k) as [->|Hne].
    + by rewrite bool_decide_eq_true_2 by apply list_elem_of_here.
    + cbn [map fst]. rewrite IH. case_bool_decide as Hin.
      * by rewrite bool_decide_eq_true_2 by (by apply list_elem_of_further).
      * rewrite bool_decide_eq_false_2; [done |].
        intros [?|?]%elem_of_cons; [congruence | done].
Qed.

Lemma dict_get_set k v k' (d : list (string * Q)) :
  dict_get k' (dict_set k v d) = if String.eqb k k' then Some v else dict_get k' d.
Proof.
  induction d as [|[k0 v0] d IH]; cbn [dict_set dict_get].
  - done.
  - destruct (String.eqb_spec k0 k) as [->|Hne]; cbn [dict_get].
    + by destruct (String.eqb k k').
    + rewrite IH. destruct (String.eqb_spec k0 k') as [->|]; [| done].
      destruct (String.eqb_spec k k'); [congruence | done].
Qed.

Lemma keys_extend_refl d : NoDup (map fst d) -> keys_extend d d.
Proof. intros Hnd. exists []. by rewrite app_nil_r. Qed.

Lemma keys_extend_set base k v d : keys_extend base d -> keys_extend base (dict_set k v d).
Proof.
  intros (extra & Hk & Hnd). unfold keys_extend. rewrite dict_set_keys.
  case_bool_decide as Hin.
  - by exists extra.
  - exists (extra ++ [k])%list. split; [by rewrite Hk, app_assoc |].
    apply NoDup_app. split_and!; [done | | apply NoDup_singleton].
    intros x Hx ->%list_elem_of_singleton. done.
Qed.

Section ParseWeightsProperties.

Variable float : string -> option Q.
Variable strip : string -> string.

Lemma parse_pair_Some kv base d :
  parse_pair float strip kv base = Some d <->
  exists key val v, split "=" kv = [key; val] /\ float val = Some v /\
    d = dict_set (strip key) v base.
Proof.
  unfold parse_pair. split.
  - destruct (split "=" kv) as [|key [|val [|]]]; try done.
    destruct (float val) as [v|] eqn:Hv; [| done]. intros [= <-]. by exists key, val, v.
  - intros (key & val & v & -> & -> & ->). done.
Qed.

Lemma parse_pair_None kv base :
  parse_pair float strip kv base = None <->
  count_char "=" kv <> 1 \/
  exists key val, split "=" kv = [key; val] /\ float val = None.
Proof.
  unfold parse_pair. pose proof (split_length "=" kv) as Hlen.
  destruct (split "=" kv) as [|key [|val [|x l]]]; simpl in Hlen.
  - lia.
  - split; [intros _; left; lia | done].
  - destruct (float val) as [v|] eqn:Hv.
    + split; [done |]. intros [?|(k & w & [= <- <-] & Hw)]; [lia | congruence].
    + split; [| done]. intros _. right. by exists key, val.
  - split; [intros _; left; lia | done].
Qed.

Lemma parse_pairs_extend pairs base0 base d :
  keys_extend base0 base ->
  parse_pairs float strip pairs base = Some d -> keys_extend base0 d.
Proof.
  revert base. induction pairs as [|kv pairs IH]; intros base Hb; cbn [parse_pairs].
  - by intros [= <-].
  - destruct (parse_pair float strip kv base) as [base'|] eqn:Hkv; [| done].
    apply parse_pair_Some in Hkv as (key & val & v & _ & _ & ->).
    apply IH. by apply keys_extend_set.
Qed.

Lemma parse_pairs_get pairs base d k :
  parse_pairs float strip pairs base = Some d ->
  dict_get k d = match assigned float strip pairs k with
                 | Some v => Some v
                 | None => dict_get k base
                 end.
Proof.
  revert base. induction pairs as [|kv pairs IH]; intros base; cbn [parse_pairs assigned].
  - by intros [= <-].
  - destruct (parse_pair float strip kv base) as [base'|] eqn:Hkv; [| done].
    apply parse_pair_Some in Hkv as (key & val & v & Hsplit & Hv & ->).
    intros Hd. rewrite (IH _ Hd). destruct (assigned float strip pairs k); [done |].
    rewrite Hsplit, dict_get_set, Hv. by destruct (String.eqb (strip key) k).
Qed.

Lemma parse_pairs_None pairs base :
  parse_pairs float strip pairs base = None <->
  exists kv, kv ∈ pairs /\
    (count_char "=" kv <> 1 \/
     exists key val, split "=" kv = [key; val] /\ float val = None).
Proof.
  revert base. induction pairs as [|kv pairs IH]; intros base; cbn [parse_pairs].
  - split; [done |]. intros (kv & Hin & _). by apply elem_of_nil in Hin.
  - destruct (parse_pair float strip kv base) as [base'|] eqn:Hkv.
    + rewrite IH. split.
      * intros (x & Hx & Hbad). exists x. split; [by apply list_elem_of_further | done].
      * intros (x & [->|Hx]%elem_of_cons & Hbad).
        -- apply (proj2 (parse_pair_None kv base)) in Hbad. congruence.
        -- by exists x.
    + split; [| done]. intros _. exists kv. split; [apply list_elem_of_here |].
      by apply parse_pair_None in Hkv.
Qed.

Lemma default_weights_NoDup : NoDup (map fst default_weights).
Proof. by_decide. Qed.

Lemma parse_weights_unfold (arg : option string) :
  _parse_weights float strip arg =
  match arg with
  | None => Some default_weights
  | Some a =>
      if String.eqb a "" then Some default_weights
      else parse_pairs float strip (split "," a) default_weights
  end.
Proof. destruct arg as [[|c a]|]; reflexivity. Qed.

Lemma parse_weights_keys_spec (arg : option string) (ws : list (string * Q)) :
  _parse_weights float strip arg = Some ws ->
  keys_extend default_weights ws /\ ws <> [] /\ 15 <= length ws.
Proof.
  intros Hws.
  assert (keys_extend default_weights ws) as Hk.
  { rewrite parse_weights_unfold in Hws.
    pose proof (keys_extend_refl default_weights default_weights_NoDup) as Hrefl.
    destruct arg as [a|]; [| by injection Hws as <-].
    destruct (String.eqb a ""); [by injection Hws as <- |].
    by eapply parse_pairs_extend. }
  split; [done |]. destruct Hk as (extra & Hk & _).
  apply (f_equal length) in Hk. rewrite length_app, !length_map in Hk.
  change (length default_weights) with 15 in Hk.
  split; [| lia]. intros ->. simpl in Hk. lia.
Qed.

Lemma parse_weights_one_pair (key val : string) (v : Q) :
  count_char "," key = 0 -> count_char "=" key = 0 ->
  count_char "," val = 0 -> count_char "=" val = 0 ->
  float val = Some v ->
  _parse_weights float strip (Some (key +:+ "=" +:+ val))
  = Some (dict_set (strip key) v default_weights).
Proof.
  intros Hk1 Hk2 Hv1 Hv2 Hv. rewrite parse_weights_unfold.
  assert (String.eqb (key +:+ "=" +:+ val) "" = false) as ->.
  { apply String.eqb_neq. intros Heq. apply (f_equal (count_char "=")) in Heq.
    rewrite !count_char_app in Heq. simpl in Heq. lia. }
  rewrite split_no_sep; [| rewrite !count_char_app; simpl; lia].
  cbn [parse_pairs]. unfold parse_pair.
  change (key +:+ "=" +:+ val) with (key +:+ String "=" val).
  rewrite split_app_sep, split_no_sep, Hv; done.
Qed.

End ParseWeightsProperties.

(** X16. The weights read from the command line.  Without an argument, or
    with the empty one, they are the defaults.  Otherwise, when the argument
    is accepted, the result keeps the fifteen default keys first and in their
    order, followed by the new keys, all pairwise distinct: it is never
    empty.  No key is checked against the registry: a single well-formed
    pair is accepted with any key. *)
Theorem parse_weights_keys (float : string -> option Q) (strip : string -> string) :
  _parse_weights float strip None = Some default_weights /\
  _parse_weights float strip (Some "") = Some default_weights /\
  (forall arg ws,
     _parse_weights float strip arg = Some ws ->
     (exists extra,
        map fst ws = (map fst default_weights ++ extra)%list /\ NoDup (map fst ws)) /\
     ws <> [] /\ 15 <= length ws) /\
  (forall key val v,
     count_char "," key = 0 -> count_char "=" key = 0 ->
     count_char "," val = 0 -> count_char "=" val = 0 ->
     float val = Some v ->
     _parse_weights float strip (Some (key +:+ "=" +:+ val))
     = Some (dict_set (strip key) v default_weights)).
Proof.
  split_and!; [done | done | apply parse_weights_keys_spec | apply parse_weights_one_pair].
Qed.

Lemma parse_weights_keys_witness :
  _parse_weights float_of_digits id (Some "bogus=3")
  = Some (default_weights ++ [("bogus", 3%Q)])%list /\
  lookup_kind "bogus" (REGISTRY hash_fwd) = None.
Proof.
  split; [| done].
  exact (proj2 (proj2 (proj2 (parse_weights_keys float_of_digits id))) "bogus" "3" 3%Q
           eq_refl eq_refl eq_refl eq_refl eq_refl).
Defined.

(** X17. The value of every key after the weights are read is that of the
    last pair of the argument for that key, and the default (or nothing)
    when no pair names it. *)
Theorem parse_weights_last_wins (float : string -> option Q) (strip : string -> string)
    (a : string) (ws : list (string * Q)) (k : string) :
  a <> "" ->
  _parse_weights float strip (Some a) = Some ws ->
  dict_get k ws = match assigned float strip (split "," a) k with
                  | Some v => Some v
                  | None => dict_get k default_weights
                  end.
Proof.
  intros Ha%String.eqb_neq. rewrite parse_weights_unfold, Ha. apply parse_pairs_get.
Qed.

Lemma parse_weights_last_wins_witness :
  _parse_weights float_of_digits id (Some "switch=1,enum=2,switch=3")
  = Some (dict_set "enum" 2%Q (dict_set "switch" 3%Q default_weights)) /\
  dict_get "switch" (dict_set "enum" 2%Q (dict_set "switch" 3%Q default_weights)) = Some 3%Q.
Proof.
  assert (_parse_weights float_of_digits id (Some "switch=1,enum=2,switch=3")
          = Some (dict_set "enum" 2%Q (dict_set "switch" 3%Q default_weights))) as H
    by (by vm_compute).
  split; [exact H |].
  rewrite (parse_weights_last_wins float_of_digits id "switch=1,enum=2,switch=3" _ "switch"
             ltac:(discriminate) H).
  reflexivity.
Defined.

(** X18. Reading the weights fails, with the exit of the syntax message,
    exactly when the argument is not empty and one of its comma-separated
    pairs does not hold exactly one [=] or has a value that [float] rejects;
    so an empty pair, as after a trailing comma, is an error. *)
Theorem parse_weights_failure (float : string -> option Q) (strip : string -> string)
    (arg : option string) :
  _parse_weights float strip arg = None <->
  exists a, arg = Some a /\ a <> "" /\
    exists kv, kv ∈ split "," a /\
      (count_char "=" kv <> 1 \/
       exists key val, split "=" kv = [key; val] /\ float val = None).
Proof.
  rewrite parse_weights_unfold. destruct arg as [a|].
  - destruct (String.eqb_spec a "") as [->|Hne].
    + split; [done |]. by intros (a & [= <-] & Ha & _).
    + rewrite parse_pairs_None. split.
      * intros Hbad. by exists a.
      * by intros (a' & [= <-] & _ & Hbad).
  - split; [done |]. by intros (a & [=] & _).
Qed.

(** ** The function-declaration unit *)

(** X19. The function-declaration unit draws a return type, a name of six
    letters and at most two parameters, each a type, a blank and a name of
    six letters; it stores exactly the signature it prints: the fragment is
    the prototype of the one signature added to the state. *)
Theorem gen_func_decl_prototype (hash : HashOrder) (s : State) :
  wf s ->
  exists ret name ps r,
    (gen_func_decl hash s).1 = prototype (ret, name, params_str_of ps) /\
    (gen_func_decl hash s).2 = set_rng r (with_func (ret, name, params_str_of ps) s) /\
    length ps <= 2 /\ Forall param_text ps /\
    ctype_from (list_of_strs hash (typedefs s)) ret /\ name_of_length 6 name.
Proof. apply gen_func_decl_params. Qed.

Lemma gen_func_decl_prototype_witness :
  exists ret name ps r,
    (gen_func_decl hash_fwd (initial_state (tape_of [0; 0; 0; 0; 0; 0; 0; 0; 0; 0; 4; 0]%Z) kr)).1
      = prototype (ret, name, params_str_of ps) /\
    state_one_func
      = set_rng r (with_func (ret, name, params_str_of ps)
                     (initial_state (tape_of [0; 0; 0; 0; 0; 0; 0; 0; 0; 0; 4; 0]%Z) kr)).
Proof.
  destruct (gen_func_decl_prototype hash_fwd
              (initial_state (tape_of [0; 0; 0; 0; 0; 0; 0; 0; 0; 0; 4; 0]%Z) kr)
              (wf_initial _ _)) as (ret & name & ps & r & H1 & H2 & _).
  exists ret, name, ps, r. split; [exact H1 | exact H2].
Defined.

(** ** The set of structure names is never read *)

Lemma oblivious_ret {A} (a : A) : oblivious (sret a).
Proof. by intros s1 s2 H. Qed.

Lemma oblivious_bind {A B} (m : St A) (k : A -> St B) :
  oblivious m -> (forall a, oblivious (k a)) -> oblivious (sbind m k).
Proof.
  intros Hm Hk s1 s2 H. unfold sbind.
  destruct (Hm s1 s2 H) as [Ha Hs].
  destruct (m s1) as [a1 t1], (m s2) as [a2 t2]. simpl in Ha, Hs. subst a2.
  by apply Hk.
Qed.

Lemma oblivious_draw {A} (g : Gen A) : oblivious (draw g).
Proof.
  intros s1 s2 [Hr ? ? ? ? ?]. unfold draw. rewrite Hr.
  destruct (g (rng s2)) as [a r]. by split.
Qed.

Lemma oblivious_get {A} (f : State -> A) :
  (forall s1 s2, agree_but_structs s1 s2 -> f s1 = f s2) -> oblivious (get f).
Proof. intros Hf s1 s2 H. split; [by apply Hf | done]. Qed.

Lemma oblivious_modify (f : State -> State) :
  (forall s1 s2, agree_but_structs s1 s2 -> agree_but_structs (f s1) (f s2)) ->
  oblivious (modify f).
Proof. intros Hf s1 s2 H. split; [done | by apply Hf]. Qed.

Lemma oblivious_replicateS {A} (n : nat) (m : St A) :
  oblivious m -> oblivious (replicateS n m).
Proof.
  intros Hm. induction n as [|n IH]; cbn [replicateS].
  - apply oblivious_ret.
  - apply oblivious_bind; [done |]. intros x.
    apply oblivious_bind; [done |]. intros xs. apply oblivious_ret.
Qed.

(** Shows that a computation is oblivious by following its structure. *)
Ltac oblivious_walk :=
  repeat (cbv beta zeta;
          lazymatch goal with
          | |- oblivious (sbind _ _) => apply oblivious_bind; [| intros ?]
          | |- oblivious (sret _) => apply oblivious_ret
          | |- oblivious (draw _) => apply oblivious_draw
          | |- oblivious (get _) => apply oblivious_get; by intros ? ? []
          | |- oblivious (modify _) =>
              apply oblivious_modify; intros ? ? []; constructor; simpl; congruence
          | |- oblivious (replicateS _ _) => apply oblivious_replicateS
          | |- oblivious (if ?b then _ else _) => destruct b
          | |- oblivious (match ?x with _ => _ end) => destruct x
          end).

Lemma registered_oblivious (hash : HashOrder) :
  forall kind g, lookup_kind kind (REGISTRY hash) = Some g -> oblivious g.
Proof.
  by_unit hash; try unfold gen_main, main_stmt; unfold_generators; oblivious_walk.
Qed.

(** X20. No registered unit reads the set of structure names: run from two
    states that differ in that set only, a unit returns the same fragment
    and leaves states that again differ in that set only.  The names that
    the union and struct units record never reach a later fragment. *)
Theorem structs_never_read (hash : HashOrder) (kind : string) (g : GeneratorFn)
    (s1 s2 : State) :
  lookup_kind kind (REGISTRY hash) = Some g ->
  agree_but_structs s1 s2 ->
  (g s1).1 = (g s2).1 /\ agree_but_structs (g s1).2 (g s2).2.
Proof. intros Hg. by apply (registered_oblivious hash kind). Qed.

Lemma structs_never_read_witness :
  agree_but_structs (with_struct "Abc" (initial_state (tape_of [2; 7]%Z) gnu))
    (initial_state (tape_of [2; 7]%Z) gnu) /\
  (gen_var_decl hash_fwd (with_struct "Abc" (initial_state (tape_of [2; 7]%Z) gnu))).1
    = (gen_var_decl hash_fwd (initial_state (tape_of [2; 7]%Z) gnu)).1.
Proof.
  assert (agree_but_structs (with_struct "Abc" (initial_state (tape_of [2; 7]%Z) gnu))
            (initial_state (tape_of [2; 7]%Z) gnu)) as H by (by constructor).
  split; [exact H |].
  exact (proj1 (structs_never_read hash_fwd "var_decl" (gen_var_decl hash_fwd) _ _ eq_refl H)).
Defined.

(** ** The builder on the weights of the command line *)

Lemma default_keys_registered (hash : HashOrder) (k : string) :
  k ∈ map fst default_weights -> lookup_kind k (REGISTRY hash) <> None.
Proof.
  unfold default_weights. cbn [map fst]. intros Hk.
  repeat (apply elem_of_cons in Hk as [->|Hk]; [done |]).
  by apply elem_of_nil in Hk.
Qed.

Lemma default_weights_safe : safe_weights (map snd default_weights).
Proof.
  unfold default_weights. cbn [map snd]. split_and!.
  - repeat (constructor; [lra |]). constructor.
  - apply Exists_cons_hd. lra.
  - vm_compute. discriminate.
Qed.

(** X21. The builder on the weights of the command line, as the command
    line composes them.  The mapping read from an accepted argument is never
    empty, so the builder raises [ValueError] only from [choices], for a
    target above 2 and weights that are not safe (one negative, none
    positive, or a sum above [WEIGHT_CAP]), and it returns a text for every
    target of at most 2.  A [KeyError] names a key that the argument added:
    never one of the defaults.  Without an argument the builder raises
    neither. *)
Theorem cli_weights_errors (float : string -> option Q) (strip : string -> string)
    (hash : HashOrder) (fuel : nat) (target : Z) (sty : StyleSel) (chk : bool) (r : Rng) :
  (forall arg ws,
     _parse_weights float strip arg = Some ws ->
     (build_c hash fuel (mkConfig target sty chk ws) r = ValueError ->
      (2 < target)%Z /\ ~ safe_weights (map snd ws)) /\
     ((target <= 2)%Z -> exists text, build_c hash fuel (mkConfig target sty chk ws) r = Ok text) /\
     (forall k, build_c hash fuel (mkConfig target sty chk ws) r = KeyError k ->
        k ∈ map fst ws /\ k ∉ map fst default_weights)) /\
  (forall ws,
     _parse_weights float strip None = Some ws ->
     build_c hash fuel (mkConfig target sty chk ws) r <> ValueError /\
     forall k, build_c hash fuel (mkConfig target sty chk ws) r <> KeyError k).
Proof.
  split.
  - intros arg ws Hws.
    destruct (parse_weights_keys_spec float strip arg ws Hws) as (_ & Hne & _).
    split_and!.
    + intros [Hnil|[Hrej Hloc]]%build_c_value_error; [done |]. cbn [weights loc] in *.
      split; [done |]. intros Hsafe%safe_weights_accepted. congruence.
    + intros Hloc. by apply build_c_small_target.
    + intros k [Hin Hk]%build_c_key_error. cbn [weights] in Hin. split; [done |].
      intros Hd. by apply (default_keys_registered hash) in Hd.
  - intros ws [= <-]. split.
    + intros [Hnil|[H _]]%build_c_value_error; [done |].
      cbn [weights] in H. by rewrite (safe_weights_accepted _ default_weights_safe) in H.
    + intros k [Hin Hk]%build_c_key_error. cbn [weights] in Hin.
      by apply (default_keys_registered hash) in Hin.
Qed.

Lemma cli_weights_errors_witness :
  _parse_weights float_of_digits id (Some "bogus=3")
  = Some (default_weights ++ [("bogus", 3%Q)])%list /\
  exists text,
    build_c hash_fwd 0 (mkConfig 2 (fixed kr) false (default_weights ++ [("bogus", 3%Q)])%list)
      (tape_of []) = Ok text.
Proof.
  assert (_parse_weights float_of_digits id (Some "bogus=3")
          = Some (default_weights ++ [("bogus", 3%Q)])%list) as H by (by vm_compute).
  split; [exact H |].
  apply (proj1 (proj2 (proj1 (cli_weights_errors float_of_digits id hash_fwd 0 2 (fixed kr)
                                false (tape_of [])) _ _ H))).
  lia.
Defined.
